(** * Market-breadth analyzer: the fetch / cache / merge core

    A shallow embedding of [services/api.ts] (cache helpers, the two series
    fetchers, the two breadth mappers), of [parseVNIndexData] from
    [utils/formatters.ts] and of the merge step of [App.tsx] ([chartData]),
    together with the properties the specification states about them; and,
    beside these, of [crossovers] and [handleRangeChange] from [App.tsx], of
    the window selection and the sector ranking of [prepareAnalysisContext]
    from [services/ai.ts] and of the saved session of
    [components/AiInsightPanel.tsx], with further properties read off the
    code.

    The code is dynamically typed at its boundary (every payload is [any]),
    so the embedding works on JavaScript values: truthiness, [||] and [??],
    numeric coercion, property access that throws on [null]/[undefined],
    [Map] with insertion order, and [try]/[catch] are modelled as the
    language defines them.  A number is [NaN], an infinity, or the rational
    that a finite double denotes (with one zero); products and quotients are
    rounded to the nearest double as IEEE 754 prescribes, see [Num.round]. *)

From Stdlib Require Import ZArith QArith Qabs Qround Qpower String Ascii List Lia Lqa Bool.
From Stdlib Require Import DecimalString DecimalNat DecimalZ OrderedTypeEx.
From Stdlib Require SpecFloat.
From stdpp Require Import base option list gmap strings sorting.

Set Default Proof Using "Type".
Set Warnings "-register-all".
Generalizable All Variables.
Local Open Scope string_scope.
Local Open Scope list_scope.

(* ================================================================== *)
(** ** JavaScript numbers *)
(* ================================================================== *)

Inductive number : Type :=
| NaN
| PInf
| NInf
| Fin (q : Q).

(** Arithmetic and comparison, as ECMAScript defines them.  [mul] and [div]
    round their result to the nearest double.  [sub] and [add] are the exact
    operations: the code takes them of clock readings and time values, which
    are integers that a double holds exactly, or looks only at the sign of a
    difference, which rounding keeps; [rsub] is the rounded difference, for
    operands of any size. *)
Module Num.

Definition Qltb (a b : Q) : bool := negb (Qle_bool b a).

Definition of_Z (z : Z) : number := Fin (inject_Z z).

Definition zero : number := of_Z 0.

Definition isNaN (a : number) : bool :=
  match a with NaN => true | _ => false end.

Definition isFinite (a : number) : bool :=
  match a with Fin _ => true | _ => false end.

(** Sign of a number that is not [NaN]. *)
Definition sign (a : number) : comparison :=
  match a with
  | NaN => Eq
  | PInf => Gt
  | NInf => Lt
  | Fin q => (q ?= 0)%Q
  end.

Definition neg (a : number) : number :=
  match a with
  | NaN => NaN
  | PInf => NInf
  | NInf => PInf
  | Fin q => Fin (Qred (- q))
  end.

(** [a < b]; every comparison with [NaN] is false. *)
Definition lt (a b : number) : bool :=
  match a, b with
  | NaN, _ | _, NaN => false
  | PInf, _ => false
  | _, NInf => false
  | NInf, _ => true
  | _, PInf => true
  | Fin x, Fin y => Qltb x y
  end.

Definition gt (a b : number) : bool := lt b a.

(** [a <= b]. *)
Definition le (a b : number) : bool :=
  match a, b with
  | NaN, _ | _, NaN => false
  | NInf, _ => true
  | _, PInf => true
  | PInf, _ => false
  | _, NInf => false
  | Fin x, Fin y => Qle_bool x y
  end.

Definition ge (a b : number) : bool := le b a.

(** [a === b] on numbers: [NaN] differs from itself. *)
Definition eqb (a b : number) : bool :=
  match a, b with
  | PInf, PInf | NInf, NInf => true
  | Fin x, Fin y => Qeq_bool x y
  | _, _ => false
  end.

(** SameValueZero on numbers (the equality of [Map] keys): [NaN] equals
    itself. *)
Definition same (a b : number) : bool :=
  match a, b with
  | NaN, NaN => true
  | _, _ => eqb a b
  end.

(** The integer nearest to [q], the even one of two that are equally near. *)
Definition Qnearest_even (q : Q) : Z :=
  let f := Qfloor q in
  match ((q - inject_Z f) ?= 1 # 2)%Q with
  | Lt => f
  | Gt => (f + 1)%Z
  | Eq => if Z.even f then f else (f + 1)%Z
  end.

(** For [0 < a], the exponent [e] with [2 ^ e <= a < 2 ^ (e + 1)]. *)
Definition Qlog2 (a : Q) : Z :=
  let k := (Z.log2 (Qnum a) - Z.log2 (Zpos (Qden a)))%Z in
  if Qle_bool (2 ^ k) a then k else (k - 1)%Z.

(** Rounding to binary64, to nearest with ties to even: 53 significant bits
    above [2 ^ -1022], multiples of [2 ^ -1074] below it, and an infinity
    from [2 ^ 1024] on. *)
Definition round (q : Q) : number :=
  let a := Qabs q in
  let e := Z.max (Qlog2 a) (-1022) in
  let ulp := (2 ^ (e - 52))%Q in
  let r := (inject_Z (Qnearest_even (a / ulp)) * ulp)%Q in
  if Qle_bool (2 ^ 1024) r
  then (if Qle_bool 0 q then PInf else NInf)
  else Fin (Qred (if Qle_bool 0 q then r else - r)).

Definition mul (a b : number) : number :=
  match a, b with
  | NaN, _ | _, NaN => NaN
  | Fin x, Fin y => round (x * y)
  | _, _ =>
      match sign a, sign b with
      | Eq, _ | _, Eq => NaN
      | Gt, Gt | Lt, Lt => PInf
      | _, _ => NInf
      end
  end.

Definition div (a b : number) : number :=
  match a, b with
  | NaN, _ | _, NaN => NaN
  | Fin x, Fin y =>
      match (y ?= 0)%Q with
      | Eq => match (x ?= 0)%Q with Eq => NaN | Gt => PInf | Lt => NInf end
      | _ => round (x / y)
      end
  | Fin _, _ => zero
  | _, Fin y => match (y ?= 0)%Q with Lt => neg a | _ => a end
  | _, _ => NaN
  end.

Definition sub (a b : number) : number :=
  match a, b with
  | NaN, _ | _, NaN => NaN
  | Fin x, Fin y => Fin (Qred (x - y))
  | PInf, PInf | NInf, NInf => NaN
  | PInf, _ | _, NInf => PInf
  | NInf, _ | _, PInf => NInf
  end.

(** [a - b] as the code computes it on numbers of any size. *)
Definition rsub (a b : number) : number :=
  match sub a b with
  | Fin q => round q
  | d => d
  end.

Definition add (a b : number) : number :=
  match a, b with
  | NaN, _ | _, NaN => NaN
  | Fin x, Fin y => Fin (Qred (x + y))
  | PInf, NInf | NInf, PInf => NaN
  | PInf, _ | _, PInf => PInf
  | NInf, _ | _, NInf => NInf
  end.

(** [Math.max] of two numbers. *)
Definition max (a b : number) : number :=
  match a, b with
  | NaN, _ | _, NaN => NaN
  | _, _ => if lt a b then b else a
  end.

(** Truncation toward zero. *)
Definition Qtrunc (q : Q) : Z :=
  if Qle_bool 0 q then Qfloor q else Qceiling q.

(** [TimeClip]: the time value of [new Date(n)] for a number [n]. *)
Definition time_clip (a : number) : number :=
  match a with
  | Fin q =>
      if Qle_bool (Qabs q) (inject_Z 8640000000000000)
      then of_Z (Qtrunc q) else NaN
  | _ => NaN
  end.

End Num.

(* ================================================================== *)
(** ** JavaScript values, exceptions and the host's built-ins *)
(* ================================================================== *)

(** A value as [JSON.parse] and the code build them.  An object is its list
    of own properties in insertion order (first binding of a key wins on
    lookup; the operations below keep keys unique). *)
Inductive JsVal : Type :=
| JUndefined
| JNull
| JBool (b : bool)
| JNum (n : number)
| JStr (s : string)
| JArr (items : list JsVal)
| JObj (props : list (string * JsVal)).

Inductive exn : Type :=
| TypeError
| RangeError
| Error (msg : string).

(** The outcome of running a piece of code: a value, or a thrown exception. *)
Inductive result (A : Type) : Type :=
| Ok (a : A)
| Throw (e : exn).

Arguments Ok {A} a.
Arguments Throw {A} e.

Definition bind {A B : Type} (m : result A) (k : A -> result B) : result B :=
  match m with
  | Ok a => k a
  | Throw e => Throw e
  end.

Notation "'let*' x ':=' m 'in' k" := (bind m (fun x => k))
  (at level 10, x pattern, m at level 100, k at level 200).

(** [Array.prototype.map] / [forEach] with a callback that may throw: the
    elements are visited left to right and the first exception aborts. *)
Fixpoint mapM {A B : Type} (f : A -> result B) (l : list A) : result (list B) :=
  match l with
  | [] => Ok []
  | x :: l' =>
      let* y := f x in
      let* ys := mapM f l' in
      Ok (y :: ys)
  end.

Fixpoint foldM {A S : Type} (f : S -> A -> result S) (s : S) (l : list A) : result S :=
  match l with
  | [] => Ok s
  | x :: l' => let* s' := f s x in foldM f s' l'
  end.

(** What the code takes from the host and this development leaves open: the
    string grammars of [Number], [parseFloat] and [Date.parse], the printing
    of numbers and of calendar days ([toISOString] up to its [T]), and the
    day of the month and the month of a time value in the local time zone
    ([getDate], [getMonth]). *)
Class JsRuntime : Type := {
  string_to_number : string -> number;
  parse_float : string -> number;
  date_parse : string -> number;
  number_to_string : number -> string;
  iso_day : Q -> string;
  local_day : number -> number;
  local_month : number -> number
}.

Definition index_key (i : nat) : string :=
  NilEmpty.string_of_uint (Nat.to_uint i).

Fixpoint lookup_prop (k : string) (props : list (string * JsVal)) : option JsVal :=
  match props with
  | [] => None
  | (k', v) :: rest => if String.eqb k k' then Some v else lookup_prop k rest
  end.

(** [obj[k] = v] on an own property list: an existing binding is replaced in
    place, a new one goes last. *)
Fixpoint set_prop (k : string) (v : JsVal) (props : list (string * JsVal))
  : list (string * JsVal) :=
  match props with
  | [] => [(k, v)]
  | (k', v') :: rest =>
      if String.eqb k k' then (k, v) :: rest else (k', v') :: set_prop k v rest
  end.

Definition or_undefined (o : option JsVal) : JsVal :=
  match o with Some v => v | None => JUndefined end.

Definition string_at (s : string) (i : nat) : JsVal :=
  match String.get i s with
  | Some c => JStr (String c EmptyString)
  | None => JUndefined
  end.

(** [v.k] for a property name [k] that is not an array index. *)
Definition get (v : JsVal) (k : string) : result JsVal :=
  match v with
  | JUndefined | JNull => Throw TypeError
  | JObj props => Ok (or_undefined (lookup_prop k props))
  | JArr l =>
      Ok (if String.eqb k "length" then JNum (Num.of_Z (Z.of_nat (length l)))
          else JUndefined)
  | JStr s =>
      Ok (if String.eqb k "length" then JNum (Num.of_Z (Z.of_nat (String.length s)))
          else JUndefined)
  | JBool _ | JNum _ => Ok JUndefined
  end.

(** [v[i]] for a literal index [i]. *)
Definition get_index (v : JsVal) (i : nat) : result JsVal :=
  match v with
  | JUndefined | JNull => Throw TypeError
  | JArr l => Ok (or_undefined (nth_error l i))
  | JObj props => Ok (or_undefined (lookup_prop (index_key i) props))
  | JStr s => Ok (string_at s i)
  | JBool _ | JNum _ => Ok JUndefined
  end.

(** [k in v]: a [TypeError] unless [v] is an object. *)
Definition has_in (k : string) (v : JsVal) : result bool :=
  match v with
  | JObj props => Ok (bool_decide (is_Some (lookup_prop k props)))
  | JArr l => Ok (String.eqb k "length")
  | _ => Throw TypeError
  end.

Definition isArray (v : JsVal) : bool :=
  match v with JArr _ => true | _ => false end.

Definition is_string (v : JsVal) : bool :=
  match v with JStr _ => true | _ => false end.

Definition is_undefined (v : JsVal) : bool :=
  match v with JUndefined => true | _ => false end.

(** [v == null], that is [v === null || v === undefined]. *)
Definition is_nullish (v : JsVal) : bool :=
  match v with JUndefined | JNull => true | _ => false end.

(** ToBoolean. *)
Definition truthy (v : JsVal) : bool :=
  match v with
  | JUndefined | JNull => false
  | JBool b => b
  | JNum n =>
      match n with
      | NaN => false
      | Fin q => negb (Qeq_bool q 0)
      | _ => true
      end
  | JStr s => negb (String.eqb s "")
  | JArr _ | JObj _ => true
  end.

(** [a || b] and [a ?? b] on values already computed. *)
Definition js_or (a b : JsVal) : JsVal := if truthy a then a else b.
Definition js_coalesce (a b : JsVal) : JsVal := if is_nullish a then b else a.

Section Coercions.
Context `{JsRuntime}.

Definition join_with (sep : string) (parts : list string) : string :=
  match parts with
  | [] => ""
  | p :: rest => fold_left (fun acc q => acc +:+ sep +:+ q) rest p
  end.

(** ToString.  Plain objects print as [[object Object]]; an array joins its
    elements with commas, [null] and [undefined] elements printing empty. *)
Fixpoint js_to_string (v : JsVal) : string :=
  match v with
  | JUndefined => "undefined"
  | JNull => "null"
  | JBool true => "true"
  | JBool false => "false"
  | JNum n => number_to_string n
  | JStr s => s
  | JArr l =>
      join_with ","
        (map (fun e => if is_nullish e then "" else js_to_string e) l)
  | JObj _ => "[object Object]"
  end.

(** ToNumber (what [Number(v)] returns). *)
Definition to_number (v : JsVal) : number :=
  match v with
  | JUndefined => NaN
  | JNull => Num.zero
  | JBool true => Num.of_Z 1
  | JBool false => Num.zero
  | JNum n => n
  | JStr s => string_to_number s
  | JArr _ => string_to_number (js_to_string v)
  | JObj _ => NaN
  end.

(** [parseFloat(v)]. *)
Definition parseFloat (v : JsVal) : number := parse_float (js_to_string v).

(** [new Date(v).getTime()]: strings (and what prints as one) go through
    [Date.parse], everything else through ToNumber and TimeClip. *)
Definition date_getTime (v : JsVal) : number :=
  match v with
  | JStr s => date_parse s
  | JArr _ | JObj _ => date_parse (js_to_string v)
  | _ => Num.time_clip (to_number v)
  end.

(** [new Date(v).toISOString().split('T')[0]]: [toISOString] throws a
    [RangeError] on an invalid date. *)
Definition iso_date (v : JsVal) : result string :=
  match date_getTime v with
  | Fin q => Ok (iso_day q)
  | _ => Throw RangeError
  end.

End Coercions.

(* ================================================================== *)
(** ** utils/formatters.ts: [parseVNIndexData] *)
(* ================================================================== *)

Section Formatters.
Context `{JsRuntime}.

(** [s.padStart(2, '0')]. *)
Definition padStart2 (s : string) : string :=
  match String.length s with
  | O => "00"
  | S O => "0" +:+ s
  | _ => s
  end.

(** [formatDate]: day and month of the local date, two digits each. *)
Definition formatDate (timestamp : JsVal) : string :=
  let date := date_getTime timestamp in
  padStart2 (number_to_string (local_day date)) +:+ "/" +:+
  padStart2 (number_to_string (Num.add (local_month date) (Num.of_Z 1))).

Definition ms_threshold : number := Num.of_Z 10000000000.
Definition thousand : number := Num.of_Z 1000.

Definition mk_point (timestamp : JsVal) (close : number) : JsVal :=
  JObj [("timestamp", timestamp); ("close", JNum close)].

(** [if (typeof timestamp === 'number' && timestamp < 10000000000)
      timestamp *= 1000;] *)
Definition scale_number_ms (timestamp : JsVal) : JsVal :=
  match timestamp with
  | JNum n => if Num.lt n ms_threshold then JNum (Num.mul n thousand) else timestamp
  | _ => timestamp
  end.

(** [if (timestamp < 10000000000) timestamp *= 1000;] without the [typeof]
    guard (the columnar branch): both operators coerce with ToNumber. *)
Definition scale_any_ms (timestamp : JsVal) : JsVal :=
  if Num.lt (to_number timestamp) ms_threshold
  then JNum (Num.mul (to_number timestamp) thousand)
  else timestamp.

(** Scenario 1, one row:
    [let timestamp = item[0];
     const close = item.length >= 5 ? item[4] : item[1];] *)
Definition row_point (item : JsVal) : result JsVal :=
  let* timestamp := get_index item 0 in
  let* len := get item "length" in
  let* close :=
    (if Num.ge (to_number len) (Num.of_Z 5) then get_index item 4 else get_index item 1) in
  Ok (mk_point (scale_number_ms timestamp) (to_number close)).

Definition time_keys : list string :=
  ["date"; "time"; "t"; "Date"; "Time"; "dt"].

Definition value_keys : list string :=
  ["value"; "close"; "c"; "Close"; "Price"; "price"; "v"; "adClose"; "adjClose"].

(** [item.k1 || item.k2 || ... || item.kn]: the first truthy property, else
    the last one whatever it is. *)
Fixpoint or_chain (item : JsVal) (keys : list string) : result JsVal :=
  match keys with
  | [] => Ok JUndefined
  | [k] => get item k
  | k :: rest =>
      let* v := get item k in
      if truthy v then Ok v else or_chain item rest
  end.

(** Scenario 2, one record; [None] is the [null] that the final [filter]
    removes. *)
Definition object_point (item : JsVal) : result (option JsVal) :=
  let* time := or_chain item time_keys in
  let* close := or_chain item value_keys in
  if is_undefined time || is_undefined close then Ok None
  else
    let timestamp := if is_string time then JNum (date_getTime time) else time in
    Ok (Some (mk_point (scale_number_ms timestamp) (to_number close))).

(** Scenario 3, the element at index [i] of [data.t]. *)
Definition column_point (cs : list JsVal) (i : nat) (t : JsVal) : JsVal :=
  mk_point (scale_any_ms t) (to_number (or_undefined (nth_error cs i))).

(** The body of [parseVNIndexData] after the wrapper test. *)
Definition parse_shapes (data : JsVal) : result (list JsVal) :=
  match data with
  | JArr ((JArr _ :: _) as rows) => mapM row_point rows
  | JArr items =>
      let* points := mapM object_point items in
      Ok (omap id points)
  | _ =>
      let* t := get data "t" in
      match t with
      | JArr ts =>
          let* c := get data "c" in
          match c with
          | JArr cs => Ok (imap (column_point cs) ts)
          | _ => Ok []
          end
      | _ => Ok []
      end
  end.

(** [parseVNIndexData]: the wrapper test recurses into [data.data]; [fuel]
    bounds that recursion (one level is all a payload can take, see
    [parseVNIndexData_fuel_enough]). *)
Fixpoint parseVNIndexData_fuel (fuel : nat) (data : JsVal) : result (list JsVal) :=
  if negb (truthy data) then Ok []
  else
    let* inner := get data "data" in
    if truthy inner && isArray inner then
      match fuel with
      | O => Throw (Error "out of fuel")
      | S fuel' => parseVNIndexData_fuel fuel' inner
      end
    else parse_shapes data.

Definition parseVNIndexData (data : JsVal) : result (list JsVal) :=
  parseVNIndexData_fuel 1 data.

End Formatters.

(* ================================================================== *)
(** ** Built-in containers: [Array.prototype.sort] and [Map] *)
(* ================================================================== *)

Section Sort.
Context {A : Type} (before : A -> A -> bool).

(** [Array.prototype.sort(cmp)] is stable; [before y x] stands for
    [cmp(y, x) < 0].  An element is inserted after every element that sorts
    strictly before it and ahead of the others, so equal elements keep their
    input order.  For a consistent comparator this is the one result the
    language allows. *)
Fixpoint sort_insert (x : A) (l : list A) : list A :=
  match l with
  | [] => [x]
  | y :: l' => if before y x then y :: sort_insert x l' else x :: y :: l'
  end.

Definition stable_sort (l : list A) : list A := foldr sort_insert [] l.

End Sort.

(** SameValueZero, the equality of [Map] keys.  Arrays and objects are
    compared by identity: every array or object that reaches a [Map] below
    was parsed or built on its own, so two of them are never the same key. *)
Definition same_value_zero (a b : JsVal) : bool :=
  match a, b with
  | JUndefined, JUndefined | JNull, JNull => true
  | JBool x, JBool y => Bool.eqb x y
  | JNum x, JNum y => Num.same x y
  | JStr x, JStr y => String.eqb x y
  | _, _ => false
  end.

Section JsMap.
Context {V : Type}.

(** A [Map]: its entries in insertion order. *)
Fixpoint map_get (k : JsVal) (m : list (JsVal * V)) : option V :=
  match m with
  | [] => None
  | (k', v) :: rest => if same_value_zero k' k then Some v else map_get k rest
  end.

(** [m.set(k, v)]: an existing key keeps its place and takes the new value,
    a new key goes last. *)
Fixpoint map_set (k : JsVal) (v : V) (m : list (JsVal * V)) : list (JsVal * V) :=
  match m with
  | [] => [(k, v)]
  | (k', v') :: rest =>
      if same_value_zero k' k then (k', v) :: rest else (k', v') :: map_set k v rest
  end.

(** [if (!m.has(k)) m.set(k, init); const e = m.get(k); ... mutate e ...]:
    the entry of [k] (created from [init] when missing, then always the one
    just created) is replaced by [f] of it. *)
Fixpoint map_upsert (k : JsVal) (init : V) (f : V -> V) (m : list (JsVal * V))
  : list (JsVal * V) :=
  match m with
  | [] => [(k, f init)]
  | (k', v') :: rest =>
      if same_value_zero k' k then (k', f v') :: rest
      else (k', v') :: map_upsert k init f rest
  end.

Definition map_values (m : list (JsVal * V)) : list V := map snd m.

End JsMap.

(* ================================================================== *)
(** ** JSON *)
(* ================================================================== *)

Definition dquote : ascii := "034"%char.
Definition backslash : ascii := "092"%char.

Definition hex_digit (n : nat) : ascii :=
  nth n ["0"; "1"; "2"; "3"; "4"; "5"; "6"; "7"; "8"; "9";
         "a"; "b"; "c"; "d"; "e"; "f"]%char "0"%char.

(** One character of QuoteJSONString. *)
Definition escape_char (c : ascii) : list ascii :=
  let n := nat_of_ascii c in
  if Ascii.eqb c dquote then [backslash; dquote]
  else if Ascii.eqb c backslash then [backslash; backslash]
  else if Nat.eqb n 8 then [backslash; "b"%char]
  else if Nat.eqb n 12 then [backslash; "f"%char]
  else if Nat.eqb n 10 then [backslash; "n"%char]
  else if Nat.eqb n 13 then [backslash; "r"%char]
  else if Nat.eqb n 9 then [backslash; "t"%char]
  else if Nat.ltb n 32 then
    [backslash; "u"%char; "0"%char; "0"%char; hex_digit (n / 16); hex_digit (n mod 16)]
  else [c].

Definition json_quote_chars (s : list ascii) : list ascii :=
  dquote :: concat (map escape_char s) ++ [dquote].

(** QuoteJSONString. *)
Definition json_quote (s : string) : string :=
  string_of_list_ascii (json_quote_chars (list_ascii_of_string s)).

Section Json.
Context `{JsRuntime}.

(** [JSON.stringify(v, allow)] where [allow] is the replacer array when one
    is given: it then names the only properties serialised, of the value and
    of every object nested in it, in its own order.  [None] is the
    [undefined] that [JSON.stringify] returns for a value it leaves out. *)
Fixpoint json_stringify (allow : option (list string)) (v : JsVal) : option string :=
  match v with
  | JUndefined => None
  | JNull => Some "null"
  | JBool true => Some "true"
  | JBool false => Some "false"
  | JNum n => Some (if Num.isFinite n then number_to_string n else "null")
  | JStr s => Some (json_quote s)
  | JArr l =>
      Some ("[" +:+
            join_with ","
              (map (fun e => default "null" (json_stringify allow e)) l)
            +:+ "]")
  | JObj props =>
      let member (k : string) (pv : option string) : option string :=
        match pv with
        | Some s => Some (json_quote k +:+ ":" +:+ s)
        | None => None
        end in
      let members :=
        match allow with
        | Some keys =>
            omap (fun k =>
                    (fix find (ps : list (string * JsVal)) : option string :=
                       match ps with
                       | [] => None
                       | (k', pv) :: rest =>
                           if String.eqb k k'
                           then member k (json_stringify allow pv)
                           else find rest
                       end) props)
                 keys
        | None =>
            (fix each (ps : list (string * JsVal)) : list string :=
               match ps with
               | [] => []
               | (k, pv) :: rest =>
                   match member k (json_stringify allow pv) with
                   | Some s => s :: each rest
                   | None => each rest
                   end
               end) props
        end in
      Some ("{" +:+ join_with "," members +:+ "}")
  end.

End Json.

(** [JSON.parse(JSON.stringify(v))] for a value that is serialised: numbers
    that are not finite and array elements that are left out come back as
    [null], properties that are left out are gone. *)
Fixpoint json_value (v : JsVal) : option JsVal :=
  match v with
  | JUndefined => None
  | JNum n => Some (if Num.isFinite n then JNum n else JNull)
  | JArr l => Some (JArr (map (fun e => default JNull (json_value e)) l))
  | JObj props =>
      Some (JObj
              ((fix each (ps : list (string * JsVal)) : list (string * JsVal) :=
                  match ps with
                  | [] => []
                  | (k, pv) :: rest =>
                      match json_value pv with
                      | Some pv' => (k, pv') :: each rest
                      | None => each rest
                      end
                  end) props))
  | _ => Some v
  end.

(* ================================================================== *)
(** ** types.ts and the world around services/api.ts *)
(* ================================================================== *)

Record FilterParams : Type := {
  t : number;
  floor : string;
  min_adClose : number;
  max_adClose : number;
  min_MA20 : number;
  max_MA20 : number;
  fromDate : option string;
  toDate : option string;
  breadthUrl : option string
}.

(** What [localStorage] holds under a key: text that [JSON.parse] reads as a
    value, or text it rejects (the empty string included). *)
Inductive stored : Type :=
| Corrupt
| Json (v : JsVal).

Abbreviation storage := (gmap string stored).

(** A request as [fetchWithFallback] receives it (the URL without its
    cache-busting parameter), and the two ways it is sent. *)
Inductive request : Type :=
| IndexSeries (url : string)
| BreadthSeries (baseUrl : string) (params : FilterParams) (latest : bool).

Inductive route : Type :=
| Direct
| Proxy.

(** The network: the parsed body each attempt answers with, or [None] when
    the attempt fails (no connection, a status that is not ok, a body that is
    not JSON). *)
Record Network : Type := {
  direct : request -> option JsVal;
  proxy : request -> option JsVal
}.

(** What a fetcher leaves behind: the value its promise settles with, the
    contents of [localStorage], and the requests it sent. *)
Record Outcome (A : Type) : Type := {
  settled : result A;
  store : storage;
  sent : list (request * route)
}.

Arguments settled {A} o.
Arguments store {A} o.
Arguments sent {A} o.

Definition prop_of (props : list (string * JsVal)) (k : string) : JsVal :=
  or_undefined (lookup_prop k props).

(* ================================================================== *)
(** ** services/api.ts *)
(* ================================================================== *)

Section Api.
Context `{JsRuntime}.

Definition DEFAULT_BREADTH_URL : string := "https://api.alphastock.vn/api/stock/avg".
Definition DEFAULT_VNINDEX_URL : string :=
  "https://api.alphastock.vn/charts_json/vnindex_5y.json".
Definition CACHE_PREFIX : string := "MBA_CACHE_V5_".
Definition VNINDEX_TTL : number := Num.of_Z (4 * 60 * 60 * 1000).
Definition BREADTH_MIN_FRESH : number := Num.of_Z (5 * 60 * 1000).

(** *** Cache helpers *)

(** [Object.keys(params)]. *)
Definition own_keys (params : list (string * JsVal)) : list string :=
  remove_dups (map fst params).

(** [Object.keys(params).sort()]: the default order compares strings code
    unit by code unit. *)
Definition sorted_keys (params : list (string * JsVal)) : list string :=
  stable_sort String.ltb (own_keys params).

Definition getCacheKey (prefix : string) (params : list (string * JsVal)) : string :=
  let paramString :=
    default "undefined" (json_stringify (Some (sorted_keys params)) (JObj params)) in
  CACHE_PREFIX +:+ prefix +:+ "_" +:+ paramString.

(** [saveToCache] at clock reading [now]; [quota_ok] tells whether
    [localStorage.setItem] goes through (the [catch] only warns). *)
Definition saveToCache (quota_ok : bool) (st : storage) (now : Z)
    (key : string) (data : JsVal) : storage :=
  if quota_ok then
    match json_value (JObj [("timestamp", JNum (Num.of_Z now)); ("data", data)]) with
    | Some payload => <[key := Json payload]> st
    | None => st
    end
  else st.

(** The body of [loadFromCache]'s [try]. *)
Definition loadFromCache_body (st : storage) (now : Z) (key : string)
    (ttl : option number) : result (option (JsVal * number)) :=
  match st !! key with
  | None | Some Corrupt => Ok None
  | Some (Json payload) =>
      if negb (truthy payload) then Ok None
      else
        let* data := get payload "data" in
        if negb (truthy data) then Ok None
        else
          let* written := get payload "timestamp" in
          let age := Num.sub (Num.of_Z now) (to_number written) in
          match ttl with
          | Some limit => if Num.gt age limit then Ok None else Ok (Some (data, age))
          | None => Ok (Some (data, age))
          end
  end.

(** [loadFromCache(key, ttl)] at clock reading [now]: the pair is
    [{ data, age }], [None] is [null]. *)
Definition loadFromCache (st : storage) (now : Z) (key : string)
    (ttl : option number) : option (JsVal * number) :=
  match loadFromCache_body st now key ttl with
  | Ok r => r
  | Throw _ => None
  end.

(** *** Network helper *)

Definition fetchWithFallback (net : Network) (req : request)
  : result JsVal * list (request * route) :=
  match direct net req with
  | Some body => (Ok body, [(req, Direct)])
  | None =>
      match proxy net req with
      | Some body => (Ok body, [(req, Direct); (req, Proxy)])
      | None => (Throw (Error "Proxy fetch failed"), [(req, Direct); (req, Proxy)])
      end
  end.

(** *** [fetchVNIndexData]

    [now] is the clock when the function starts, [later] the clock once the
    network has answered. *)

(** [url || DEFAULT_VNINDEX_URL]. *)
Definition vnindex_target (url : option string) : string :=
  match url with
  | Some u => if String.eqb u "" then DEFAULT_VNINDEX_URL else u
  | None => DEFAULT_VNINDEX_URL
  end.

(** The [try] block of [fetchVNIndexData], given what [fetchWithFallback]
    settled with: the parsed series and the storage it leaves. *)
Definition vnindex_try (fetched : result JsVal) (quota_ok : bool) (st : storage)
    (later : Z) (cacheKey : string) : result (JsVal * storage) :=
  let* data := fetched in
  if negb (truthy data) then Throw (Error "Empty data received")
  else
    let* parsed := parseVNIndexData data in
    let st' :=
      if (0 <? length parsed)%nat
      then saveToCache quota_ok st later cacheKey (JArr parsed)
      else st in
    Ok (JArr parsed, st').

(** The [catch] block: the stale entry if there is one, else [[]]. *)
Definition vnindex_fallback (st : storage) (later : Z) (cacheKey : string) : JsVal :=
  match loadFromCache st later cacheKey None with
  | Some (data, _) => data
  | None => JArr []
  end.

Definition fetchVNIndexData (net : Network) (quota_ok : bool) (st : storage)
    (now later : Z) (url : option string) : Outcome JsVal :=
  let targetUrl := vnindex_target url in
  let cacheKey := getCacheKey "VNINDEX" [("url", JStr targetUrl)] in
  match loadFromCache st now cacheKey (Some VNINDEX_TTL) with
  | Some (data, _) => {| settled := Ok data; store := st; sent := [] |}
  | None =>
      let '(fetched, log) := fetchWithFallback net (IndexSeries targetUrl) in
      match vnindex_try fetched quota_ok st later cacheKey with
      | Ok (parsed, st') => {| settled := Ok parsed; store := st'; sent := log |}
      | Throw _ =>
          {| settled := Ok (vnindex_fallback st later cacheKey);
             store := st; sent := log |}
      end
  end.

(** *** The breadth mappers *)

Definition hundred : number := Num.of_Z 100.

(** [const calc = (c: number) => total > 0 ? (c / total) * 100 : 0;] *)
Definition calc (total c : number) : number :=
  if Num.gt total Num.zero then Num.mul (Num.div c total) hundred else Num.zero.

(** [item.k1 ?? item.k2 ?? ... ?? 0]. *)
Fixpoint coalesce_chain (item : JsVal) (keys : list string) : result JsVal :=
  match keys with
  | [] => Ok (JNum Num.zero)
  | k :: rest =>
      let* v := get item k in
      if is_nullish v then coalesce_chain item rest else Ok v
  end.

Definition mapBreadthData_item (item : JsVal) : result JsVal :=
  let* rawDate := or_chain item ["date"; "Date"; "time"; "t"] in
  let timestamp :=
    scale_number_ms (if is_string rawDate then JNum (date_getTime rawDate) else rawDate) in
  let* total_raw := get item "total" in
  let total := to_number (js_or total_raw (JNum Num.zero)) in
  let* v20 := coalesce_chain item ["ma20"; "avg_ma20"; "pct_ma20"] in
  let* v50 := coalesce_chain item ["ma50"; "avg_ma50"; "pct_ma50"] in
  let* v200 := coalesce_chain item ["ma200"; "avg_ma200"; "pct_ma200"] in
  let c20 := to_number v20 in
  let c50 := to_number v50 in
  let c200 := to_number v200 in
  let* date := iso_date timestamp in
  Ok (JObj [("date", JStr date);
            ("timestamp", timestamp);
            ("total", JNum total);
            ("count20", JNum c20); ("count50", JNum c50); ("count200", JNum c200);
            ("ma20", JNum (calc total c20));
            ("ma50", JNum (calc total c50));
            ("ma200", JNum (calc total c200))]).

(** [d.timestamp], for a value [d] that is neither [null] nor [undefined]. *)
Definition timestamp_of (d : JsVal) : JsVal :=
  match get d "timestamp" with
  | Ok ts => ts
  | Throw _ => JUndefined
  end.

Definition mapBreadthData (data : list JsVal) : result (list JsVal) :=
  let* mapped := mapM mapBreadthData_item data in
  Ok (List.filter (fun d => Num.gt (to_number (timestamp_of d)) Num.zero) mapped).

(** The callback of [mergeSeries]'s [forEach]. *)
Definition mergeSeries_item (countProp : string)
    (merged : list (JsVal * list (string * JsVal))) (item : JsVal)
  : result (list (JsVal * list (string * JsVal))) :=
  let* date := get item "date" in
  let* total := get item "total" in
  let* value := get item "value" in
  Ok (map_upsert date [("date", date); ("total", JNum Num.zero)]
        (fun entry =>
           let entry' :=
             if truthy total
             then set_prop "total"
                    (JNum (Num.max (to_number (prop_of entry "total")) (to_number total)))
                    entry
             else entry in
           set_prop countProp (JNum (parseFloat value)) entry')
        merged).

Definition mergeSeries (dataObj : JsVal) (key countProp : string)
    (merged : list (JsVal * list (string * JsVal)))
  : result (list (JsVal * list (string * JsVal))) :=
  let* series := get dataObj key in
  match series with
  | JArr items => foldM (mergeSeries_item countProp) merged items
  | _ => Ok merged
  end.

(** The callback of the final [map] of [mapComplexBreadthData]. *)
Definition complex_point (item : list (string * JsVal)) : JsVal :=
  let t := js_or (prop_of item "total") (JNum Num.zero) in
  let count k := js_or (prop_of item k) (JNum Num.zero) in
  let ts := date_getTime (prop_of item "date") in
  JObj [("date", prop_of item "date");
        ("timestamp", JNum (if Num.isNaN ts then Num.zero else ts));
        ("total", t);
        ("count20", count "count20");
        ("count50", count "count50");
        ("count200", count "count200");
        ("ma20", JNum (calc (to_number t) (to_number (count "count20"))));
        ("ma50", JNum (calc (to_number t) (to_number (count "count50"))));
        ("ma200", JNum (calc (to_number t) (to_number (count "count200"))))].

Definition mapComplexBreadthData (dataObj : JsVal) : result (list JsVal) :=
  let* m1 := mergeSeries dataObj "ma20" "count20" [] in
  let* m2 := mergeSeries dataObj "ma50" "count50" m1 in
  let* m3 := mergeSeries dataObj "ma200" "count200" m2 in
  Ok (map complex_point (map_values m3)).

(** *** [fetchBreadthData] *)

(** [processRaw], the local helper of [fetchBreadthData]. *)
Definition processRaw (data : JsVal) : result (list JsVal) :=
  if negb (truthy data) then Ok []
  else
    let* inner := get data "data" in
    let* raw :=
      match inner with
      | JObj _ =>
          let* points := mapComplexBreadthData inner in
          Ok (JArr points)
      | _ => Ok (if isArray data then data else js_or inner (JArr []))
      end in
    match raw with
    | JArr [] => mapBreadthData []
    | JArr ((first :: _) as items) =>
        let* mapped := has_in "ma20" first in
        if mapped then Ok items else mapBreadthData items
    | _ => Ok []
    end.

(** The callback [p => mergedMap.set(p.timestamp, p)]. *)
Definition merge_point (m : list (JsVal * JsVal)) (p : JsVal)
  : result (list (JsVal * JsVal)) :=
  let* ts := get p "timestamp" in
  Ok (map_set ts p m).

(** [(a, b) => a.timestamp - b.timestamp] is negative. *)
Definition timestamp_before (a b : JsVal) : bool :=
  Num.lt (Num.sub (to_number (timestamp_of a)) (to_number (timestamp_of b))) Num.zero.

Definition filterIdentity (params : FilterParams) : list (string * JsVal) :=
  [("floor", JStr (floor params));
   ("min_ad", JNum (min_adClose params));
   ("max_ad", JNum (max_adClose params));
   ("min_ma", JNum (min_MA20 params));
   ("max_ma", JNum (max_MA20 params));
   ("breadthUrl",
    JStr (match breadthUrl params with
          | Some u => if String.eqb u "" then DEFAULT_BREADTH_URL else u
          | None => DEFAULT_BREADTH_URL
          end))].

(** The requests of the two queries in the order they go out.  Each call of
    [fetchWithFallback] starts its direct request at once, so both direct
    requests come first; the proxy request of a query follows the failure of
    its direct request, and when both queries fall back the order of the two
    proxy requests is the network's (the latest query's is put first). *)
Definition in_flight (log1 log2 : list (request * route)) : list (request * route) :=
  take 1 log1 ++ take 1 log2 ++ drop 1 log1 ++ drop 1 log2.

(** [fetchWithFallback(url).catch(() => [])]. *)
Definition fetch_or_empty (net : Network) (req : request)
  : JsVal * list (request * route) :=
  match fetchWithFallback net req with
  | (Ok body, log) => (body, log)
  | (Throw _, log) => (JArr [], log)
  end.

(** [params.breadthUrl || DEFAULT_BREADTH_URL]. *)
Definition breadth_base (params : FilterParams) : string :=
  match breadthUrl params with
  | Some u => if String.eqb u "" then DEFAULT_BREADTH_URL else u
  | None => DEFAULT_BREADTH_URL
  end.

(** [cachedData], [isCacheValid] and [cacheAge] after the cache lookup. *)
Definition breadth_cache (st : storage) (now : Z) (cacheKey : string)
  : list JsVal * bool * number :=
  match loadFromCache st now cacheKey None with
  | Some (JArr (p :: ps), age) => (p :: ps, true, age)
  | _ => ([], false, Num.of_Z 999999999)
  end.

(** The three [forEach] loops over [mergedMap], then the sort. *)
Definition merge_fetched (shouldFetchHistory isCacheValid : bool)
    (cachedData historyPoints latestPoints : list JsVal) : result (list JsVal) :=
  let* m0 :=
    (if negb shouldFetchHistory && isCacheValid
     then foldM merge_point [] cachedData else Ok []) in
  let* m1 :=
    (if shouldFetchHistory then foldM merge_point m0 historyPoints else Ok m0) in
  let* m2 := foldM merge_point m1 latestPoints in
  Ok (stable_sort timestamp_before (map_values m2)).

(** The [try] block of [fetchBreadthData] after [Promise.all]. *)
Definition breadth_try (latestRaw historyRaw : JsVal)
    (shouldFetchHistory isCacheValid : bool) (cachedData : list JsVal)
    (quota_ok : bool) (st : storage) (later : Z) (cacheKey : string)
  : result (list JsVal * storage) :=
  let* latestPoints := processRaw latestRaw in
  let* historyPoints := processRaw historyRaw in
  let* finalResult :=
    merge_fetched shouldFetchHistory isCacheValid cachedData historyPoints latestPoints in
  let st' :=
    if (0 <? length finalResult)%nat
    then saveToCache quota_ok st later cacheKey (JArr finalResult)
    else st in
  Ok (finalResult, st').

Definition fetchBreadthData (net : Network) (quota_ok : bool) (st : storage)
    (now later : Z) (params : FilterParams) : Outcome (list JsVal) :=
  let cacheKey := getCacheKey "BREADTH" (filterIdentity params) in
  let '(cachedData, isCacheValid, cacheAge) := breadth_cache st now cacheKey in
  if isCacheValid && Num.lt cacheAge BREADTH_MIN_FRESH
  then {| settled := Ok cachedData; store := st; sent := [] |}
  else
    let baseUrl := breadth_base params in
    let '(latestRaw, log1) := fetch_or_empty net (BreadthSeries baseUrl params true) in
    let shouldFetchHistory := negb isCacheValid || (length cachedData <? 50)%nat in
    let '(historyRaw, log2) :=
      if shouldFetchHistory
      then fetch_or_empty net (BreadthSeries baseUrl params false)
      else (JArr [], []) in
    match breadth_try latestRaw historyRaw shouldFetchHistory isCacheValid cachedData
            quota_ok st later cacheKey with
    | Ok (finalResult, st') =>
        {| settled := Ok finalResult; store := st'; sent := in_flight log1 log2 |}
    | Throw _ =>
        {| settled := Ok (if isCacheValid then cachedData else []);
           store := st; sent := in_flight log1 log2 |}
    end.

End Api.

(* ================================================================== *)
(** ** App.tsx: the merge engine ([chartData]) *)
(* ================================================================== *)

Inductive TimeRange : Type := R1M | R3M | R6M | R1Y | R3Y | R5Y | R7Y.

Section App.
Context `{JsRuntime}.

(** [ranges[range]]. *)
Definition range_days (range : TimeRange) : Z :=
  match range with
  | R1M => 30 | R3M => 90 | R6M => 180 | R1Y => 365
  | R3Y => 1095 | R5Y => 1825 | R7Y => 2555
  end.

Definition getDateKey (ts : JsVal) : result string := iso_date ts.

(** The record [getOrCreate] builds for a day it has not seen. *)
Definition new_record (ts : JsVal) (key : string) : list (string * JsVal) :=
  [("date", JStr key);
   ("timestamp", ts);
   ("formattedDate", JStr (formatDate ts));
   ("vnIndex", JUndefined);
   ("capVal", JUndefined);
   ("sectorVal", JUndefined)].

(** [Object.assign(item, b)] for a plain object [b]: its properties are
    written onto [item] in order. *)
Definition object_assign (item : list (string * JsVal)) (b : JsVal)
  : list (string * JsVal) :=
  match b with
  | JObj props => fold_left (fun acc kv => set_prop (fst kv) (snd kv) acc) props item
  | _ => item
  end.

(** The callback of [breadthData.forEach]. *)
Definition merge_breadth (dataMap : list (JsVal * list (string * JsVal))) (b : JsVal)
  : result (list (JsVal * list (string * JsVal))) :=
  let* ts := get b "timestamp" in
  let* key := getDateKey ts in
  Ok (map_upsert (JStr key) (new_record ts key) (fun item => object_assign item b) dataMap).

(** The callback of [vnIndexFixedData.forEach], [capData.forEach] and
    [sectorData.forEach], which differ in the field they write. *)
Definition merge_index (field : string)
    (dataMap : list (JsVal * list (string * JsVal))) (v : JsVal)
  : result (list (JsVal * list (string * JsVal))) :=
  let* ts := get v "timestamp" in
  let* key := getDateKey ts in
  let* close := get v "close" in
  Ok (map_upsert (JStr key) (new_record ts key)
        (fun item => if negb (is_nullish close) then set_prop field close item else item)
        dataMap).

(** Step 1 of [chartData]: the four [forEach] loops over [dataMap]. *)
Definition merge_sources (breadthData vnIndexFixedData capData sectorData : list JsVal)
  : result (list (JsVal * list (string * JsVal))) :=
  let* m1 := foldM merge_breadth [] breadthData in
  let* m2 := foldM (merge_index "vnIndex") m1 vnIndexFixedData in
  let* m3 := foldM (merge_index "capVal") m2 capData in
  foldM (merge_index "sectorVal") m3 sectorData.

Definition record_timestamp (d : JsVal) : number := to_number (timestamp_of d).

(** [chartData] at clock reading [now]. *)
Definition chartData (now : Z) (range : TimeRange) (params : FilterParams)
    (breadthData vnIndexFixedData capData sectorData : list JsVal)
  : result (list JsVal) :=
  match breadthData, vnIndexFixedData with
  | [], [] => Ok []
  | _, _ =>
      let* dataMap := merge_sources breadthData vnIndexFixedData capData sectorData in
      let sorted := stable_sort timestamp_before (map JObj (map_values dataMap)) in
      let given (d : option string) : bool :=
        match d with Some s => negb (String.eqb s "") | None => false end in
      if given (fromDate params) || given (toDate params) then
        let from :=
          match fromDate params with
          | Some s => if String.eqb s "" then Num.zero else date_getTime (JStr s)
          | None => Num.zero
          end in
        let to :=
          match toDate params with
          | Some s =>
              if String.eqb s "" then PInf
              else Num.add (date_getTime (JStr s)) (Num.of_Z 86400000)
          | None => PInf
          end in
        Ok (List.filter
              (fun d => Num.ge (record_timestamp d) from && Num.lt (record_timestamp d) to)
              sorted)
      else
        let cutoff := Num.sub (Num.of_Z now) (Num.of_Z (range_days range * 86400000)) in
        Ok (List.filter (fun d => Num.ge (record_timestamp d) cutoff) sorted)
  end.

End App.

(* ================================================================== *)
(** ** App.tsx: [crossovers] *)
(* ================================================================== *)

Section Crossovers.
Context `{JsRuntime}.

(** ToPrimitive with hint number: arrays and plain objects print. *)
Definition to_primitive (v : JsVal) : JsVal :=
  match v with
  | JArr _ | JObj _ => JStr (js_to_string v)
  | _ => v
  end.

(** The abstract relational comparison [a < b]: two strings compare code
    unit by code unit, everything else as numbers; [None] is the
    [undefined] a [NaN] gives. *)
Definition number_less (x y : number) : option bool :=
  if Num.isNaN x || Num.isNaN y then None else Some (Num.lt x y).

Definition js_less (a b : JsVal) : option bool :=
  match to_primitive a, to_primitive b with
  | JStr x, JStr y => Some (String.ltb x y)
  | pa, pb => number_less (to_number pa) (to_number pb)
  end.

(** [a < b], [a > b], [a <= b] and [a >= b]. *)
Definition js_lt (a b : JsVal) : bool :=
  match js_less a b with Some r => r | None => false end.
Definition js_gt (a b : JsVal) : bool := js_lt b a.
Definition js_le (a b : JsVal) : bool :=
  match js_less b a with Some false => true | _ => false end.
Definition js_ge (a b : JsVal) : bool :=
  match js_less a b with Some false => true | _ => false end.

Definition cross_point (curr : JsVal) (type : string) : result (option JsVal) :=
  let* x := get curr "timestamp" in
  Ok (Some (JObj [("x", x); ("type", JStr type)])).

(** One of the two blocks of the loop body, for the pair of lines [fast]
    and [slow]: the event it pushes, if any.  The four [!== undefined]
    tests short-circuit. *)
Definition cross_event (fast slow : string) (prev curr : JsVal) : result (option JsVal) :=
  let* pf := get prev fast in
  if is_undefined pf then Ok None else
  let* ps := get prev slow in
  if is_undefined ps then Ok None else
  let* cf := get curr fast in
  if is_undefined cf then Ok None else
  let* cs := get curr slow in
  if is_undefined cs then Ok None else
  if js_le pf ps && js_gt cf cs then cross_point curr "bull"
  else if js_ge pf ps && js_lt cf cs then cross_point curr "bear"
  else Ok None.

Definition push_event (acc : list JsVal) (e : option JsVal) : list JsVal :=
  match e with
  | Some evt => acc ++ [evt]
  | None => acc
  end.

(** The body of the [for] loop at index [i]. *)
Definition crossovers_step (chartData : list JsVal) (acc : list JsVal * list JsVal)
    (i : nat) : result (list JsVal * list JsVal) :=
  let prev := or_undefined (nth_error chartData (i - 1)) in
  let curr := or_undefined (nth_error chartData i) in
  let* e1 := cross_event "ma20" "ma50" prev curr in
  let* e2 := cross_event "ma50" "ma200" prev curr in
  Ok (push_event acc.1 e1, push_event acc.2 e2).

(** [crossovers]: the pair is [{ cross20_50, cross50_200 }]. *)
Definition crossovers (chartData : list JsVal) : result (list JsVal * list JsVal) :=
  if (length chartData <? 2)%nat then Ok ([], [])
  else foldM (crossovers_step chartData) ([], []) (seq 1 (length chartData - 1)).

End Crossovers.

(* ================================================================== *)
(** ** services/ai.ts: the window of [prepareAnalysisContext] *)
(* ================================================================== *)

Inductive AnalysisRange : Type := A1M | A3M | A6M | A1Y | AALL.

(** The [switch] on [range]. *)
Definition sliceCount (range : AnalysisRange) (data : list JsVal) : Z :=
  match range with
  | A1M => 22
  | A3M => 65
  | A6M => 130
  | A1Y => 250
  | AALL => Z.of_nat (length data)
  end.

(** The guard and the slice that open [prepareAnalysisContext]:
    [recentData], or the error thrown for fewer than five rows. *)
Definition recentData (range : AnalysisRange) (data : list JsVal) : result (list JsVal) :=
  if (length data <? 5)%nat then
    Throw (Error
      "Dữ liệu không đủ để phân tích. Vui lòng đảm bảo biểu đồ đã tải dữ liệu.")
  else
    let startIndex := Z.max 0 (Z.of_nat (length data) - sliceCount range data) in
    Ok (drop (Z.to_nat startIndex) data).

(* ================================================================== *)
(** ** components/AiInsightPanel.tsx: the saved session *)
(* ================================================================== *)

Module AiInsightPanel.

Definition MODELS : list (string * string) :=
  [("gemini-3-pro-preview", "Gemini 3 Pro");
   ("gemini-3-flash-preview", "Gemini 3 Flash");
   ("gemini-2.5-pro", "Gemini 2.5 Pro")].

Definition STORAGE_KEY : string := "MBA_AI_SESSION".

(** The four state variables that are saved. *)
Record State : Type := {
  analysis : JsVal;
  chatMessages : JsVal;
  range : JsVal;
  model : JsVal
}.

(** Their initial values. *)
Definition initial : State :=
  {| analysis := JNull;
     chatMessages := JArr [];
     range := JStr "3M";
     model := JStr "gemini-3-pro-preview" |}.

(** [MODELS.some(m => m.id === v)]. *)
Definition known_model (v : JsVal) : bool :=
  match v with
  | JStr s => existsb (fun m => String.eqb m.1 s) MODELS
  | _ => false
  end.

(** The setters the load effect calls on the parsed session. *)
Definition restore (parsed : JsVal) (s : State) : result State :=
  let* a := get parsed "analysis" in
  let* c := get parsed "chatMessages" in
  let* r := get parsed "range" in
  let* m := get parsed "model" in
  Ok {| analysis := if truthy a then a else analysis s;
        chatMessages := if truthy c then c else chatMessages s;
        range := if truthy r then r else range s;
        model := if truthy m && known_model m then m else model s |}.

(** The effect that runs on mount: the state after it. *)
Definition load_effect (st : storage) (s : State) : State :=
  match st !! STORAGE_KEY with
  | Some (Json parsed) =>
      match restore parsed s with
      | Ok s' => s'
      | Throw _ => s
      end
  | Some Corrupt | None => s
  end.

(** The effect that runs when one of the four changes, at clock reading
    [now]: the store after it.  [setItem] is not guarded here, so a write
    that fails throws. *)
Definition save_effect (quota_ok : bool) (st : storage) (now : Z) (s : State)
  : result storage :=
  if truthy (analysis s) then
    if quota_ok then
      match json_value (JObj [("analysis", analysis s);
                             ("chatMessages", chatMessages s);
                             ("range", range s);
                             ("model", model s);
                             ("timestamp", JNum (Num.of_Z now))]) with
      | Some saved => Ok (<[STORAGE_KEY := Json saved]> st)
      | None => Ok st
      end
    else Throw (Error "QuotaExceededError")
  else Ok (delete STORAGE_KEY st).

(** [handleClearHistory]. *)
Definition handleClearHistory (st : storage) (s : State) : State * storage :=
  ({| analysis := JNull; chatMessages := JArr []; range := range s; model := model s |},
   delete STORAGE_KEY st).

End AiInsightPanel.

(* ================================================================== *)
(** ** services/ai.ts: the sector ranking of [prepareAnalysisContext] *)
(* ================================================================== *)

Section SectorPerformance.
Context `{JsRuntime}.

(** [secData.find(d => d.timestamp >= startTs)]. *)
Fixpoint find_start (startTs : JsVal) (secData : list JsVal) : result (option JsVal) :=
  match secData with
  | [] => Ok None
  | d :: rest =>
      let* ts := get d "timestamp" in
      if js_ge ts startTs then Ok (Some d) else find_start startTs rest
  end.

(** [((endPoint.close - startPoint.close) / startPoint.close) * 100]. *)
Definition pctChange (startPoint endPoint : JsVal) : result number :=
  let* ec := get endPoint "close" in
  let* sc := get startPoint "close" in
  Ok (Num.mul (Num.div (Num.rsub (to_number ec) (to_number sc)) (to_number sc)) hundred).

(** The body of the callback once [fetchVNIndexData] has answered with
    [secData], for the sector [{ code, name }]: the entry
    [{ name, code, change }], or [None] for [null]. *)
Definition sector_entry (startTs : JsVal) (name code : string) (secData : JsVal)
  : result (option JsVal) :=
  if negb (truthy secData) then Ok None
  else
    match secData with
    | JArr [] => Ok None
    | JArr points =>
        let* startPoint := find_start startTs points in
        let endPoint := or_undefined (last points) in
        match startPoint with
        | Some sp =>
            if truthy sp && truthy endPoint then
              let* ets := get endPoint "timestamp" in
              if js_ge ets startTs then
                let* change := pctChange sp endPoint in
                Ok (Some (JObj [("name", JStr name); ("code", JStr code);
                                ("change", JNum change)]))
              else Ok None
            else Ok None
        | None => Ok None
        end
    | _ =>
        let* len := get secData "length" in
        match len with
        | JNum n => if Num.eqb n Num.zero then Ok None else Throw TypeError
        | _ => Throw TypeError
        end
    end.

(** [s.change], for an entry [s]. *)
Definition change_of (s : JsVal) : number :=
  match get s "change" with
  | Ok c => to_number c
  | Throw _ => NaN
  end.

(** [(a, b) => b.change - a.change] is negative. *)
Definition change_before (a b : JsVal) : bool :=
  Num.lt (Num.sub (change_of b) (change_of a)) Num.zero.

(** [sectorResults] after the sort, given what each sector's fetch answered
    with: [Promise.all], the filter on [null], the sort. *)
Definition sectorResults (startTs : JsVal) (fetched : list (string * string * JsVal))
  : result (list JsVal) :=
  let* entries :=
    mapM (fun sec => sector_entry startTs sec.1.1 sec.1.2 sec.2) fetched in
  Ok (stable_sort change_before (omap id entries)).

End SectorPerformance.

(* ================================================================== *)
(** ** App.tsx: [handleRangeChange] *)
(* ================================================================== *)

(** The range and the parameters after a click on a range button: the
    custom dates are reset. *)
Definition handleRangeChange (r : TimeRange) (p : FilterParams) : TimeRange * FilterParams :=
  (r, {| t := t p; floor := floor p;
         min_adClose := min_adClose p; max_adClose := max_adClose p;
         min_MA20 := min_MA20 p; max_MA20 := max_MA20 p;
         fromDate := None; toDate := None;
         breadthUrl := breadthUrl p |}).

(* ================================================================== *)
(** ** A reference host, for running the definitions on examples *)
(* ================================================================== *)

(** The built-ins restricted to the plainest inputs: decimal integers for
    [Number] and [parseFloat], [YYYY-MM-DD] for [Date.parse] (read as UTC
    midnight, as the language does for the date-only form), and UTC as the
    local time zone.  Every other string is rejected ([NaN]).  The theorems
    below hold for every host; this one only serves to evaluate examples. *)
Module Reference.

Definition digit_value (c : ascii) : option Z :=
  let n := nat_of_ascii c in
  if (48 <=? n)%nat && (n <=? 57)%nat then Some (Z.of_nat (n - 48)) else None.

Fixpoint digits_value (acc : Z) (s : list ascii) : option Z :=
  match s with
  | [] => Some acc
  | c :: rest =>
      match digit_value c with
      | Some d => digits_value (10 * acc + d) rest
      | None => None
      end
  end.

Definition unsigned_value (s : list ascii) : option Z :=
  match s with
  | [] => None
  | _ => digits_value 0 s
  end.

Definition integer_value (s : string) : option Z :=
  match list_ascii_of_string s with
  | "-"%char :: rest => Z.opp <$> unsigned_value rest
  | cs => unsigned_value cs
  end.

Definition string_to_number (s : string) : number :=
  if String.eqb s "" then Num.zero
  else match integer_value s with
       | Some z => Num.of_Z z
       | None => NaN
       end.

Definition parse_float (s : string) : number :=
  match integer_value s with
  | Some z => Num.of_Z z
  | None => NaN
  end.

Definition is_leap (y : Z) : bool :=
  ((y mod 4 =? 0) && negb (y mod 100 =? 0) || (y mod 400 =? 0))%Z.

Definition days_in_month (y m : Z) : Z :=
  if (m =? 2)%Z then (if is_leap y then 29 else 28)
  else if ((m =? 4) || (m =? 6) || (m =? 9) || (m =? 11))%Z then 30 else 31.

(** Days from 1970-01-01 to the civil date [y]-[m]-[d]. *)
Definition days_from_civil (y m d : Z) : Z :=
  let y' := (if m <=? 2 then y - 1 else y)%Z in
  let era := (y' / 400)%Z in
  let yoe := (y' - era * 400)%Z in
  let doy := ((153 * (if 2 <? m then m - 3 else m + 9) + 2) / 5 + d - 1)%Z in
  let doe := (yoe * 365 + yoe / 4 - yoe / 100 + doy)%Z in
  (era * 146097 + doe - 719468)%Z.

(** The civil date of a day count. *)
Definition civil_from_days (z : Z) : Z * Z * Z :=
  let z' := (z + 719468)%Z in
  let era := (z' / 146097)%Z in
  let doe := (z' - era * 146097)%Z in
  let yoe := ((doe - doe / 1460 + doe / 36524 - doe / 146096) / 365)%Z in
  let doy := (doe - (365 * yoe + yoe / 4 - yoe / 100))%Z in
  let mp := ((5 * doy + 2) / 153)%Z in
  let d := (doy - (153 * mp + 2) / 5 + 1)%Z in
  let m := (if mp <? 10 then mp + 3 else mp - 9)%Z in
  ((if m <=? 2 then yoe + era * 400 + 1 else yoe + era * 400)%Z, m, d).

Definition date_parse (s : string) : number :=
  match list_ascii_of_string s with
  | [y1; y2; y3; y4; "-"%char; m1; m2; "-"%char; d1; d2] =>
      match digits_value 0 [y1; y2; y3; y4], digits_value 0 [m1; m2],
            digits_value 0 [d1; d2] with
      | Some y, Some m, Some d =>
          if ((1 <=? m) && (m <=? 12) && (1 <=? d) && (d <=? days_in_month y m))%Z
          then Num.of_Z (days_from_civil y m d * 86400000)
          else NaN
      | _, _, _ => NaN
      end
  | _ => NaN
  end.

Definition decimal (z : Z) : string := NilZero.string_of_int (Z.to_int z).

Definition pad2 (z : Z) : string :=
  if (z <? 10)%Z then "0" +:+ decimal z else decimal z.

Definition pad4 (z : Z) : string :=
  if (z <? 10)%Z then "000" +:+ decimal z
  else if (z <? 100)%Z then "00" +:+ decimal z
  else if (z <? 1000)%Z then "0" +:+ decimal z
  else decimal z.

Definition iso_day (ms : Q) : string :=
  let '(y, m, d) := civil_from_days (Qfloor ms / 86400000) in
  pad4 y +:+ "-" +:+ pad2 m +:+ "-" +:+ pad2 d.

(** Fraction digits of [r / d], at most [fuel] of them. *)
Fixpoint fraction_digits (fuel : nat) (r d : Z) : string :=
  match fuel with
  | O => ""
  | S fuel' =>
      if (r =? 0)%Z then ""
      else decimal (10 * r / d) +:+ fraction_digits fuel' ((10 * r) mod d) d
  end.

Definition number_to_string (n : number) : string :=
  match n with
  | NaN => "NaN"
  | PInf => "Infinity"
  | NInf => "-Infinity"
  | Fin q =>
      let q' := Qred q in
      let a := Z.abs (Qnum q') in
      let d := Zpos (Qden q') in
      (if (Qnum q' <? 0)%Z then "-" else "") +:+ decimal (a / d) +:+
      (if (a mod d =? 0)%Z then "" else "." +:+ fraction_digits 17 (a mod d) d)
  end.

Definition local_day (n : number) : number :=
  match n with
  | Fin q => Num.of_Z (civil_from_days (Qfloor q / 86400000)).2
  | _ => NaN
  end.

(** Months count from 0. *)
Definition local_month (n : number) : number :=
  match n with
  | Fin q => Num.of_Z ((civil_from_days (Qfloor q / 86400000)).1.2 - 1)
  | _ => NaN
  end.

#[export] Instance runtime : JsRuntime :=
  Build_JsRuntime string_to_number parse_float date_parse number_to_string
    iso_day local_day local_month.

End Reference.

(* ================================================================== *)
(** ** Vocabulary of the statements *)
(* ================================================================== *)

(** An integer literal. *)
Definition jnum (z : Z) : JsVal := JNum (Num.of_Z z).

(** The payload [saveToCache] serialises: [{ timestamp, data }]. *)
Definition cache_payload (written : Z) (data : JsVal) : JsVal :=
  JObj [("timestamp", JNum (Num.of_Z written)); ("data", data)].

(** [now - written], the age [loadFromCache] computes. *)
Definition entry_age (now written : Z) : number :=
  Num.sub (Num.of_Z now) (Num.of_Z written).

(** The cache key of [fetchVNIndexData(url)]. *)
Definition vnindex_key `{JsRuntime} (url : option string) : string :=
  getCacheKey "VNINDEX" [("url", JStr (vnindex_target url))].

(** Whatever is stored under [key] and passes [loadFromCache]'s checks is an
    array (as every payload [fetchVNIndexData] and [fetchBreadthData] save
    is). *)
Definition holds_list (st : storage) (key : string) : Prop :=
  forall payload data,
    st !! key = Some (Json payload) ->
    get payload "data" = Ok data -> truthy data = true -> isArray data = true.

(** The program's functions are unfolded on request only. *)
#[global] Arguments parseVNIndexData : simpl never.
#[global] Arguments getCacheKey : simpl never.
#[global] Arguments loadFromCache : simpl never.
#[global] Arguments saveToCache : simpl never.
#[global] Arguments processRaw : simpl never.
#[global] Arguments mapBreadthData : simpl never.
#[global] Arguments mapComplexBreadthData : simpl never.
#[global] Arguments merge_fetched : simpl never.
#[global] Arguments vnindex_fallback : simpl never.
#[global] Arguments vnindex_key : simpl never.
#[global] Arguments to_number : simpl never.
#[global] Arguments date_getTime : simpl never.

(** [ma] is [100 * count / total] up to the two roundings of
    [(count / total) * 100]: a relative error of at most
    [2 ^ -52 + 2 ^ -106] while the quotient is in the range of normal
    doubles, and [0] for a count of [0]. *)
Definition rounded_percentage (total count : Q) (ma : number) : Prop :=
  ((count == 0)%Q -> ma = Num.zero)
  /\ ((2 ^ (-1022) <= Qabs (count / total))%Q ->
      (Qabs (count / total) <= 2 ^ 1000)%Q ->
      exists m,
        ma = Fin m
        /\ (Qabs (m - 100 * count / total)
            <= Qabs (100 * count / total) * (2 ^ (-52) + 2 ^ (-106)))%Q).

(** [ma] is the percentage of [count] in [total] as both breadth mappers
    compute it: the quotient [count / total], rounded, times [100], rounded
    again, when [total > 0], and [0] otherwise. *)
Definition percentage_of (total count ma : number) : Prop :=
  (Num.gt total Num.zero = true ->
     ma = Num.mul (Num.div count total) hundred
     /\ forall t c, total = Fin t -> count = Fin c -> rounded_percentage t c ma)
  /\ (Num.gt total Num.zero = false -> ma = Num.zero).

(** A breadth point whose [total], counts and percentages are numbers, each
    percentage derived from its count. *)
Definition breadth_invariant (p : JsVal) : Prop :=
  exists total c20 c50 c200 m20 m50 m200,
    get p "total" = Ok (JNum total)
    /\ get p "count20" = Ok (JNum c20)
    /\ get p "count50" = Ok (JNum c50)
    /\ get p "count200" = Ok (JNum c200)
    /\ get p "ma20" = Ok (JNum m20)
    /\ get p "ma50" = Ok (JNum m50)
    /\ get p "ma200" = Ok (JNum m200)
    /\ percentage_of total c20 m20
    /\ percentage_of total c50 m50
    /\ percentage_of total c200 m200.

(** [points] is a flat upstream array that [processRaw] hands on untouched:
    the payload itself or its [data] property, with [ma20] among the
    properties of its first element. *)
Definition passed_through (data : JsVal) (points : list JsVal) : Prop :=
  exists first rest,
    points = first :: rest
    /\ has_in "ma20" first = Ok true
    /\ (data = JArr points \/ get data "data" = Ok (JArr points)).

(** *** Supported payloads of [parseVNIndexData]

    A record is a raw (timestamp, value) pair of finite numbers. *)

(** A timestamp in milliseconds as the code computes it: below
    10,000,000,000 it counts seconds and is multiplied by 1000. *)
Definition to_ms (t : Q) : number :=
  if Num.Qltb t (inject_Z 10000000000) then Num.mul (Fin t) thousand else Fin t.

(** [ms] is the timestamp [t] in milliseconds: [t] itself from
    10,000,000,000 on and, below that, the double nearest to [1000 * t],
    which is [1000 * t] itself for a whole number of seconds. *)
Definition in_ms (t ms : Q) : Prop :=
  to_ms t = Fin ms
  /\ (if Num.Qltb t (inject_Z 10000000000)
      then (Qabs (ms - 1000 * t) <= Qabs (1000 * t) * 2 ^ (-53) + 2 ^ (-1075))%Q
      else (ms == t)%Q)
  /\ (forall z : Z,
        (t == inject_Z z)%Q -> (Z.abs z < 9007199254740)%Z ->
        (ms == inject_Z (if (z <? 10000000000)%Z then 1000 * z else z))%Q).

(** The timestamps that the multiplication by 1000 cannot take to
    [-Infinity]. *)
Definition scalable (t : Q) : Prop := (- 2 ^ 1000 <= t)%Q.

(** The first of [keys] that is a property of the object. *)
Fixpoint first_present (keys : list string) (props : list (string * JsVal))
  : option JsVal :=
  match keys with
  | [] => None
  | k :: rest =>
      match lookup_prop k props with
      | Some v => Some v
      | None => first_present rest props
      end
  end.

(** [[timestamp, open, high, low, close, ...]] or [[timestamp, close]]. *)
Definition good_row (row : JsVal) (rec : Q * Q) : Prop :=
  exists r,
    row = JArr r
    /\ nth_error r 0 = Some (JNum (Fin rec.1))
    /\ (if (5 <=? length r)%nat then nth_error r 4 else nth_error r 1)
       = Some (JNum (Fin rec.2)).

(** The timestamp an object record carries: a number that is not zero, or a
    string that [Date.parse] reads. *)
Definition good_time `{JsRuntime} (v : JsVal) (t : Q) : Prop :=
  (v = JNum (Fin t) /\ ~ (t == 0)%Q)
  \/ (exists s, v = JStr s /\ s <> "" /\ date_parse s = Fin t).

(** An object whose first present timestamp key and first present value key
    hold a timestamp and a number that is not zero. *)
Definition good_record `{JsRuntime} (item : JsVal) (rec : Q * Q) : Prop :=
  exists props tv,
    item = JObj props
    /\ first_present time_keys props = Some tv
    /\ good_time tv rec.1
    /\ first_present value_keys props = Some (JNum (Fin rec.2))
    /\ ~ (rec.2 == 0)%Q.

(** The four supported shapes, with the records they carry. *)
Inductive payload `{JsRuntime} : JsVal -> list (Q * Q) -> Prop :=
| payload_rows (rows : list JsVal) (recs : list (Q * Q)) :
    rows <> [] ->
    Forall2 good_row rows recs ->
    payload (JArr rows) recs
| payload_objects (items : list JsVal) (recs : list (Q * Q)) :
    Forall2 good_record items recs ->
    payload (JArr items) recs
| payload_columns (props : list (string * JsVal)) (ts cs : list JsVal)
    (recs : list (Q * Q)) :
    isArray (prop_of props "data") = false ->
    lookup_prop "t" props = Some (JArr ts) ->
    lookup_prop "c" props = Some (JArr cs) ->
    Forall2 (fun v rec => v = JNum (Fin rec.1)) ts recs ->
    Forall2 (fun v rec => v = JNum (Fin rec.2)) cs recs ->
    payload (JObj props) recs
| payload_wrapper (props : list (string * JsVal)) (inner : list JsVal)
    (recs : list (Q * Q)) :
    lookup_prop "data" props = Some (JArr inner) ->
    payload (JArr inner) recs ->
    payload (JObj props) recs.


(** *** The breadth fetcher's view of the world *)

(** The cache key of [fetchBreadthData(params)]. *)
Definition breadth_key `{JsRuntime} (params : FilterParams) : string :=
  getCacheKey "BREADTH" (filterIdentity params).

(** What the latest and the history query settle with, [[]] on failure. *)
Definition latest_raw (net : Network) (params : FilterParams) : JsVal :=
  (fetch_or_empty net (BreadthSeries (breadth_base params) params true)).1.

Definition history_raw (net : Network) (params : FilterParams) : JsVal :=
  (fetch_or_empty net (BreadthSeries (breadth_base params) params false)).1.

(** A point whose timestamp is a number (after coercion) and not [NaN]. *)
Definition numeric_timestamp `{JsRuntime} (p : JsVal) : Prop :=
  Num.isNaN (to_number (timestamp_of p)) = false.

(** [a.timestamp <= b.timestamp]. *)
Definition timestamp_le `{JsRuntime} (a b : JsVal) : Prop :=
  Num.le (to_number (timestamp_of a)) (to_number (timestamp_of b)) = true.

(** [p] and [q] have the same timestamp, as a [Map] sees it. *)
Definition same_timestamp (p q : JsVal) : Prop :=
  same_value_zero (timestamp_of p) (timestamp_of q) = true.

(** The points that the three loops of [fetchBreadthData] set into the map,
    in order: the cached points when history was not refetched, the history
    points when it was, then the latest points. *)
Definition merge_inputs (shouldFetchHistory isCacheValid : bool)
    (cachedData historyPoints latestPoints : list JsVal) : list JsVal :=
  (if negb shouldFetchHistory && isCacheValid then cachedData else [])
  ++ (if shouldFetchHistory then historyPoints else [])
  ++ latestPoints.

(** [final] holds the points [inserted] merged by timestamp: nothing but
    inserted points; every inserted point that no later one shares its
    timestamp with; some point for every inserted timestamp; and no two
    points for one timestamp. *)
Definition merged_by_timestamp (inserted final : list JsVal) : Prop :=
  (forall q, q ∈ final -> q ∈ inserted)
  /\ (forall before p after,
        inserted = before ++ p :: after ->
        Forall (fun p' => ~ same_timestamp p' p) after -> p ∈ final)
  /\ (forall p, p ∈ inserted ->
        exists q, q ∈ final /\ (timestamp_of q = timestamp_of p \/ same_timestamp p q))
  /\ (forall p,
        (length (List.filter
                   (fun q => same_value_zero (timestamp_of q) (timestamp_of p)) final)
         <= 1)%nat).

(** [p.timestamp] is a finite number. *)
Definition has_finite_timestamp (p : JsVal) : bool :=
  match get p "timestamp" with
  | Ok (JNum (Fin _)) => true
  | _ => false
  end.

(** No two of the keys are equal as [Map] keys. *)
Fixpoint distinct_keys (keys : list JsVal) : bool :=
  match keys with
  | [] => true
  | k :: rest =>
      forallb (fun k' => negb (same_value_zero k k')) rest && distinct_keys rest
  end.

(** Every request fails, directly and through the proxy. *)
Definition offline (net : Network) : Prop :=
  forall req, direct net req = None /\ proxy net req = None.

(** *** Parameter objects and their serialisation *)

(** The characters that end a member of a serialised object, and the quote. *)
Definition delimiter (c : ascii) : bool :=
  Ascii.eqb c ","%char || Ascii.eqb c "}"%char || Ascii.eqb c dquote.

(** A finite number whose printed form holds none of them (the language
    prints digits, a sign, a point and an exponent). *)
Definition plain_number `{JsRuntime} (n : number) : Prop :=
  Num.isFinite n = true
  /\ forallb (fun c => negb (delimiter c))
       (list_ascii_of_string (number_to_string n)) = true.

(** The values of the program's parameter objects: strings and finite
    numbers. *)
Definition scalar `{JsRuntime} (v : JsVal) : Prop :=
  match v with
  | JStr _ => True
  | JNum n => plain_number n
  | _ => False
  end.

(** Two such values differ: two strings that are not the same, two numbers
    that do not print the same, or a string and a number. *)
Definition differ `{JsRuntime} (v1 v2 : JsVal) : Prop :=
  match v1, v2 with
  | JStr a, JStr b => a <> b
  | JNum a, JNum b => number_to_string a <> number_to_string b
  | _, _ => True
  end.

(** The characters [JSON.stringify] writes for such a value. *)
Definition scalar_chars `{JsRuntime} (v : JsVal) : list ascii :=
  match v with
  | JStr s => json_quote_chars (list_ascii_of_string s)
  | JNum n => list_ascii_of_string (number_to_string n)
  | _ => []
  end.

(** The characters of the members of [keys] and the closing brace. *)
Fixpoint object_chars `{JsRuntime} (props : list (string * JsVal)) (keys : list string)
  : list ascii :=
  match keys with
  | [] => ["}"%char]
  | k :: rest =>
      list_ascii_of_string (json_quote k) ++ ":"%char :: scalar_chars (prop_of props k)
      ++ match rest with
         | [] => ["}"%char]
         | _ => ","%char :: object_chars props rest
         end
  end.

(** Reading a quoted string back: the decoded characters up to the closing
    quote, and what follows it. *)
Definition unhex (c : ascii) : option nat :=
  (fix find (ds : list ascii) (i : nat) : option nat :=
     match ds with
     | [] => None
     | d :: rest => if Ascii.eqb c d then Some i else find rest (S i)
     end)
    ["0"; "1"; "2"; "3"; "4"; "5"; "6"; "7"; "8"; "9";
     "a"; "b"; "c"; "d"; "e"; "f"]%char 0%nat.

Definition push (c : ascii) (r : option (list ascii * list ascii))
  : option (list ascii * list ascii) :=
  match r with
  | Some (s, rest) => Some (c :: s, rest)
  | None => None
  end.

Fixpoint unescape (l : list ascii) : option (list ascii * list ascii) :=
  match l with
  | [] => None
  | c :: l' =>
      if Ascii.eqb c dquote then Some ([], l')
      else if Ascii.eqb c backslash then
        match l' with
        | [] => None
        | x :: l'' =>
            if Ascii.eqb x dquote then push dquote (unescape l'')
            else if Ascii.eqb x backslash then push backslash (unescape l'')
            else if Ascii.eqb x "b" then push (ascii_of_nat 8) (unescape l'')
            else if Ascii.eqb x "f" then push (ascii_of_nat 12) (unescape l'')
            else if Ascii.eqb x "n" then push (ascii_of_nat 10) (unescape l'')
            else if Ascii.eqb x "r" then push (ascii_of_nat 13) (unescape l'')
            else if Ascii.eqb x "t" then push (ascii_of_nat 9) (unescape l'')
            else if Ascii.eqb x "u" then
              match l'' with
              | _ :: _ :: h1 :: h2 :: l3 =>
                  match unhex h1, unhex h2 with
                  | Some x1, Some x2 =>
                      push (ascii_of_nat (16 * x1 + x2)) (unescape l3)
                  | _, _ => None
                  end
              | _ => None
              end
            else None
        end
      else push c (unescape l')
  end.

(** *** Proof vocabulary *)

(** Peels the successful binds of a hypothesis [m >>= k = Ok _]. *)
Ltac bind_inv H :=
  repeat match type of H with
         | bind ?m _ = Ok _ =>
             let E := fresh "E" in
             destruct m eqn:E; cbn [bind] in H; [| discriminate H]
         end.

(** The number that a value of the standard library's IEEE 754
    specification denotes, and the binary64 value nearest to [m * 2 ^ e]. *)
Definition of_spec_float (f : SpecFloat.spec_float) : number :=
  match f with
  | SpecFloat.S754_zero _ => Num.zero
  | SpecFloat.S754_infinity s => if s then NInf else PInf
  | SpecFloat.S754_nan => NaN
  | SpecFloat.S754_finite s m e =>
      Fin (Qred ((if s then -1 else 1) * inject_Z (Z.pos m) * 2 ^ e))
  end.

Definition binary64 (m e : Z) : SpecFloat.spec_float :=
  SpecFloat.binary_normalize 53 1024 m e false.

Definition binary64_mul (a b : SpecFloat.spec_float) : SpecFloat.spec_float :=
  SpecFloat.SFmul 53 1024 a b.

Definition binary64_div (a b : SpecFloat.spec_float) : SpecFloat.spec_float :=
  SpecFloat.SFdiv 53 1024 a b.

Definition binary64_sub (a b : SpecFloat.spec_float) : SpecFloat.spec_float :=
  SpecFloat.SFsub 53 1024 a b.

(** The steps of [Num.round], named: the exponent, the unit in the last
    place and the rounded magnitude. *)
Definition round_exp (q : Q) : Z := Z.max (Num.Qlog2 (Qabs q)) (-1022).
Definition round_ulp (q : Q) : Q := (2 ^ (round_exp q - 52))%Q.
Definition round_abs (q : Q) : Q :=
  (inject_Z (Num.Qnearest_even (Qabs q / round_ulp q)) * round_ulp q)%Q.

(** A property that is a number when it is there. *)
Definition numeric_if_present (k : string) (e : list (string * JsVal)) : Prop :=
  lookup_prop k e = None \/ exists n, lookup_prop k e = Some (JNum n).

(** What every entry of [merged] satisfies. *)
Definition entry_ok (e : list (string * JsVal)) : Prop :=
  (exists n, lookup_prop "total" e = Some (JNum n))
  /\ numeric_if_present "count20" e
  /\ numeric_if_present "count50" e
  /\ numeric_if_present "count200" e.

(** The keys of a [Map] are pairwise different. *)
Fixpoint map_wf {V : Type} (m : list (JsVal * V)) : Prop :=
  match m with
  | [] => True
  | (k, _) :: rest =>
      (forall e, e ∈ rest -> same_value_zero k e.1 = false) /\ map_wf rest
  end.

(** The key of an entry is the timestamp of its point, up to the equality of
    [Map] keys. *)
Definition keyed_by_timestamp (m : list (JsVal * JsVal)) : Prop :=
  forall k q, (k, q) ∈ m ->
    k = timestamp_of q \/ same_value_zero k (timestamp_of q) = true.

(** The order [Array.prototype.sort] puts strings in by default. *)
Definition string_le (a b : string) : Prop := String.leb a b = true.

(** One member of a serialised object: [None] when the property is missing
    or its value is left out. *)
Definition json_member `{JsRuntime} (allow : option (list string)) (props : list (string * JsVal))
    (k : string) : option string :=
  match lookup_prop k props with
  | Some pv =>
      match json_stringify allow pv with
      | Some s => Some (json_quote k +:+ ":" +:+ s)
      | None => None
      end
  | None => None
  end.

(** Every key of [keys] names a scalar property of [props]. *)
Definition scalars_at `{JsRuntime} (props : list (string * JsVal)) (keys : list string) : Prop :=
  forall k, k ∈ keys -> exists v, lookup_prop k props = Some v /\ scalar v.

(** *** Further vocabulary *)

(** One of the two transport attempts answered with [body]. *)
Definition answered (net : Network) (req : request) (body : JsVal) : Prop :=
  direct net req = Some body \/ (direct net req = None /\ proxy net req = Some body).

(** Two parameter sets name the same filter: they agree on the exchange
    list, on the four bounds and on the endpoint.  The lookback [t] and the
    custom dates are not part of it. *)
Definition same_filter `{JsRuntime} (p1 p2 : FilterParams) : Prop :=
  floor p1 = floor p2
  /\ min_adClose p1 = min_adClose p2
  /\ max_adClose p1 = max_adClose p2
  /\ min_MA20 p1 = min_MA20 p2
  /\ max_MA20 p1 = max_MA20 p2
  /\ breadth_base p1 = breadth_base p2.

(** The four bounds are finite numbers that print plainly. *)
Definition plain_bounds `{JsRuntime} (p : FilterParams) : Prop :=
  plain_number (min_adClose p) /\ plain_number (max_adClose p)
  /\ plain_number (min_MA20 p) /\ plain_number (max_MA20 p).

(** [JSON.parse(JSON.stringify(l))] for an array [l]. *)
Definition json_copy (l : list JsVal) : list JsVal :=
  map (fun e => default JNull (json_value e)) l.

(** [p.date], for a value [p] that is neither [null] nor [undefined]. *)
Definition date_of (p : JsVal) : JsVal :=
  match get p "date" with
  | Ok d => d
  | Throw _ => JUndefined
  end.

(** The three series of the complex breadth shape. *)
Definition series_keys : list string := ["ma20"; "ma50"; "ma200"].

(** [d] is a key of a [Map] with the keys [ks]. *)
Definition key_among (d : JsVal) (ks : list JsVal) : Prop :=
  exists k, k ∈ ks /\ (k = d \/ same_value_zero k d = true).

(** The entries of [merged]: pairwise different keys, each entry holding its
    key as [date]. *)
Definition dated (m : list (JsVal * list (string * JsVal))) : Prop :=
  distinct_keys (map fst m) = true
  /\ Forall (fun e => lookup_prop "date" e.2 = Some e.1) m.

(** *** The inputs of the merge engine *)

(** A breadth point as [mapBreadthData] builds it: an object (its property
    names pairwise different) with a number as [timestamp] and the calendar
    day of that timestamp as [date]. *)
Definition breadth_record `{JsRuntime} (b : JsVal) : Prop :=
  exists props n,
    b = JObj props
    /\ NoDup (map fst props)
    /\ lookup_prop "timestamp" props = Some (JNum n)
    /\ forall key, getDateKey (JNum n) = Ok key -> lookup_prop "date" props = Some (JStr key).

(** The three fields that the index series write. *)
Definition index_fields : list string := ["vnIndex"; "capVal"; "sectorVal"].

(** [v.close], for a value [v] that is neither [null] nor [undefined]. *)
Definition close_of (v : JsVal) : JsVal :=
  match get v "close" with
  | Ok c => c
  | Throw _ => JUndefined
  end.

(** The point [v] has a timestamp, and the timestamp is a valid time. *)
Definition timed `{JsRuntime} (v : JsVal) : Prop :=
  exists ts key, get v "timestamp" = Ok ts /\ getDateKey ts = Ok key.

(** The point [v] is of the calendar day [day]. *)
Definition on_day `{JsRuntime} (day : string) (v : JsVal) : bool :=
  match getDateKey (timestamp_of v) with
  | Ok key => String.eqb key day
  | Throw _ => false
  end.

(** The point [v] supplies a close value for [day]: it is of that day and
    its [close] is neither [undefined] nor [null]. *)
Definition supplies `{JsRuntime} (day : string) (v : JsVal) : bool :=
  on_day day v && negb (is_nullish (close_of v)).

(** The property [field] of the record of [day] in [dataMap]; [undefined]
    when the day has no record. *)
Definition field_on (dataMap : list (JsVal * list (string * JsVal)))
    (day field : string) : JsVal :=
  match map_get (JStr day) dataMap with
  | Some r => prop_of r field
  | None => JUndefined
  end.

(** What the series [points] makes of the field [field] between the maps
    [before] and [after]: on a day for which the series supplies a close
    value the field holds the last such value; on any other day it is what
    it was. *)
Definition series_field `{JsRuntime} (field : string) (points : list JsVal)
    (before after : list (JsVal * list (string * JsVal))) : Prop :=
  (forall day pre v post,
     points = pre ++ v :: post ->
     supplies day v = true ->
     Forall (fun w => supplies day w = false) post ->
     field_on after day field = close_of v)
  /\ (forall day,
        Forall (fun w => supplies day w = false) points ->
        field_on after day field = field_on before day field).

(** The close value that a series leaves in its field of [day]: the last one
    it supplies, else what the field held. *)
Definition last_close `{JsRuntime} (day : string) (points : list JsVal) (held : JsVal)
  : JsVal :=
  fold_left (fun acc v => if supplies day v then close_of v else acc) points held.

(** The keys of [dataMap] are days. *)
Definition day_keyed {V : Type} (m : list (JsVal * V)) : Prop :=
  forall e, e ∈ m -> exists day, e.1 = JStr day.

(** An index point: its [timestamp] is a number. *)
Definition index_record (v : JsVal) : Prop :=
  exists n, get v "timestamp" = Ok (JNum n).

(** An entry of [dataMap]: keyed by a day, holding that day as [date] and a
    number of that day as [timestamp]. *)
Definition day_record `{JsRuntime} (e : JsVal * list (string * JsVal)) : Prop :=
  exists key n,
    e.1 = JStr key
    /\ lookup_prop "date" e.2 = Some (JStr key)
    /\ lookup_prop "timestamp" e.2 = Some (JNum n)
    /\ getDateKey (JNum n) = Ok key.

Definition day_map `{JsRuntime} (m : list (JsVal * list (string * JsVal))) : Prop :=
  NoDup (map fst m) /\ Forall day_record m.

(** The record of a chart row: [date] is the calendar day of [timestamp]. *)
Definition chart_row `{JsRuntime} (r : JsVal) : Prop :=
  exists key n,
    date_of r = JStr key /\ timestamp_of r = JNum n /\ getDateKey (JNum n) = Ok key.

(** The window [chartData] cuts: the custom dates when one is given, else
    the preset range counted back from [now]. *)
Definition in_window `{JsRuntime} (now : Z) (range : TimeRange) (params : FilterParams)
    (t : number) : Prop :=
  let given (d : option string) : bool :=
    match d with Some s => negb (String.eqb s "") | None => false end in
  if given (fromDate params) || given (toDate params) then
    (forall s, fromDate params = Some s -> s <> "" ->
       Num.ge t (date_getTime (JStr s)) = true)
    /\ (given (fromDate params) = false -> Num.ge t Num.zero = true)
    /\ (forall s, toDate params = Some s -> s <> "" ->
          Num.lt t (Num.add (date_getTime (JStr s)) (Num.of_Z 86400000)) = true)
  else
    Num.ge t (Num.sub (Num.of_Z now) (Num.of_Z (range_days range * 86400000))) = true.

(** The pairs of neighbours of a list, in order. *)
Definition adjacent {A : Type} (l : list A) : list (A * A) := zip l (tail l).

(** The event of a pair of neighbouring rows, for the lines [fast] and
    [slow]. *)
Definition pair_event `{JsRuntime} (fast slow : string) (pc : JsVal * JsVal)
  : result (option JsVal) :=
  cross_event fast slow pc.1 pc.2.

(** [evt] reports that [fast] crossed [slow] between the rows [prev] and
    [curr]: all four values are there, and [fast] went from not above to
    above ([bull]) or from not below to below ([bear]). *)
Definition crossing `{JsRuntime} (fast slow : string) (prev curr evt : JsVal) : Prop :=
  exists pf ps cf cs x type,
    get prev fast = Ok pf /\ get prev slow = Ok ps
    /\ get curr fast = Ok cf /\ get curr slow = Ok cs
    /\ is_undefined pf = false /\ is_undefined ps = false
    /\ is_undefined cf = false /\ is_undefined cs = false
    /\ get curr "timestamp" = Ok x
    /\ evt = JObj [("x", x); ("type", JStr type)]
    /\ ((type = "bull" /\ js_le pf ps = true /\ js_gt cf cs = true)
        \/ (type = "bear" /\ js_ge pf ps = true /\ js_lt cf cs = true)).

(** The two blocks of the loop body of [crossovers], on a pair of
    neighbouring rows. *)
Definition crossovers_body `{JsRuntime} (acc : list JsVal * list JsVal)
    (pc : JsVal * JsVal) : result (list JsVal * list JsVal) :=
  let* e1 := pair_event "ma20" "ma50" pc in
  let* e2 := pair_event "ma50" "ma200" pc in
  Ok (push_event acc.1 e1, push_event acc.2 e2).

(** [evt.x]. *)
Definition event_x (evt : JsVal) : JsVal :=
  match get evt "x" with
  | Ok x => x
  | Throw _ => JUndefined
  end.

(** [evt] is reported for some pair of neighbouring rows of [data]. *)
Definition crossing_in `{JsRuntime} (fast slow : string) (data : list JsVal)
    (evt : JsVal) : Prop :=
  exists j prev curr,
    data !! j = Some prev /\ data !! S j = Some curr /\ crossing fast slow prev curr evt.

(** In the row [r] the line [fast] is strictly above the line [slow]. *)
Definition above `{JsRuntime} (fast slow : string) (r : JsVal) : Prop :=
  exists f s, get r fast = Ok f /\ get r slow = Ok s /\ js_gt f s = true.

(** *** Flat breadth records *)

(** The largest time value a [Date] holds. *)
Definition max_time : Q := inject_Z 8640000000000000.

(** [item.k1 ?? item.k2 ?? ... ?? 0] on the properties of an object. *)
Fixpoint first_defined (keys : list string) (props : list (string * JsVal)) : JsVal :=
  match keys with
  | [] => JNum Num.zero
  | k :: rest =>
      if is_nullish (prop_of props k) then first_defined rest props else prop_of props k
  end.

(** A flat record that carries its day as a positive number under [date]
    (seconds or milliseconds since the epoch) which, in milliseconds, is
    positive and within the range of [Date]. *)
Definition dated_item (item : JsVal) (q : Q) : Prop :=
  exists props ms,
    item = JObj props
    /\ lookup_prop "date" props = Some (JNum (Fin q))
    /\ (0 < q)%Q
    /\ to_ms q = Fin ms /\ (0 < ms)%Q /\ (ms <= max_time)%Q.

(** The point [mapBreadthData] makes of such a record. *)
Definition mapped_item `{JsRuntime} (item : JsVal) (q : Q) (p : JsVal) : Prop :=
  exists props ms,
    item = JObj props
    /\ in_ms q ms
    /\ get p "timestamp" = Ok (JNum (Fin ms))
    /\ get p "date" = Ok (JStr (iso_day (inject_Z (Num.Qtrunc ms))))
    /\ get p "total" = Ok (JNum (to_number (js_or (prop_of props "total") (JNum Num.zero))))
    /\ get p "count20"
       = Ok (JNum (to_number (first_defined ["ma20"; "avg_ma20"; "pct_ma20"] props)))
    /\ get p "count50"
       = Ok (JNum (to_number (first_defined ["ma50"; "avg_ma50"; "pct_ma50"] props)))
    /\ get p "count200"
       = Ok (JNum (to_number (first_defined ["ma200"; "avg_ma200"; "pct_ma200"] props))).

(** *** The sector ranking *)





(* ================================================================== *)
(** ** Sample data *)
(* ================================================================== *)

Section Samples.
Import Reference.

Definition sample_point : JsVal := mk_point (jnum 1700000000000) (Fin (201 # 2)).

Definition sample_params : FilterParams :=
  Build_FilterParams (Num.of_Z 365) "hose" (Num.of_Z 0) (Num.of_Z 1000)
    (Num.of_Z 0) (Num.of_Z 100) None None None.

(** A flat upstream point that carries [ma20] already: 40 percent, though 10
    of 100 stocks are counted. *)
Definition upstream_point : JsVal :=
  JObj [("date", JStr "2024-01-02"); ("timestamp", jnum 1704153600000);
        ("ma20", jnum 40); ("ma50", jnum 30); ("ma200", jnum 20);
        ("total", jnum 100);
        ("count20", jnum 10); ("count50", jnum 10); ("count200", jnum 10)].

(** The latest query answers with [body]; the history query fails. *)
Definition latest_only (body : JsVal) : Network :=
  {| direct := fun req =>
       match req with
       | BreadthSeries _ _ true => Some body
       | _ => None
       end;
     proxy := fun _ => None |}.

(** Two points of the history query and one of the latest query that
    revises the second day. *)
Definition history_day1 : JsVal :=
  JObj [("timestamp", jnum 1704067200000); ("ma20", jnum 40)].
Definition history_day2 : JsVal :=
  JObj [("timestamp", jnum 1704153600000); ("ma20", jnum 50)].
Definition latest_day2 : JsVal :=
  JObj [("timestamp", jnum 1704153600000); ("ma20", jnum 55)].

Definition both_queries : Network :=
  {| direct := fun req =>
       match req with
       | BreadthSeries _ _ true => Some (JArr [latest_day2])
       | BreadthSeries _ _ false => Some (JArr [history_day1; history_day2])
       | IndexSeries _ => None
       end;
     proxy := fun _ => None |}.

(** Fifty cached days. *)
Definition cached_days : list JsVal :=
  map (fun i => JObj [("timestamp", jnum (1700000000000 + 86400000 * Z.of_nat i));
                      ("ma20", jnum 50)])
      (seq 0 50).

Definition no_network : Network :=
  {| direct := fun _ => None; proxy := fun _ => None |}.

(** Two points of a latest query: a revision of the last of the fifty cached
    days, and the day after it. *)
Definition latest_day50 : JsVal :=
  JObj [("timestamp", jnum 1704233600000); ("ma20", jnum 55)].
Definition latest_day51 : JsVal :=
  JObj [("timestamp", jnum 1704320000000); ("ma20", jnum 60)].

Definition stale_store : storage :=
  {[ breadth_key sample_params := Json (cache_payload 0 (JArr cached_days)) ]}.

End Samples.

Section MoreSamples.
Import Reference.

(** The index query answers with [body]; every breadth query fails. *)
Definition index_only (body : JsVal) : Network :=
  {| direct := fun req =>
       match req with
       | IndexSeries _ => Some body
       | _ => None
       end;
     proxy := fun _ => None |}.

(** An index series of one row [[seconds, close]], and the point parsed from
    it. *)
Definition index_rows : JsVal := JArr [JArr [jnum 1700000000; jnum 100]].
Definition index_point : JsVal := mk_point (jnum 1700000000000) (Num.of_Z 100).

(** An entry without [timestamp]. *)
Definition undated_store : storage :=
  {[ "k" := Json (JObj [("data", JArr [sample_point])]) ]}.

(** The default index series cached at clock 0. *)
Definition index_store : storage :=
  {[ vnindex_key None := Json (cache_payload 0 (JArr [sample_point])) ]}.

(** One breadth day cached at clock 0. *)
Definition day_store : storage :=
  {[ breadth_key sample_params := Json (cache_payload 0 (JArr [history_day1])) ]}.

(** A complex breadth payload: two days in the [ma20] series, the first of
    them also in the [ma50] series. *)
Definition complex_item (date : string) (value total : Z) : JsVal :=
  JObj [("date", JStr date); ("value", jnum value); ("total", jnum total)].

Definition complex_payload : JsVal :=
  JObj [("ma20", JArr [complex_item "2024-01-01" 40 100; complex_item "2024-01-02" 50 100]);
        ("ma50", JArr [complex_item "2024-01-01" 30 100])].

(** Two chart days: breadth and index on the first, index only on the
    second. *)
Definition breadth_day1 : list (string * JsVal) :=
  [("date", JStr "2024-01-01"); ("timestamp", jnum 1704067200000);
   ("ma20", jnum 40); ("ma50", jnum 50); ("ma200", jnum 60)].

Definition index_day1 : JsVal := mk_point (jnum 1704067200000) (Num.of_Z 1100).
Definition index_day2 : JsVal := mk_point (jnum 1704153600000) (Num.of_Z 1110).

(** A later point of the first day whose close is 0, and a point of the
    second day whose close is [null]. *)
Definition index_zero : JsVal := mk_point (jnum 1704067200000) Num.zero.
Definition index_null : JsVal :=
  JObj [("timestamp", jnum 1704153600000); ("close", JNull)].

(** Two chart rows between which [ma20] crosses above [ma50]. *)
Definition row_before : JsVal :=
  JObj [("timestamp", jnum 1704067200000); ("ma20", jnum 40); ("ma50", jnum 50);
        ("ma200", jnum 60)].
Definition row_after : JsVal :=
  JObj [("timestamp", jnum 1704153600000); ("ma20", jnum 55); ("ma50", jnum 50);
        ("ma200", jnum 60)].
Definition bull_marker : JsVal :=
  JObj [("x", jnum 1704153600000); ("type", JStr "bull")].

(** A flat breadth record dated in seconds. *)
Definition flat_record : JsVal :=
  JObj [("date", jnum 1700000000); ("total", jnum 100); ("avg_ma20", jnum 40)].

(** The double that [1700000000.123] denotes. *)
Definition seconds_and_millis : Q := 7130316800515899 # 4194304.

(** A flat breadth record dated in seconds that are not whole. *)
Definition flat_record_millis : JsVal :=
  JObj [("date", JNum (Fin seconds_and_millis)); ("total", jnum 100); ("ma20", jnum 0)].

(** Three fetched sector series: one that rose, one that fell, one that is
    empty. *)
Definition fetched_sectors : list (string * string * JsVal) :=
  [("Oil", "500",
    JArr [mk_point (jnum 1704067200000) (Num.of_Z 100);
          mk_point (jnum 1704153600000) (Num.of_Z 90)]);
   ("Banks", "8300",
    JArr [mk_point (jnum 1704067200000) (Num.of_Z 100);
          mk_point (jnum 1704153600000) (Num.of_Z 110)]);
   ("Tech", "9500", JArr [])].

End MoreSamples.

(* ================================================================== *)
(** * Properties *)
(* ================================================================== *)

(** ** Numbers *)

Lemma Qltb_lt (a b : Q) : Num.Qltb a b = true <-> (a < b)%Q.
Proof.
  unfold Num.Qltb. rewrite negb_true_iff.
  destruct (Qle_bool b a) eqn:E.
  - apply Qle_bool_iff in E. split; [discriminate | intros Hlt; exfalso; lra].
  - split; [intros _ | reflexivity].
    destruct (Qlt_le_dec a b) as [Hlt | Hle]; [exact Hlt |].
    apply Qle_bool_iff in Hle. congruence.
Qed.

Lemma Qltb_ge (a b : Q) : Num.Qltb a b = false <-> (b <= a)%Q.
Proof.
  unfold Num.Qltb. rewrite negb_false_iff. apply Qle_bool_iff.
Qed.

(** For numbers that are not [NaN], the sign of [a - b] is the order of [a]
    and [b]: the comparator [(a, b) => a.timestamp - b.timestamp] sorts
    ascending. *)
Lemma lt_sub_zero (a b : number) :
  Num.isNaN a = false -> Num.isNaN b = false ->
  Num.lt (Num.sub a b) Num.zero = Num.lt a b.
Proof.
  destruct a as [| | |x], b as [| | |y]; simpl; try discriminate; try reflexivity.
  intros _ _. unfold Num.zero, Num.of_Z.
  destruct (Num.Qltb x y) eqn:E.
  - apply Qltb_lt. apply Qltb_lt in E. rewrite Qred_correct.
    change (inject_Z 0) with 0%Q. lra.
  - apply Qltb_ge. apply Qltb_ge in E. rewrite Qred_correct.
    change (inject_Z 0) with 0%Q. lra.
Qed.

Lemma lt_le (a b : number) : Num.lt a b = true -> Num.le a b = true.
Proof.
  destruct a as [| | |x], b as [| | |y]; simpl; try discriminate; try reflexivity.
  intros E. apply Qltb_lt in E. apply Qle_bool_iff. lra.
Qed.

Lemma not_lt_le (a b : number) :
  Num.isNaN a = false -> Num.isNaN b = false ->
  Num.lt a b = false -> Num.le b a = true.
Proof.
  destruct a as [| | |x], b as [| | |y]; simpl; try discriminate; try reflexivity.
  intros _ _ E. apply Qltb_ge in E. apply Qle_bool_iff. exact E.
Qed.

Lemma le_not_lt (a b : number) : Num.le a b = true -> Num.lt b a = false.
Proof.
  destruct a as [| | |x], b as [| | |y]; simpl; try discriminate; try reflexivity.
  intros E. apply Qle_bool_iff in E. apply Qltb_ge. exact E.
Qed.

Lemma le_trans (a b c : number) :
  Num.le a b = true -> Num.le b c = true -> Num.le a c = true.
Proof.
  destruct a as [| | |x], b as [| | |y], c as [| | |z]; simpl;
    try discriminate; try reflexivity.
  intros E1 E2. apply Qle_bool_iff in E1, E2. apply Qle_bool_iff. lra.
Qed.

Lemma le_not_nan (a b : number) :
  Num.le a b = true -> Num.isNaN a = false /\ Num.isNaN b = false.
Proof. destruct a, b; cbn; try discriminate; done. Qed.

Lemma same_refl (a : number) : Num.same a a = true.
Proof.
  destruct a as [| | |x]; simpl; try reflexivity.
  apply Qeq_bool_iff. reflexivity.
Qed.

Lemma same_sym (a b : number) : Num.same a b = Num.same b a.
Proof.
  destruct a as [| | |x], b as [| | |y]; simpl; try reflexivity.
  destruct (Qeq_bool x y) eqn:E1, (Qeq_bool y x) eqn:E2; try reflexivity.
  - apply Qeq_bool_iff in E1. symmetry in E1. apply Qeq_bool_iff in E1. congruence.
  - apply Qeq_bool_iff in E2. symmetry in E2. apply Qeq_bool_iff in E2. congruence.
Qed.

Lemma same_trans (a b c : number) :
  Num.same a b = true -> Num.same b c = true -> Num.same a c = true.
Proof.
  destruct a as [| | |x], b as [| | |y], c as [| | |z]; simpl;
    try discriminate; try reflexivity.
  intros E1 E2. apply Qeq_bool_iff in E1, E2. apply Qeq_bool_iff.
  rewrite E1. exact E2.
Qed.

(** *** Rounding to a double *)

Lemma Qnearest_even_error (q : Q) :
  (Qabs (inject_Z (Num.Qnearest_even q) - q) <= 1 # 2)%Q.
Proof.
  unfold Num.Qnearest_even.
  pose proof (Qfloor_le q) as Hlo. pose proof (Qlt_floor q) as Hhi.
  rewrite inject_Z_plus in Hhi. change (inject_Z 1) with 1%Q in Hhi.
  apply Qabs_Qle_condition.
  destruct (Qcompare_spec (q - inject_Z (Qfloor q)) (1 # 2)) as [E | E | E].
  - destruct (Z.even (Qfloor q)); [| rewrite inject_Z_plus; change (inject_Z 1) with 1%Q];
      split; lra.
  - split; lra.
  - rewrite inject_Z_plus. change (inject_Z 1) with 1%Q. split; lra.
Qed.

Lemma Qnearest_even_Z (q : Q) (z : Z) :
  (q == inject_Z z)%Q -> Num.Qnearest_even q = z.
Proof.
  intros E. unfold Num.Qnearest_even.
  assert (Hf : Qfloor q = z).
  { rewrite (Qfloor_comp _ _ E). apply Qfloor_Z. }
  rewrite Hf.
  destruct (Qcompare_spec (q - inject_Z z) (1 # 2)) as [E' | E' | E'];
    [exfalso; lra | reflexivity | exfalso; lra].
Qed.

Lemma Qpow2_pos (k : Z) : (0 < 2 ^ k)%Q.
Proof. apply Qpower_0_lt. reflexivity. Qed.

Lemma Qpow2_Z (k : Z) : (0 <= k)%Z -> (inject_Z (2 ^ k) == 2 ^ k)%Q.
Proof. intros Hk. by rewrite Zpower_Qpower. Qed.

(** [2 ^ Qlog2 a] is at most [a]. *)
Lemma Qlog2_lower (a : Q) : (0 < a)%Q -> (2 ^ Num.Qlog2 a <= a)%Q.
Proof.
  intros Ha. unfold Num.Qlog2.
  destruct (Qle_bool _ a) eqn:E; [by apply Qle_bool_iff |].
  destruct a as [n d]. cbn [Qnum Qden] in *.
  assert (Hn : (0 < n)%Z).
  { unfold Qlt in Ha. cbn in Ha. lia. }
  pose proof (Z.log2_spec n Hn) as [Hn1 _].
  pose proof (Z.log2_spec (Z.pos d) (Pos2Z.is_pos d)) as [_ Hd2].
  pose proof (Z.log2_nonneg n) as Hln. pose proof (Z.log2_nonneg (Z.pos d)) as Hld.
  replace (Z.log2 n - Z.log2 (Z.pos d) - 1)%Z
    with (Z.log2 n - Z.succ (Z.log2 (Z.pos d)))%Z by lia.
  rewrite Qpower_minus by discriminate.
  rewrite <- !Qpow2_Z by lia.
  apply Qle_shift_div_r.
  { change 0%Q with (inject_Z 0). rewrite <- Zlt_Qlt.
    apply Z.pow_pos_nonneg; lia. }
  unfold Qle. cbn [Qnum Qden inject_Z Qmult]. rewrite Pos.mul_1_r, Z.mul_1_r.
  apply (Z.le_trans _ (n * Z.pos d)%Z).
  - apply Z.mul_le_mono_nonneg_r; lia.
  - apply Z.mul_le_mono_nonneg_l; lia.
Qed.

Lemma Qred_inject_Z (z : Z) : Qred (inject_Z z) = inject_Z z.
Proof.
  unfold Qred, inject_Z.
  pose proof (Z.ggcd_gcd z 1) as Hg. pose proof (Z.ggcd_correct_divisors z 1) as Hd.
  destruct (Z.ggcd z 1) as [g [a b]]. cbn [fst snd] in *.
  rewrite Z.gcd_1_r in Hg. subst g. destruct Hd as [Ha Hb].
  rewrite Z.mul_1_l in Ha, Hb. by subst.
Qed.

Lemma Qred_Z (q : Q) (z : Z) : (q == inject_Z z)%Q -> Qred q = inject_Z z.
Proof. intros E. rewrite (Qred_complete _ _ E). apply Qred_inject_Z. Qed.

Lemma round_unfold (q : Q) :
  Num.round q =
    if Qle_bool (2 ^ 1024) (round_abs q)
    then (if Qle_bool 0 q then PInf else NInf)
    else Fin (Qred (if Qle_bool 0 q then round_abs q else - round_abs q)).
Proof. reflexivity. Qed.

Lemma round_ulp_pos (q : Q) : (0 < round_ulp q)%Q.
Proof. apply Qpow2_pos. Qed.

(** The rounded magnitude is within half a unit in the last place. *)
Lemma round_abs_near (q : Q) :
  (Qabs (round_abs q - Qabs q) <= round_ulp q * (1 # 2))%Q.
Proof.
  unfold round_abs. pose proof (round_ulp_pos q) as Hu.
  pose proof (Qnearest_even_error (Qabs q / round_ulp q)) as Hn.
  set (n := inject_Z _) in *.
  assert (E : (n * round_ulp q - Qabs q == (n - Qabs q / round_ulp q) * round_ulp q)%Q).
  { field. lra. }
  rewrite E, Qabs_Qmult, (Qabs_pos (round_ulp q)) by lra.
  rewrite (Qmult_comm (round_ulp q)). apply Qmult_le_compat_r; lra.
Qed.

(** The unit in the last place is at most [2 ^ -52] of the magnitude, from
    the smallest normal number on. *)
Lemma round_ulp_le (q : Q) :
  (2 ^ (-1022) <= Qabs q)%Q -> (round_ulp q <= Qabs q * 2 ^ (-52))%Q.
Proof.
  intros Hq. unfold round_ulp, round_exp.
  assert (Ha : (0 < Qabs q)%Q).
  { eapply Qlt_le_trans; [apply (Qpow2_pos (-1022)) | exact Hq]. }
  pose proof (Qlog2_lower _ Ha) as Hl.
  set (e := Z.max _ _).
  assert (He : (2 ^ e <= Qabs q)%Q).
  { subst e. destruct (Z.max_spec (Num.Qlog2 (Qabs q)) (-1022)) as [[_ ->] | [_ ->]]; done. }
  replace (e - 52)%Z with (e + -52)%Z by lia.
  rewrite Qpower_plus by discriminate.
  apply Qmult_le_compat_r; [exact He | apply Qlt_le_weak, Qpow2_pos].
Qed.

(** Below the smallest normal number the unit is [2 ^ -1074]. *)
Lemma round_ulp_small (q : Q) :
  ~ (q == 0)%Q -> (round_ulp q <= Qabs q * 2 ^ (-52) + 2 ^ (-1074))%Q.
Proof.
  intros Hnz. pose proof (Qabs_nonneg q) as Hq0.
  assert (Hpos : (0 < Qabs q)%Q).
  { destruct (Qle_lt_or_eq _ _ Hq0) as [Hpos | Hz]; [exact Hpos |].
    exfalso. apply Hnz. revert Hz. apply Qabs_case; intros; lra. }
  destruct (Qlt_le_dec (Qabs q) (2 ^ (-1022))) as [Hlt | Hge].
  - assert (Hu : (round_ulp q == 2 ^ (-1074))%Q).
    { unfold round_ulp, round_exp.
      destruct (Z.max_spec (Num.Qlog2 (Qabs q)) (-1022)) as [[_ ->] | [Hle ->]];
        [reflexivity |].
      pose proof (Qlog2_lower _ Hpos) as Hl.
      assert (Hlt' : (2 ^ Num.Qlog2 (Qabs q) < 2 ^ (-1022))%Q) by lra.
      apply Qpower_lt_compat_l_inv in Hlt'; [lia | reflexivity]. }
    rewrite Hu. assert (0 <= Qabs q * 2 ^ (-52))%Q; [| lra].
    apply Qmult_le_0_compat; [exact Hq0 | apply Qlt_le_weak, Qpow2_pos].
  - pose proof (round_ulp_le q Hge). pose proof (Qpow2_pos (-1074)). lra.
Qed.

Lemma round_abs_zero (q : Q) : (q == 0)%Q -> (round_abs q == 0)%Q.
Proof.
  intros Hz. unfold round_abs. generalize (round_ulp q). intros u.
  rewrite (Qnearest_even_Z _ 0); [ring |].
  rewrite Hz. change (Qabs 0) with 0%Q. unfold Qdiv. ring.
Qed.

(** A number of magnitude up to [2 ^ 1023] rounds to a finite double. *)
Lemma round_finite (q : Q) :
  (Qabs q <= 2 ^ 1023)%Q -> exists r, Num.round q = Fin r.
Proof.
  intros Hq. rewrite round_unfold.
  destruct (Qle_bool (2 ^ 1024) (round_abs q)) eqn:E; [| by eexists].
  exfalso. apply Qle_bool_iff in E.
  destruct (Qeq_dec q 0) as [Hz | Hnz].
  - rewrite (round_abs_zero q Hz) in E. pose proof (Qpow2_pos 1024). lra.
  - pose proof (round_abs_near q) as Hn. apply Qabs_Qle_condition in Hn.
    pose proof (round_ulp_small q Hnz) as Hu.
    pose proof (Qabs_nonneg q) as Hq0.
    assert (H52 : (2 ^ (-52) <= 1)%Q) by (vm_compute; discriminate).
    assert (H1074 : (2 ^ (-1074) <= 1)%Q) by (vm_compute; discriminate).
    assert (H1024 : (2 ^ 1024 == 2 * 2 ^ 1023)%Q) by (vm_compute; reflexivity).
    assert (H1023 : (4 <= 2 ^ 1023)%Q) by (vm_compute; discriminate).
    revert Hn Hu E Hq H52 H1074 H1024 H1023.
    generalize (round_abs q) (round_ulp q) (2 ^ (-52))%Q (2 ^ (-1074))%Q
      (2 ^ 1024)%Q (2 ^ 1023)%Q (Qabs q) Hq0.
    intros r u c52 c1074 c1024 c1023 a. intros. nra.
Qed.

(** Integers below [2 ^ 53] in magnitude are doubles: rounding keeps them. *)
Lemma round_Z (q : Q) (z : Z) :
  (q == inject_Z z)%Q -> (Z.abs z < 2 ^ 53)%Z -> Num.round q = Fin (inject_Z z).
Proof.
  intros Hq Hz.
  assert (Ha : (Qabs q == inject_Z (Z.abs z))%Q).
  { rewrite Hq. unfold Qabs, inject_Z. reflexivity. }
  assert (Hr : (round_abs q == inject_Z (Z.abs z))%Q).
  { destruct (Z.eq_dec z 0%Z) as [-> | Hnz].
    { rewrite (round_abs_zero q Hq). reflexivity. }
    assert (Hpos : (0 < Qabs q)%Q).
    { rewrite Ha. change 0%Q with (inject_Z 0). rewrite <- Zlt_Qlt. lia. }
    assert (He : (round_exp q <= 52)%Z).
    { unfold round_exp. apply Z.max_lub; [| lia].
      pose proof (Qlog2_lower _ Hpos) as Hl.
      assert (Hlt : (2 ^ Num.Qlog2 (Qabs q) < 2 ^ 53)%Q).
      { eapply Qle_lt_trans; [exact Hl |]. rewrite Ha, <- Qpow2_Z by lia.
        rewrite <- Zlt_Qlt. exact Hz. }
      apply Qpower_lt_compat_l_inv in Hlt; [lia | reflexivity]. }
    unfold round_abs, round_ulp. set (e := round_exp q) in *.
    assert (Hu : (2 ^ (e - 52) == / inject_Z (2 ^ (52 - e)))%Q).
    { rewrite Qpow2_Z by lia. rewrite <- Qpower_opp. by replace (- (52 - e))%Z with (e - 52)%Z by lia. }
    assert (Hp : (0 < inject_Z (2 ^ (52 - e)))%Q).
    { change 0%Q with (inject_Z 0). rewrite <- Zlt_Qlt. apply Z.pow_pos_nonneg; lia. }
    rewrite (Qnearest_even_Z _ (Z.abs z * 2 ^ (52 - e))).
    - rewrite Hu, inject_Z_mult. field. lra.
    - rewrite Ha, Hu, inject_Z_mult. field. lra. }
  rewrite round_unfold.
  assert (Hfin : Qle_bool (2 ^ 1024) (round_abs q) = false).
  { destruct (Qle_bool _ _) eqn:E; [| reflexivity]. exfalso.
    apply Qle_bool_iff in E. rewrite Hr, <- Qpow2_Z in E by lia.
    rewrite <- Zle_Qle in E.
    assert (2 ^ 53 < 2 ^ 1024)%Z by (apply Z.pow_lt_mono_r; lia). lia. }
  rewrite Hfin. f_equal. apply Qred_Z.
  destruct (Qle_bool 0 q) eqn:E.
  - apply Qle_bool_iff in E. rewrite Hq in E. change 0%Q with (inject_Z 0) in E.
    rewrite <- Zle_Qle in E. rewrite Hr. by rewrite Z.abs_eq.
  - assert (Hneg : (z < 0)%Z).
    { destruct (Z.lt_ge_cases z 0%Z) as [Hlt | Hge]; [exact Hlt |].
      exfalso. assert (Qle_bool 0 q = true); [| congruence].
      apply Qle_bool_iff. rewrite Hq. change 0%Q with (inject_Z 0).
      by rewrite <- Zle_Qle. }
    rewrite Hr, Z.abs_neq by lia. rewrite inject_Z_opp. ring.
Qed.

(** In the range of normal numbers, rounding changes a number by at most
    [2 ^ -53] of its magnitude. *)
Lemma round_error (q : Q) :
  (2 ^ (-1022) <= Qabs q)%Q -> (Qabs q <= 2 ^ 1023)%Q ->
  exists r, Num.round q = Fin r /\ (Qabs (r - q) <= Qabs q * 2 ^ (-53))%Q.
Proof.
  intros Hlo Hhi. destruct (round_finite q Hhi) as [r Hr]. exists r. split; [exact Hr |].
  rewrite round_unfold in Hr.
  destruct (Qle_bool (2 ^ 1024) (round_abs q)); [destruct (Qle_bool 0 q); discriminate |].
  injection Hr as <-.
  pose proof (round_abs_near q) as Hn. pose proof (round_ulp_le q Hlo) as Hu.
  assert (H53 : (2 ^ (-52) * (1 # 2) == 2 ^ (-53))%Q) by (vm_compute; reflexivity).
  assert (Hb : (Qabs (round_abs q - Qabs q) <= Qabs q * 2 ^ (-53))%Q).
  { rewrite <- H53. eapply Qle_trans; [exact Hn |].
    rewrite Qmult_assoc. apply Qmult_le_compat_r; [exact Hu | discriminate]. }
  rewrite Qred_correct.
  destruct (Qle_bool 0 q) eqn:E.
  - apply Qle_bool_iff in E. rewrite (Qabs_pos q E) in Hb at 1. exact Hb.
  - assert (Hneg : (q <= 0)%Q).
    { destruct (Qlt_le_dec 0 q) as [Hlt | Hle]; [| exact Hle].
      exfalso. assert (Qle_bool 0 q = true); [| congruence].
      apply Qle_bool_iff. lra. }
    rewrite (Qabs_neg q Hneg) in Hb at 1.
    rewrite <- Qabs_opp.
    assert (Heq : (- (- round_abs q - q) == round_abs q - - q)%Q) by ring.
    by rewrite Heq.
Qed.

(** Up to magnitude [2 ^ 1023], rounding changes a number by at most
    [2 ^ -53] of its magnitude and [2 ^ -1075]. *)
Lemma round_close (q : Q) :
  (Qabs q <= 2 ^ 1023)%Q ->
  exists r, Num.round q = Fin r
            /\ (Qabs (r - q) <= Qabs q * 2 ^ (-53) + 2 ^ (-1075))%Q.
Proof.
  intros Hhi. destruct (round_finite q Hhi) as [r Hr]. exists r. split; [exact Hr |].
  rewrite round_unfold in Hr.
  destruct (Qle_bool (2 ^ 1024) (round_abs q)); [destruct (Qle_bool 0 q); discriminate |].
  injection Hr as <-.
  assert (Hb : (Qabs (round_abs q - Qabs q) <= Qabs q * 2 ^ (-53) + 2 ^ (-1075))%Q).
  { destruct (Qeq_dec q 0) as [Hz | Hnz].
    - rewrite (round_abs_zero q Hz), Hz. vm_compute. discriminate.
    - pose proof (round_abs_near q) as Hn. pose proof (round_ulp_small q Hnz) as Hu.
      assert (H53 : (2 ^ (-52) * (1 # 2) == 2 ^ (-53))%Q) by (vm_compute; reflexivity).
      assert (H1075 : (2 ^ (-1074) * (1 # 2) == 2 ^ (-1075))%Q) by (vm_compute; reflexivity).
      rewrite <- H53, <- H1075. eapply Qle_trans; [exact Hn |].
      rewrite Qmult_assoc, <- Qmult_plus_distr_l.
      apply Qmult_le_compat_r; [exact Hu | discriminate]. }
  rewrite Qred_correct.
  destruct (Qle_bool 0 q) eqn:E.
  - apply Qle_bool_iff in E. rewrite (Qabs_pos q E) in Hb at 1. exact Hb.
  - assert (Hneg : (q <= 0)%Q).
    { destruct (Qlt_le_dec 0 q) as [Hlt | Hle]; [| exact Hle].
      exfalso. assert (Qle_bool 0 q = true); [| congruence].
      apply Qle_bool_iff. lra. }
    rewrite (Qabs_neg q Hneg) in Hb at 1.
    rewrite <- Qabs_opp.
    assert (Heq : (- (- round_abs q - q) == round_abs q - - q)%Q) by ring.
    by rewrite Heq.
Qed.

(** ** Sorting *)

Section SortFacts.
Context {A : Type} (before : A -> A -> bool).

Lemma sort_insert_perm (x : A) (l : list A) : sort_insert before x l ≡ₚ x :: l.
Proof.
  induction l as [|y l IH]; simpl; [reflexivity |].
  destruct (before y x); [| reflexivity].
  rewrite IH. apply Permutation_swap.
Qed.

Lemma stable_sort_perm (l : list A) : stable_sort before l ≡ₚ l.
Proof.
  induction l as [|x l IH]; simpl; [reflexivity |].
  rewrite sort_insert_perm. by rewrite IH.
Qed.

Lemma stable_sort_length (l : list A) : length (stable_sort before l) = length l.
Proof. apply Permutation_length, stable_sort_perm. Qed.

Lemma elem_of_stable_sort (x : A) (l : list A) : x ∈ stable_sort before l <-> x ∈ l.
Proof. by rewrite stable_sort_perm. Qed.

Section Ordered.
Context (R : relation A) (P : A -> Prop).
Context (R_trans : Transitive R).
Context (before_R : forall a b, P a -> P b -> before a b = true -> R a b).
Context (not_before_R : forall a b, P a -> P b -> before a b = false -> R b a).

Lemma sort_insert_sorted (x : A) (l : list A) :
  P x -> Forall P l -> StronglySorted R l -> StronglySorted R (sort_insert before x l).
Proof using R_trans before_R not_before_R.
  intros Hx HP Hs. induction l as [|y l IH]; simpl.
  - repeat constructor.
  - inversion HP as [|? ? Hy HPl]; subst.
    inversion Hs as [|? ? Hsl Hyl]; subst.
    destruct (before y x) eqn:E.
    + constructor; [by apply IH |].
      rewrite sort_insert_perm. constructor; [by apply before_R | exact Hyl].
    + assert (Hxy : R x y) by (by apply not_before_R).
      constructor; [by constructor |].
      constructor; [exact Hxy |].
      eapply Forall_impl; [exact Hyl |]. intros z Hz. by transitivity y.
Qed.

Lemma stable_sort_sorted (l : list A) :
  Forall P l -> StronglySorted R (stable_sort before l).
Proof using R_trans before_R not_before_R.
  induction l as [|x l IH]; simpl; intros HP.
  - constructor.
  - inversion HP; subst. apply sort_insert_sorted; [done | | by apply IH].
    by rewrite stable_sort_perm.
Qed.

End Ordered.

(** A list that is already in order comes back as it is. *)
Lemma stable_sort_id (R : relation A) (l : list A) :
  (forall a b, R a b -> before b a = false) ->
  Sorted R l -> stable_sort before l = l.
Proof.
  intros HR Hs. induction Hs as [|x l Hs IH Hhd]; simpl; [reflexivity |].
  rewrite IH. destruct Hhd as [|y l' Hxy]; simpl; [reflexivity |].
  by rewrite (HR _ _ Hxy).
Qed.

End SortFacts.

(** ** Callbacks that may throw *)

Lemma mapM_Ok_elem {A B : Type} (f : A -> result B) (l : list A) (ys : list B) (y : B) :
  mapM f l = Ok ys -> y ∈ ys -> exists x, x ∈ l /\ f x = Ok y.
Proof.
  revert ys. induction l as [|x l IH]; cbn; intros ys Hm Hy.
  - injection Hm as <-. by apply elem_of_nil in Hy.
  - destruct (f x) as [y0|e] eqn:Hfx; cbn in Hm; [| discriminate].
    destruct (mapM f l) as [ys0|e] eqn:Hl; cbn in Hm; [| discriminate].
    injection Hm as <-. apply elem_of_cons in Hy as [-> | Hy].
    + exists x. split; [left | done].
    + destruct (IH ys0 eq_refl Hy) as (x' & Hin & Hfx'). exists x'. split; [by right | done].
Qed.

Lemma mapM_Throw {A B : Type} (f : A -> result B) (l : list A) (x : A) (e : exn) :
  x ∈ l -> f x = Throw e -> exists e', mapM f l = Throw e'.
Proof.
  induction l as [|x0 l IH]; intros Hin Hfx.
  - by apply elem_of_nil in Hin.
  - cbn. apply elem_of_cons in Hin as [<- | Hin].
    + rewrite Hfx. cbn. eauto.
    + destruct (f x0); cbn; [| eauto].
      destruct (IH Hin Hfx) as [e' ->]. cbn. eauto.
Qed.


(** An invariant of the accumulator of a [forEach] loop. *)
Lemma foldM_invariant {A S : Type} (I : S -> Prop) (f : S -> A -> result S)
    (l : list A) (s s' : S) :
  (forall s0 x s1, I s0 -> x ∈ l -> f s0 x = Ok s1 -> I s1) ->
  I s -> foldM f s l = Ok s' -> I s'.
Proof.
  revert s. induction l as [|x l IH]; cbn; intros s Hstep Hs Hf.
  - by injection Hf as <-.
  - destruct (f s x) as [s1|e] eqn:Hfx; cbn in Hf; [| discriminate].
    apply (IH s1); [| | done].
    + intros s0 y s2 H0 Hy. apply Hstep; [done | by right].
    + apply (Hstep s x); [done | left | done].
Qed.

(** ** The cache store *)

Section CacheFacts.
Context `{JsRuntime}.

Lemma loadFromCache_entry (st : storage) (now written : Z) (key : string)
    (data : JsVal) (ttl : option number) :
  st !! key = Some (Json (cache_payload written data)) ->
  truthy data = true ->
  loadFromCache st now key ttl =
    match ttl with
    | Some limit =>
        if Num.gt (entry_age now written) limit then None
        else Some (data, entry_age now written)
    | None => Some (data, entry_age now written)
    end.
Proof.
  intros Hst Hdata. unfold loadFromCache, loadFromCache_body. rewrite Hst.
  cbn. rewrite Hdata. cbn.
  destruct ttl as [limit|]; [| reflexivity].
  by destruct (Num.gt _ limit).
Qed.

Lemma same_not_gt (a b : number) : Num.same a b = true -> Num.gt a b = false.
Proof.
  destruct a as [| | |x], b as [| | |y]; simpl; try discriminate; try reflexivity.
  intros E. apply Qeq_bool_iff in E. apply Qltb_ge. rewrite E. apply Qle_refl.
Qed.

(** C7.  For a stored entry [{ timestamp: written, data }] read at clock
    [now], so of age [now - written]: with a TTL, [loadFromCache] returns
    absent exactly when [age > ttl]; an entry whose age equals the TTL is
    returned (with its age); with [ttl = null] the entry is returned with its
    age whatever the age is. *)
Theorem loadFromCache_ttl (st : storage) (now written : Z) (key : string)
    (data : JsVal) (ttl : number) :
  st !! key = Some (Json (cache_payload written data)) ->
  truthy data = true ->
  (loadFromCache st now key (Some ttl) = None
     <-> Num.gt (entry_age now written) ttl = true)
  /\ (Num.gt (entry_age now written) ttl = false ->
      loadFromCache st now key (Some ttl) = Some (data, entry_age now written))
  /\ (Num.same (entry_age now written) ttl = true ->
      loadFromCache st now key (Some ttl) = Some (data, entry_age now written))
  /\ loadFromCache st now key None = Some (data, entry_age now written).
Proof.
  intros Hst Hdata.
  pose proof (loadFromCache_entry st now written key data (Some ttl) Hst Hdata) as Ht.
  pose proof (loadFromCache_entry st now written key data None Hst Hdata) as Hn.
  cbv beta iota in Ht, Hn. rewrite Ht, Hn. repeat split.
  - by destruct (Num.gt (entry_age now written) ttl).
  - by intros ->.
  - by intros ->.
  - intros Hsame. by rewrite (same_not_gt _ _ Hsame).
Qed.

(** What [saveToCache] leaves under the key, when the write goes through. *)
Lemma saveToCache_lookup (st : storage) (now : Z) (key : string) (data data' : JsVal) :
  json_value data = Some data' ->
  saveToCache true st now key data !! key = Some (Json (cache_payload now data')).
Proof.
  intros Hd. unfold saveToCache. cbn [json_value]. rewrite Hd. cbn.
  by rewrite lookup_insert_eq.
Qed.

Lemma saveToCache_other (q : bool) (st : storage) (now : Z) (key key' : string)
    (data : JsVal) :
  key <> key' -> saveToCache q st now key data !! key' = st !! key'.
Proof.
  intros Hne. unfold saveToCache. destruct q; [| reflexivity].
  destruct (json_value _); [| reflexivity]. by rewrite lookup_insert_ne.
Qed.

End CacheFacts.

(** ** [fetchVNIndexData] *)

Section IndexFetcher.
Context `{JsRuntime}.

Lemma loadFromCache_Some_inv (st : storage) (now : Z) (key : string)
    (ttl : option number) (data : JsVal) (age : number) :
  loadFromCache st now key ttl = Some (data, age) ->
  exists payload,
    st !! key = Some (Json payload) /\ get payload "data" = Ok data /\ truthy data = true.
Proof.
  unfold loadFromCache, loadFromCache_body.
  destruct (st !! key) as [[|payload]|] eqn:Hst; try discriminate.
  destruct (truthy payload); cbn; [| discriminate].
  destruct (get payload "data") as [d|e] eqn:Hget; cbn; [| discriminate].
  destruct (truthy d) eqn:Hd; cbn; [| discriminate].
  destruct (get payload "timestamp") as [w|e]; cbn; [| discriminate].
  intros Hload. exists payload.
  destruct ttl as [limit|]; [destruct (Num.gt _ limit); [discriminate |] |];
    injection Hload as <- _; auto.
Qed.

Lemma loadFromCache_list (st : storage) (now : Z) (key : string)
    (ttl : option number) (data : JsVal) (age : number) :
  holds_list st key ->
  loadFromCache st now key ttl = Some (data, age) -> exists l, data = JArr l.
Proof.
  intros Hl Hload.
  destruct (loadFromCache_Some_inv _ _ _ _ _ _ Hload) as (payload & Hst & Hget & Ht).
  specialize (Hl payload data Hst Hget Ht). destruct data; try discriminate. eauto.
Qed.

Lemma vnindex_try_list (fetched : result JsVal) (q : bool) (st : storage)
    (later : Z) (key : string) (v : JsVal) (st' : storage) :
  vnindex_try fetched q st later key = Ok (v, st') -> exists l, v = JArr l.
Proof.
  unfold vnindex_try. destruct fetched as [data|e]; cbn; [| discriminate].
  destruct (truthy data); cbn; [| discriminate].
  destruct (parseVNIndexData data) as [parsed|e]; cbn; [| discriminate].
  intros [= <- _]. eauto.
Qed.

Lemma fetchWithFallback_failed (net : Network) (req : request) :
  direct net req = None -> proxy net req = None ->
  exists e, fst (fetchWithFallback net req) = Throw e.
Proof. intros Hd Hp. unfold fetchWithFallback. rewrite Hd, Hp. eauto. Qed.

(** C8.  [fetchVNIndexData] never raises: whatever the url, the storage, the
    clock and the network do, its promise is fulfilled.  When nothing fresh
    is cached and the [try] block fails -- both transport attempts fail, the
    body is empty, or parsing throws -- it is fulfilled with the stale entry
    of the key (read with no TTL) if there is one and with [[]] otherwise,
    and storage is left as it was.  The value is a list whenever what is
    stored under the key is one. *)
Theorem fetchVNIndexData_total (net : Network) (quota_ok : bool) (st : storage)
    (now later : Z) (url : option string) :
  let key := vnindex_key url in
  let req := IndexSeries (vnindex_target url) in
  let o := fetchVNIndexData net quota_ok st now later url in
  (exists v, settled o = Ok v)
  /\ (forall e,
        loadFromCache st now key (Some VNINDEX_TTL) = None ->
        vnindex_try (fst (fetchWithFallback net req)) quota_ok st later key = Throw e ->
        settled o = Ok (vnindex_fallback st later key) /\ store o = st)
  /\ (loadFromCache st now key (Some VNINDEX_TTL) = None ->
      direct net req = None -> proxy net req = None ->
      settled o = Ok (vnindex_fallback st later key) /\ store o = st)
  /\ (forall data age,
        loadFromCache st later key None = Some (data, age) ->
        vnindex_fallback st later key = data)
  /\ (loadFromCache st later key None = None -> vnindex_fallback st later key = JArr [])
  /\ (holds_list st key -> exists l, settled o = Ok (JArr l)).
Proof.
  intros key req o.
  assert (Hfail : forall e,
    loadFromCache st now key (Some VNINDEX_TTL) = None ->
    vnindex_try (fst (fetchWithFallback net req)) quota_ok st later key = Throw e ->
    settled o = Ok (vnindex_fallback st later key) /\ store o = st).
  { intros e Hfresh Htry. subst o. unfold fetchVNIndexData.
    fold (vnindex_key url). fold key. fold req. rewrite Hfresh.
    destruct (fetchWithFallback net req) as [fetched log]. cbn in Htry.
    rewrite Htry. cbn. auto. }
  repeat split.
  - subst o. unfold fetchVNIndexData. fold (vnindex_key url). fold key. fold req.
    destruct (loadFromCache st now key (Some VNINDEX_TTL)) as [[data age]|]; [cbn; eauto |].
    destruct (fetchWithFallback net req) as [fetched log].
    destruct (vnindex_try fetched quota_ok st later key) as [[v st']|e]; cbn; eauto.
  - by apply (Hfail e).
  - by apply (Hfail e).
  - destruct (fetchWithFallback_failed net req) as [e He]; [done | done |].
    apply (Hfail e); [done |]. rewrite He. reflexivity.
  - destruct (fetchWithFallback_failed net req) as [e He]; [done | done |].
    apply (Hfail e); [done |]. rewrite He. reflexivity.
  - intros data age Hload. unfold vnindex_fallback. by rewrite Hload.
  - intros Hload. unfold vnindex_fallback. by rewrite Hload.
  - intros Hlist. subst o. unfold fetchVNIndexData.
    fold (vnindex_key url). fold key. fold req.
    destruct (loadFromCache st now key (Some VNINDEX_TTL)) as [[data age]|] eqn:Hfresh.
    + destruct (loadFromCache_list _ _ _ _ _ _ Hlist Hfresh) as [l ->]. cbn. eauto.
    + destruct (fetchWithFallback net req) as [fetched log].
      destruct (vnindex_try fetched quota_ok st later key) as [[v st']|e] eqn:Htry; cbn.
      * destruct (vnindex_try_list _ _ _ _ _ _ _ Htry) as [l ->]. eauto.
      * unfold vnindex_fallback.
        destruct (loadFromCache st later key None) as [[data age]|] eqn:Hstale; [| eauto].
        destruct (loadFromCache_list _ _ _ _ _ _ Hlist Hstale) as [l ->]. eauto.
Qed.

End IndexFetcher.

(** ** The breadth mappers *)

Lemma lookup_set_prop_eq (k : string) (v : JsVal) (props : list (string * JsVal)) :
  lookup_prop k (set_prop k v props) = Some v.
Proof.
  induction props as [|[k' v'] props IH]; cbn.
  - by rewrite String.eqb_refl.
  - destruct (String.eqb k k') eqn:E; cbn.
    + by rewrite String.eqb_refl.
    + by rewrite E.
Qed.

Lemma lookup_set_prop_ne (k k' : string) (v : JsVal) (props : list (string * JsVal)) :
  k <> k' -> lookup_prop k' (set_prop k v props) = lookup_prop k' props.
Proof.
  intros Hne. induction props as [|[k0 v0] props IH]; cbn.
  - apply String.eqb_neq in Hne. rewrite String.eqb_sym in Hne. by rewrite Hne.
  - destruct (String.eqb k k0) eqn:E; cbn.
    + apply String.eqb_eq in E as <-.
      apply String.eqb_neq in Hne. rewrite String.eqb_sym in Hne. by rewrite Hne.
    + by rewrite IH.
Qed.

Section Mappers.
Context `{JsRuntime}.

Lemma to_number_num (n : number) : to_number (JNum n) = n.
Proof. reflexivity. Qed.

Lemma gt_zero_compare (y : Q) :
  Num.gt (Fin y) Num.zero = true -> (y ?= 0)%Q = Gt.
Proof.
  unfold Num.gt, Num.zero, Num.of_Z. cbn. intros E. apply Qltb_lt in E.
  apply Qgt_alt. exact E.
Qed.

Lemma div_finite (c t : Q) :
  Num.gt (Fin t) Num.zero = true -> Num.div (Fin c) (Fin t) = Num.round (c / t).
Proof. intros Hgt. unfold Num.div. by rewrite (gt_zero_compare t Hgt). Qed.

Lemma mul_hundred (y : Q) : Num.mul (Fin y) hundred = Num.round (y * 100).
Proof. reflexivity. Qed.

(** The percentage is [100 * count / total] up to its two roundings. *)
Lemma calc_rounded (t c : Q) :
  Num.gt (Fin t) Num.zero = true ->
  rounded_percentage t c (Num.mul (Num.div (Fin c) (Fin t)) hundred).
Proof.
  intros Hgt. rewrite (div_finite c t Hgt).
  assert (Ht : (0 < t)%Q).
  { apply gt_zero_compare in Hgt. by apply Qgt_alt. }
  split.
  - intros Hc. rewrite (round_Z (c / t) 0).
    + rewrite mul_hundred. apply (round_Z _ 0); [reflexivity | reflexivity].
    + rewrite Hc. unfold Qdiv. ring.
    + reflexivity.
  - intros Hlo Hhi.
    assert (Hhi' : (Qabs (c / t) <= 2 ^ 1023)%Q).
    { eapply Qle_trans; [exact Hhi |]. vm_compute. discriminate. }
    destruct (round_error (c / t) Hlo Hhi') as (y & -> & Hy).
    rewrite mul_hundred.
    pose proof (Qabs_triangle (c / t) (y - c / t)) as Hup.
    pose proof (Qabs_triangle y (- (y - c / t))) as Hdown.
    rewrite Qabs_opp in Hdown.
    assert (E1 : (c / t + (y - c / t) == y)%Q) by ring.
    assert (E2 : (y + - (y - c / t) == c / t)%Q) by ring.
    rewrite E1 in Hup. rewrite E2 in Hdown.
    assert (Hy100 : (Qabs (y * 100) == 100 * Qabs y)%Q).
    { rewrite Qabs_Qmult. change (Qabs 100) with 100%Q. ring. }
    assert (Hu : (2 ^ (-53) <= 1 # 2)%Q) by (vm_compute; discriminate).
    assert (Hu0 : (0 < 2 ^ (-53))%Q) by reflexivity.
    pose proof (Qabs_nonneg (c / t)) as Hx0.
    assert (H1000 : (200 * 2 ^ 1000 <= 2 ^ 1023)%Q) by (vm_compute; discriminate).
    destruct (round_error (y * 100)) as (m & -> & Hm).
    { rewrite Hy100. revert Hlo Hy Hup Hdown Hu Hu0 Hx0.
      generalize (Qabs (c / t)) (Qabs y) (Qabs (y - c / t)) (2 ^ (-1022))%Q (2 ^ (-53))%Q.
      intros ax ay d lo u. intros. nra. }
    { rewrite Hy100. revert Hhi Hy Hup Hdown Hu Hu0 Hx0 H1000.
      generalize (Qabs (c / t)) (Qabs y) (Qabs (y - c / t)) (2 ^ 1000)%Q (2 ^ 1023)%Q
        (2 ^ (-53))%Q.
      intros ax ay d hi top u. intros. nra. }
    exists m. split; [reflexivity |].
    assert (E3 : (100 * c / t == 100 * (c / t))%Q) by (field; lra).
    rewrite E3.
    pose proof (Qabs_triangle (m - y * 100) (100 * (y - c / t))) as Htri.
    assert (E4 : (m - y * 100 + 100 * (y - c / t) == m - 100 * (c / t))%Q) by ring.
    rewrite E4 in Htri.
    assert (He : (Qabs (100 * (y - c / t)) == 100 * Qabs (y - c / t))%Q).
    { rewrite Qabs_Qmult. change (Qabs 100) with 100%Q. ring. }
    assert (Hx100 : (Qabs (100 * (c / t)) == 100 * Qabs (c / t))%Q).
    { rewrite Qabs_Qmult. change (Qabs 100) with 100%Q. ring. }
    rewrite He in Htri. rewrite Hy100 in Hm. rewrite Hx100.
    assert (Hsum : (2 ^ (-52) + 2 ^ (-106) == 2 * 2 ^ (-53) + 2 ^ (-53) * 2 ^ (-53))%Q)
      by (vm_compute; reflexivity).
    rewrite Hsum.
    revert Hy Hm Hup Htri Hu0 Hx0.
    generalize (Qabs (c / t)) (Qabs y) (Qabs (y - c / t)) (Qabs (m - y * 100))
      (Qabs (m - 100 * (c / t))) (2 ^ (-53))%Q.
    intros ax ay d1 d2 T u. intros. nra.
Qed.

Lemma calc_percentage (total c : number) : percentage_of total c (calc total c).
Proof.
  unfold percentage_of, calc. split; intros Hgt; rewrite Hgt; [| reflexivity].
  split; [reflexivity |]. intros t x -> ->. by apply calc_rounded.
Qed.

(** *** [mapBreadthData] *)

Lemma mapBreadthData_item_invariant (item p : JsVal) :
  mapBreadthData_item item = Ok p -> breadth_invariant p.
Proof.
  unfold mapBreadthData_item. intros Hp. bind_inv Hp. injection Hp as <-.
  unfold breadth_invariant. do 7 eexists.
  do 7 (split; [reflexivity |]). split; [| split]; apply calc_percentage.
Qed.

Lemma mapBreadthData_elem (data points : list JsVal) (p : JsVal) :
  mapBreadthData data = Ok points -> p ∈ points ->
  Num.gt (to_number (timestamp_of p)) Num.zero = true
  /\ exists item, item ∈ data /\ mapBreadthData_item item = Ok p.
Proof.
  unfold mapBreadthData. intros Hm Hp. bind_inv Hm. injection Hm as <-.
  apply list_elem_of_In, filter_In in Hp as [Hp Hpos].
  apply list_elem_of_In in Hp. split; [exact Hpos |].
  by eapply mapM_Ok_elem.
Qed.

Lemma mapBreadthData_invariant (data points : list JsVal) :
  mapBreadthData data = Ok points -> Forall breadth_invariant points.
Proof.
  intros Hm. apply Forall_forall. intros p Hp.
  destruct (mapBreadthData_elem _ _ _ Hm Hp) as (_ & item & _ & Hitem).
  by eapply mapBreadthData_item_invariant.
Qed.

(** *** [mapComplexBreadthData] *)

Lemma set_prop_numeric (k k' : string) (n : number) (e : list (string * JsVal)) :
  numeric_if_present k e -> numeric_if_present k (set_prop k' (JNum n) e).
Proof.
  intros Hk. unfold numeric_if_present. destruct (decide (k' = k)) as [-> | Hne].
  - right. exists n. apply lookup_set_prop_eq.
  - by rewrite lookup_set_prop_ne.
Qed.

Lemma set_prop_total (k' : string) (n : number) (e : list (string * JsVal)) :
  (exists m, lookup_prop "total" e = Some (JNum m)) ->
  exists m, lookup_prop "total" (set_prop k' (JNum n) e) = Some (JNum m).
Proof.
  intros Ht. destruct (decide (k' = "total")) as [-> | Hne].
  - exists n. apply lookup_set_prop_eq.
  - by rewrite lookup_set_prop_ne.
Qed.

Lemma set_prop_entry_ok (k : string) (n : number) (e : list (string * JsVal)) :
  entry_ok e -> entry_ok (set_prop k (JNum n) e).
Proof.
  intros (Ht & H20 & H50 & H200).
  repeat split; auto using set_prop_total, set_prop_numeric.
Qed.

Lemma map_upsert_Forall {V : Type} (P : V -> Prop) (k : JsVal) (init : V)
    (f : V -> V) (m : list (JsVal * V)) :
  P (f init) -> (forall v, P v -> P (f v)) ->
  Forall P (map_values m) -> Forall P (map_values (map_upsert k init f m)).
Proof.
  intros Hinit Hf. induction m as [|[k' v'] m IH]; cbn; intros Hm.
  - by constructor.
  - inversion Hm as [|? ? Hv Hrest]; subst.
    destruct (same_value_zero k' k); cbn; constructor; auto.
Qed.

Lemma mergeSeries_item_ok (countProp : string)
    (merged merged' : list (JsVal * list (string * JsVal))) (item : JsVal) :
  Forall entry_ok (map_values merged) ->
  mergeSeries_item countProp merged item = Ok merged' ->
  Forall entry_ok (map_values merged').
Proof.
  unfold mergeSeries_item. intros Hm Hs. bind_inv Hs. injection Hs as <-.
  assert (Hinit : forall date, entry_ok [("date", date); ("total", JNum Num.zero)]).
  { intros date. repeat split; [by eexists | by left ..]. }
  apply map_upsert_Forall; [| | exact Hm].
  - apply set_prop_entry_ok. destruct (truthy _); [apply set_prop_entry_ok |]; apply Hinit.
  - intros e He. apply set_prop_entry_ok.
    destruct (truthy _); [by apply set_prop_entry_ok | done].
Qed.

Lemma mergeSeries_ok (dataObj : JsVal) (key countProp : string)
    (merged merged' : list (JsVal * list (string * JsVal))) :
  Forall entry_ok (map_values merged) ->
  mergeSeries dataObj key countProp merged = Ok merged' ->
  Forall entry_ok (map_values merged').
Proof.
  unfold mergeSeries. intros Hm Hs.
  destruct (get dataObj key) as [series|e]; cbn [bind] in Hs; [| discriminate].
  destruct series; try (by injection Hs as <-).
  eapply (foldM_invariant (fun m => Forall entry_ok (map_values m))); [| exact Hm | exact Hs].
  intros s0 x s1 H0 _. by apply mergeSeries_item_ok.
Qed.

Lemma js_or_zero_num (v : JsVal) :
  (v = JUndefined \/ exists n, v = JNum n) ->
  exists n, js_or v (JNum Num.zero) = JNum n.
Proof.
  intros [-> | [n ->]]; unfold js_or.
  - by eexists.
  - destruct (truthy (JNum n)); by eexists.
Qed.

Lemma numeric_if_present_prop (k : string) (e : list (string * JsVal)) :
  numeric_if_present k e -> prop_of e k = JUndefined \/ exists n, prop_of e k = JNum n.
Proof.
  unfold prop_of. intros [-> | [n ->]]; [by left | right; by eexists].
Qed.

Lemma complex_point_invariant (e : list (string * JsVal)) :
  entry_ok e -> breadth_invariant (complex_point e).
Proof.
  intros ([n Ht] & H20 & H50 & H200).
  destruct (js_or_zero_num (prop_of e "total")) as [total Htotal].
  { right. exists n. unfold prop_of. by rewrite Ht. }
  destruct (js_or_zero_num _ (numeric_if_present_prop _ _ H20)) as [c20 Hc20].
  destruct (js_or_zero_num _ (numeric_if_present_prop _ _ H50)) as [c50 Hc50].
  destruct (js_or_zero_num _ (numeric_if_present_prop _ _ H200)) as [c200 Hc200].
  unfold complex_point. rewrite Htotal, Hc20, Hc50, Hc200, !to_number_num.
  unfold breadth_invariant. do 7 eexists.
  do 7 (split; [reflexivity |]). split; [| split]; apply calc_percentage.
Qed.

Lemma mapComplexBreadthData_invariant (dataObj : JsVal) (points : list JsVal) :
  mapComplexBreadthData dataObj = Ok points -> Forall breadth_invariant points.
Proof.
  unfold mapComplexBreadthData. intros Hm.
  destruct (mergeSeries dataObj "ma20" "count20" []) as [m1|e] eqn:E1;
    cbn [bind] in Hm; [| discriminate].
  destruct (mergeSeries dataObj "ma50" "count50" m1) as [m2|e] eqn:E2;
    cbn [bind] in Hm; [| discriminate].
  destruct (mergeSeries dataObj "ma200" "count200" m2) as [m3|e] eqn:E3;
    cbn [bind] in Hm; [| discriminate].
  injection Hm as <-.
  assert (H3 : Forall entry_ok (map_values m3)).
  { eapply mergeSeries_ok; [| exact E3].
    eapply mergeSeries_ok; [| exact E2].
    eapply mergeSeries_ok; [| exact E1]. constructor. }
  apply Forall_forall. intros p Hp.
  apply list_elem_of_fmap in Hp as (e & -> & He).
  apply complex_point_invariant. by eapply Forall_forall in H3.
Qed.

(** *** [processRaw] *)

(** C1, as the code has it.  What [processRaw] returns is either a flat
    upstream array handed on untouched (its first element has an [ma20]
    property, so nothing is recomputed and nothing relates its percentages to
    its counts), or the output of one of the two mappers, and then every
    point has numeric [total], counts and percentages, with
    [ma_k = (count_k / total) * 100] in double arithmetic -- the quotient
    rounded, then the product rounded -- when [total > 0], and [ma_k = 0]
    otherwise, for k in 20, 50, 200.  The rounded value is 0 for a count of
    0, and is within a relative error of [2 ^ -52 + 2 ^ -106] of
    [100 * count_k / total] while the quotient is in the range of normal
    doubles. *)
Theorem processRaw_percentages (data : JsVal) (points : list JsVal) :
  processRaw data = Ok points ->
  passed_through data points \/ Forall breadth_invariant points.
Proof.
  unfold processRaw. destruct (truthy data); cbn [negb].
  2: { intros [= <-]. right. constructor. }
  destruct (get data "data") as [inner|e] eqn:Hinner; cbn [bind]; [| discriminate].
  assert (Hflat : forall raw,
    raw = (if isArray data then data else js_or inner (JArr [])) ->
    match raw with
    | JArr [] => mapBreadthData []
    | JArr ((first :: _) as items) =>
        let* mapped := has_in "ma20" first in
        if mapped then Ok items else mapBreadthData items
    | _ => Ok []
    end = Ok points ->
    passed_through data points \/ Forall breadth_invariant points).
  { intros raw Hraw Hp.
    destruct raw as [| | | | |items|]; try (injection Hp as <-; right; constructor).
    destruct items as [|first rest]; [right; by eapply mapBreadthData_invariant |].
    destruct (has_in "ma20" first) as [[|]|e] eqn:Hin; cbn [bind] in Hp;
      [| right; by eapply mapBreadthData_invariant | discriminate].
    injection Hp as <-. left. exists first, rest. split; [done |]. split; [done |].
    destruct (isArray data); [by left | right].
    rewrite Hinner. f_equal. unfold js_or in Hraw.
    destruct (truthy inner); [done | discriminate]. }
  destruct inner as [| | | | | |props]; cbn [bind]; try (by apply Hflat).
  destruct (mapComplexBreadthData (JObj props)) as [cpoints|e] eqn:Hc;
    cbn [bind]; [| discriminate].
  intros Hp. right.
  pose proof (mapComplexBreadthData_invariant _ _ Hc) as Hinv.
  destruct cpoints as [|first rest]; [by eapply mapBreadthData_invariant |].
  destruct (has_in "ma20" first) as [[|]|e]; cbn [bind] in Hp;
    [| by eapply mapBreadthData_invariant | discriminate].
  by injection Hp as <-.
Qed.

(** *** Dates in the two mappers *)

(** Every point [mapBreadthData] returns passed its final filter. *)
Lemma mapBreadthData_positive (data points : list JsVal) :
  mapBreadthData data = Ok points ->
  Forall (fun p => Num.gt (to_number (timestamp_of p)) Num.zero = true) points.
Proof.
  intros Hm. apply Forall_forall. intros p Hp.
  by destruct (mapBreadthData_elem _ _ _ Hm Hp) as [Hpos _].
Qed.

(** A record whose date is no valid time makes [toISOString] throw, and with
    it the whole of [mapBreadthData]: the filter is never reached. *)
Lemma mapBreadthData_invalid_date (data : list JsVal) (item rawDate : JsVal) :
  item ∈ data ->
  or_chain item ["date"; "Date"; "time"; "t"] = Ok rawDate ->
  Num.isFinite
    (date_getTime
       (scale_number_ms
          (if is_string rawDate then JNum (date_getTime rawDate) else rawDate))) = false ->
  exists e, mapBreadthData data = Throw e.
Proof.
  intros Hin Hraw Hbad.
  assert (Hitem : exists e, mapBreadthData_item item = Throw e).
  { unfold mapBreadthData_item. rewrite Hraw. cbn [bind].
    destruct (get item "total"); cbn [bind]; [| eauto].
    do 3 (destruct (coalesce_chain item _); cbn [bind]; [| eauto]).
    unfold iso_date.
    destruct (date_getTime _); try discriminate; cbn [bind]; eauto. }
  destruct Hitem as [e He].
  destruct (mapM_Throw _ _ _ _ Hin He) as [e' Hm].
  unfold mapBreadthData. rewrite Hm. cbn. eauto.
Qed.

(** [mapComplexBreadthData] gives a record whose date is no valid time the
    timestamp 0, and keeps it. *)
Lemma complex_point_invalid_date (e : list (string * JsVal)) :
  Num.isNaN (date_getTime (prop_of e "date")) = true ->
  get (complex_point e) "timestamp" = Ok (JNum Num.zero).
Proof. intros Hnan. unfold complex_point. cbn. by rewrite Hnan. Qed.

(** C10.  [mapBreadthData] on a two-record array whose second record has no
    date: [toISOString] throws a [RangeError] while the record is mapped,
    before the filter [d.timestamp > 0] runs, so the record is not filtered
    out -- the whole call fails and the valid first record is lost with it
    ([processRaw] propagates the exception). *)
Theorem mapBreadthData_missing_date :
  mapBreadthData
    [JObj [("date", jnum 1700000000); ("total", jnum 100); ("avg_ma20", jnum 40)];
     JObj [("total", jnum 100); ("avg_ma20", jnum 40)]]
  = Throw RangeError
  /\ processRaw
       (JArr
          [JObj [("date", jnum 1700000000); ("total", jnum 100); ("avg_ma20", jnum 40)];
           JObj [("total", jnum 100); ("avg_ma20", jnum 40)]])
     = Throw RangeError.
Proof. split; vm_compute; reflexivity. Qed.

End Mappers.

(** ** [parseVNIndexData] *)

Section Parser.
Context `{JsRuntime}.

Lemma parseVNIndexData_array (l : list JsVal) :
  parseVNIndexData (JArr l) = parse_shapes (JArr l).
Proof. reflexivity. Qed.

Lemma parseVNIndexData_wrapper (props : list (string * JsVal)) (inner : list JsVal) :
  lookup_prop "data" props = Some (JArr inner) ->
  parseVNIndexData (JObj props) = parse_shapes (JArr inner).
Proof.
  intros Hd. unfold parseVNIndexData. cbn. by rewrite Hd.
Qed.

(** The wrapper test recurses at most once: the value it recurses into is an
    array, whose [data] property is [undefined].  One unit of fuel is
    therefore as good as any larger amount, and is never used up. *)
Lemma parseVNIndexData_fuel_enough (n : nat) (data : JsVal) :
  parseVNIndexData_fuel (S n) data = parseVNIndexData data.
Proof.
  unfold parseVNIndexData. cbn [parseVNIndexData_fuel].
  destruct (negb (truthy data)); [reflexivity |].
  destruct (get data "data") as [inner|e]; cbn [bind]; [| reflexivity].
  destruct inner as [| | | | |l|]; cbn [isArray]; rewrite ?andb_false_r;
    try reflexivity.
  cbn [truthy andb]. destruct n; reflexivity.
Qed.

(** [parseVNIndexData] without its fuel: the recursion never runs out. *)
Lemma parseVNIndexData_unfold (data : JsVal) :
  parseVNIndexData data =
    if negb (truthy data) then Ok []
    else match get data "data" with
         | Ok (JArr inner) => parse_shapes (JArr inner)
         | Ok _ => parse_shapes data
         | Throw e => Throw e
         end.
Proof.
  unfold parseVNIndexData. cbn [parseVNIndexData_fuel].
  destruct (negb (truthy data)); [reflexivity |].
  destruct (get data "data") as [inner|e]; cbn [bind]; [| reflexivity].
  destruct inner as [| | | | |l|]; cbn [isArray]; rewrite ?andb_false_r; reflexivity.
Qed.


Lemma threshold_lt (t : Q) :
  Num.lt (Fin t) ms_threshold = Num.Qltb t (inject_Z 10000000000).
Proof. reflexivity. Qed.

(** The scaling step on a finite number. *)
Lemma scale_number_ms_finite (t : Q) : scale_number_ms (JNum (Fin t)) = JNum (to_ms t).
Proof.
  unfold scale_number_ms, to_ms. rewrite threshold_lt.
  by destruct (Num.Qltb t (inject_Z 10000000000)).
Qed.


(** A timestamp that is not hugely negative has a finite value in
    milliseconds. *)
Lemma to_ms_in_ms (t : Q) : scalable t -> exists ms, in_ms t ms.
Proof.
  unfold scalable, in_ms, to_ms. intros Hlo.
  destruct (Num.Qltb t (inject_Z 10000000000)) eqn:E.
  - apply Qltb_lt in E.
    change (Num.mul (Fin t) thousand) with (Num.round (t * 1000)).
    assert (Hb : (Qabs (t * 1000) <= 2 ^ 1023)%Q).
    { rewrite Qabs_Qmult. change (Qabs 1000) with 1000%Q.
      assert (Ha : (Qabs t <= 2 ^ 1000)%Q).
      { apply Qabs_Qle_condition. split; [exact Hlo |].
        apply Qlt_le_weak. eapply Qlt_le_trans; [exact E |]. vm_compute. discriminate. }
      assert (H1000 : (2 ^ 1000 * 1000 <= 2 ^ 1023)%Q) by (vm_compute; discriminate).
      eapply Qle_trans; [| exact H1000]. apply Qmult_le_compat_r; [exact Ha | discriminate]. }
    destruct (round_close (t * 1000) Hb) as (ms & Hms & Hnear).
    exists ms. split; [exact Hms |]. split.
    + assert (E1 : (1000 * t == t * 1000)%Q) by ring. by rewrite E1.
    + intros z Hz Habs.
      assert (Hlt : (z <? 10000000000)%Z = true).
      { apply Z.ltb_lt. rewrite Hz, <- Zlt_Qlt in E. exact E. }
      rewrite Hlt.
      rewrite (round_Z (t * 1000) (1000 * z)) in Hms.
      * by injection Hms as <-.
      * rewrite Hz, inject_Z_mult. change (inject_Z 1000) with 1000%Q. ring.
      * change (2 ^ 53)%Z with 9007199254740992%Z. lia.
  - apply Qltb_ge in E. exists t. split; [reflexivity |]. split; [reflexivity |].
    intros z Hz _.
    assert (Hge : (z <? 10000000000)%Z = false).
    { apply Z.ltb_ge. rewrite Hz, <- Zle_Qle in E. exact E. }
    by rewrite Hge.
Qed.










(** C3.  [parseVNIndexData] on array-of-objects input whose record has both
    fields present, the value being 0: the [||] chain skips the falsy 0, finds
    no other value key and yields [undefined], so the record is dropped; when
    a later key is present as well, that key is taken instead of the first
    present one. *)
Theorem parseVNIndexData_zero_value :
  parseVNIndexData (JArr [JObj [("t", jnum 1700000000); ("value", jnum 0)]]) = Ok []
  /\ parseVNIndexData
       (JArr [JObj [("t", jnum 1700000000); ("value", jnum 0); ("close", jnum 5)]])
     = Ok [mk_point (jnum 1700000000000) (Num.of_Z 5)].
Proof. split; vm_compute; reflexivity. Qed.

End Parser.

(** ** The merge engine *)

Section MergeEngine.
Context `{JsRuntime}.

Lemma map_get_upsert_eq {V : Type} (k : string) (init : V) (f : V -> V)
    (m : list (JsVal * V)) :
  map_get (JStr k) (map_upsert (JStr k) init f m)
  = Some (f (default init (map_get (JStr k) m))).
Proof.
  induction m as [|[k0 v0] m IH]; cbn.
  - by rewrite String.eqb_refl.
  - destruct (same_value_zero k0 (JStr k)) eqn:E; cbn; by rewrite E.
Qed.

Lemma map_get_upsert_ne {V : Type} (k k' : string) (init : V) (f : V -> V)
    (m : list (JsVal * V)) :
  k' <> k -> map_get (JStr k') (map_upsert (JStr k) init f m) = map_get (JStr k') m.
Proof.
  intros Hne. apply String.eqb_neq in Hne.
  induction m as [|[k0 v0] m IH]; cbn.
  - rewrite String.eqb_sym. by rewrite Hne.
  - destruct (same_value_zero k0 (JStr k)) eqn:E; cbn.
    + destruct k0; try discriminate. cbn in E. apply String.eqb_eq in E as ->.
      cbn. rewrite String.eqb_sym. by rewrite Hne.
    + by rewrite IH.
Qed.

Lemma prop_of_set_eq (k : string) (v : JsVal) (r : list (string * JsVal)) :
  prop_of (set_prop k v r) k = v.
Proof. unfold prop_of. by rewrite lookup_set_prop_eq. Qed.

Lemma prop_of_set_ne (k k' : string) (v : JsVal) (r : list (string * JsVal)) :
  k <> k' -> prop_of (set_prop k v r) k' = prop_of r k'.
Proof. intros Hne. unfold prop_of. by rewrite lookup_set_prop_ne. Qed.

(** One call of the [forEach] callback of an index series. *)
Lemma merge_index_step (field : string) (m m' : list (JsVal * list (string * JsVal)))
    (v : JsVal) :
  merge_index field m v = Ok m' ->
  exists ts key close,
    get v "timestamp" = Ok ts /\ getDateKey ts = Ok key /\ get v "close" = Ok close
    /\ m' = map_upsert (JStr key) (new_record ts key)
              (fun item => if negb (is_nullish close) then set_prop field close item
                           else item) m.
Proof.
  unfold merge_index. intros Hm.
  destruct (get v "timestamp") as [ts|e] eqn:Hts; cbn [bind] in Hm; [| discriminate Hm].
  destruct (getDateKey ts) as [key|e] eqn:Hkey; cbn [bind] in Hm; [| discriminate Hm].
  destruct (get v "close") as [close|e] eqn:Hclose; cbn [bind] in Hm; [| discriminate Hm].
  injection Hm as <-. by exists ts, key, close.
Qed.

Lemma timed_get (v ts : JsVal) :
  get v "timestamp" = Ok ts -> timestamp_of v = ts /\ get v "close" = Ok (close_of v).
Proof.
  intros Hts. unfold timestamp_of, close_of. rewrite Hts. split; [done |].
  by destruct v.
Qed.

(** On a point with a valid timestamp the callback does not throw. *)
Lemma merge_index_timed (field : string) (m : list (JsVal * list (string * JsVal)))
    (v ts : JsVal) (key : string) :
  get v "timestamp" = Ok ts -> getDateKey ts = Ok key ->
  merge_index field m v
  = Ok (map_upsert (JStr key) (new_record ts key)
          (fun item => if negb (is_nullish (close_of v))
                       then set_prop field (close_of v) item else item) m).
Proof.
  intros Hts Hkey. destruct (timed_get v ts Hts) as [_ Hclose].
  unfold merge_index. rewrite Hts. cbn [bind]. rewrite Hkey. cbn [bind].
  by rewrite Hclose.
Qed.

Lemma merge_breadth_timed (m : list (JsVal * list (string * JsVal)))
    (b ts : JsVal) (key : string) :
  get b "timestamp" = Ok ts -> getDateKey ts = Ok key ->
  merge_breadth m b
  = Ok (map_upsert (JStr key) (new_record ts key) (fun item => object_assign item b) m).
Proof.
  intros Hts Hkey. unfold merge_breadth. rewrite Hts. cbn [bind]. by rewrite Hkey.
Qed.

Lemma on_day_timed (day : string) (v ts : JsVal) (key : string) :
  get v "timestamp" = Ok ts -> getDateKey ts = Ok key ->
  on_day day v = String.eqb key day.
Proof.
  intros Hts Hkey. unfold on_day. destruct (timed_get v ts Hts) as [-> _]. by rewrite Hkey.
Qed.

Lemma field_on_upsert_eq (key field : string) (init : list (string * JsVal))
    (f : list (string * JsVal) -> list (string * JsVal))
    (m : list (JsVal * list (string * JsVal))) :
  field_on (map_upsert (JStr key) init f m) key field
  = prop_of (f (default init (map_get (JStr key) m))) field.
Proof. unfold field_on. by rewrite map_get_upsert_eq. Qed.

Lemma field_on_upsert_ne (key day field : string) (init : list (string * JsVal))
    (f : list (string * JsVal) -> list (string * JsVal))
    (m : list (JsVal * list (string * JsVal))) :
  day <> key -> field_on (map_upsert (JStr key) init f m) day field = field_on m day field.
Proof. intros Hne. unfold field_on. by rewrite map_get_upsert_ne. Qed.

(** A record that [getOrCreate] has just made holds no index value. *)
Lemma new_record_index (ts : JsVal) (key field : string) :
  field ∈ index_fields -> prop_of (new_record ts key) field = JUndefined.
Proof.
  unfold index_fields. rewrite !elem_of_cons, elem_of_nil.
  intros [-> | [-> | [-> | []]]]; reflexivity.
Qed.

Lemma prop_of_default_new (m : list (JsVal * list (string * JsVal)))
    (ts : JsVal) (key field : string) :
  field ∈ index_fields ->
  prop_of (default (new_record ts key) (map_get (JStr key) m)) field = field_on m key field.
Proof.
  intros Hf. unfold field_on. destruct (map_get (JStr key) m); [done |].
  by apply new_record_index.
Qed.

(** One call of the callback of an index series, seen from a day's record. *)
Lemma merge_index_field (field : string) (m m' : list (JsVal * list (string * JsVal)))
    (v : JsVal) :
  field ∈ index_fields -> timed v -> merge_index field m v = Ok m' ->
  forall day,
    field_on m' day field = (if supplies day v then close_of v else field_on m day field)
    /\ (forall f, f <> field -> f ∈ index_fields -> field_on m' day f = field_on m day f)
    /\ (forall r0, map_get (JStr day) m = Some r0 ->
          exists r', map_get (JStr day) m' = Some r'
                     /\ forall f, f <> field -> prop_of r' f = prop_of r0 f).
Proof.
  intros Hfield (ts & key & Hts & Hkey) Hm day.
  rewrite (merge_index_timed field m v ts key Hts Hkey) in Hm. injection Hm as <-.
  unfold supplies. rewrite (on_day_timed day v ts key Hts Hkey).
  destruct (String.eqb_spec key day) as [<- | Hne].
  - cbn [andb]. split; [| split].
    + rewrite field_on_upsert_eq. destruct (negb (is_nullish (close_of v))).
      * apply prop_of_set_eq.
      * by apply prop_of_default_new.
    + intros f Hf Hin. rewrite field_on_upsert_eq.
      destruct (negb (is_nullish (close_of v))).
      * rewrite prop_of_set_ne by done. by apply prop_of_default_new.
      * by apply prop_of_default_new.
    + intros r0 Hr0. rewrite map_get_upsert_eq, Hr0. cbn [default].
      eexists. split; [reflexivity |]. intros f Hf.
      destruct (negb (is_nullish (close_of v))); [by apply prop_of_set_ne | done].
  - cbn [andb]. assert (Hne' : day <> key) by congruence. split; [| split].
    + by apply field_on_upsert_ne.
    + intros f _ _. by apply field_on_upsert_ne.
    + intros r0 Hr0. exists r0. by rewrite map_get_upsert_ne.
Qed.

(** The keys a [Map] has after [getOrCreate]. *)
Lemma elem_of_map_upsert {V : Type} (k : JsVal) (init : V) (f : V -> V)
    (m : list (JsVal * V)) (e : JsVal * V) :
  e ∈ map_upsert k init f m -> e.1 = k \/ e.1 ∈ map fst m.
Proof.
  induction m as [|[k0 v0] m IH]; cbn.
  - intros ->%list_elem_of_singleton. by left.
  - destruct (same_value_zero k0 k).
    + intros [-> | He]%elem_of_cons; right; [left |].
      right. apply list_elem_of_fmap. by exists e.
    + intros [-> | He]%elem_of_cons; [right; left |].
      destruct (IH He) as [-> | Hin]; [by left | right; by right].
Qed.

Lemma map_upsert_wf {V : Type} (k : JsVal) (init : V) (f : V -> V)
    (m : list (JsVal * V)) :
  map_wf m -> map_wf (map_upsert k init f m).
Proof.
  induction m as [|[k0 v0] m IH]; cbn.
  - intros _. split; [| done]. intros e He. by apply elem_of_nil in He.
  - intros [Hk0 Hwf]. destruct (same_value_zero k0 k) eqn:E; cbn; [by split |].
    split; [| by apply IH]. intros e He.
    destruct (elem_of_map_upsert _ _ _ _ _ He) as [-> | Hin]; [done |].
    apply list_elem_of_fmap in Hin as (e' & -> & He'). by apply Hk0.
Qed.

Lemma map_upsert_day_keyed {V : Type} (key : string) (init : V) (f : V -> V)
    (m : list (JsVal * V)) :
  day_keyed m -> day_keyed (map_upsert (JStr key) init f m).
Proof.
  intros Hm e He. destruct (elem_of_map_upsert _ _ _ _ _ He) as [-> | Hin]; [by exists key |].
  apply list_elem_of_fmap in Hin as (e' & -> & He'). by apply Hm.
Qed.

(** With pairwise different keys, an entry is what [get] finds under its
    key. *)
Lemma map_get_elem {V : Type} (day : string) (v : V) (m : list (JsVal * V)) :
  map_wf m -> (JStr day, v) ∈ m -> map_get (JStr day) m = Some v.
Proof.
  induction m as [|[k0 v0] m IH]; cbn [map_wf map_get]; intros Hwf Hin;
    [by apply elem_of_nil in Hin |].
  destruct Hwf as [Hk0 Hwf]. apply elem_of_cons in Hin as [[= <- <-] | Hin].
  - change (same_value_zero (JStr day) (JStr day)) with (String.eqb day day).
    by rewrite String.eqb_refl.
  - pose proof (Hk0 _ Hin) as Hne. cbn [fst] in Hne. rewrite Hne. by apply IH.
Qed.

Lemma last_close_app (day : string) (l1 l2 : list JsVal) (held : JsVal) :
  last_close day (l1 ++ l2) held = last_close day l2 (last_close day l1 held).
Proof. unfold last_close. apply fold_left_app. Qed.

Lemma last_close_none (day : string) (points : list JsVal) (held : JsVal) :
  Forall (fun w => supplies day w = false) points -> last_close day points held = held.
Proof.
  intros Hp. revert held. induction Hp as [|w points Hw _ IH]; intros held; [done |].
  unfold last_close in *. cbn [fold_left]. rewrite Hw. apply IH.
Qed.

Lemma last_close_last (day : string) (pre post : list JsVal) (v held : JsVal) :
  supplies day v = true -> Forall (fun w => supplies day w = false) post ->
  last_close day (pre ++ v :: post) held = close_of v.
Proof.
  intros Hv Hpost. rewrite last_close_app.
  change (v :: post) with ([v] ++ post). rewrite last_close_app, last_close_none by done.
  unfold last_close. cbn [fold_left]. by rewrite Hv.
Qed.

(** The loop of an index series, seen from a day's record. *)
Lemma merge_index_series (field : string) (points : list JsVal)
    (m : list (JsVal * list (string * JsVal))) :
  field ∈ index_fields -> Forall timed points ->
  exists m',
    foldM (merge_index field) m points = Ok m'
    /\ (map_wf m /\ day_keyed m -> map_wf m' /\ day_keyed m')
    /\ forall day,
         field_on m' day field = last_close day points (field_on m day field)
         /\ (forall f, f <> field -> f ∈ index_fields ->
               field_on m' day f = field_on m day f)
         /\ (forall r0, map_get (JStr day) m = Some r0 ->
               exists r', map_get (JStr day) m' = Some r'
                          /\ forall f, f <> field -> prop_of r' f = prop_of r0 f).
Proof.
  intros Hfield Hp. revert m. induction Hp as [|v points Hv _ IH]; intros m.
  - exists m. split; [done |]. split; [done |]. intros day. split; [done |].
    split; [done |]. intros r0 Hr0. by exists r0.
  - pose proof Hv as (ts & key & Hts & Hkey).
    pose proof (merge_index_timed field m v ts key Hts Hkey) as Hstep.
    set (m1 := map_upsert _ _ _ m) in Hstep.
    destruct (IH m1) as (m' & Hfold & Hinv & Hdays).
    exists m'. cbn [foldM]. rewrite Hstep. cbn [bind]. split; [exact Hfold |]. split.
    { intros [Hwf Hday]. apply Hinv. split; [by apply map_upsert_wf |].
      by apply map_upsert_day_keyed. }
    intros day. destruct (Hdays day) as (H1 & H2 & H3).
    destruct (merge_index_field field m m1 v Hfield Hv Hstep day) as (S1 & S2 & S3).
    split; [| split].
    + rewrite H1, S1. reflexivity.
    + intros f Hf Hin. by rewrite H2, S2.
    + intros r0 Hr0. destruct (S3 r0 Hr0) as (r1 & Hr1 & Hsame).
      destruct (H3 r1 Hr1) as (r' & Hr' & Hsame').
      exists r'. split; [done |]. intros f Hf. by rewrite Hsame', Hsame.
Qed.

(** The breadth loop does not throw on points with valid timestamps, and
    keys the map by day. *)
Lemma merge_breadth_series (points : list JsVal)
    (m : list (JsVal * list (string * JsVal))) :
  Forall timed points ->
  exists m',
    foldM merge_breadth m points = Ok m'
    /\ (map_wf m /\ day_keyed m -> map_wf m' /\ day_keyed m').
Proof.
  intros Hp. revert m. induction Hp as [|b points (ts & key & Hts & Hkey) _ IH]; intros m.
  - by exists m.
  - cbn [foldM]. rewrite (merge_breadth_timed m b ts key Hts Hkey). cbn [bind].
    destruct (IH (map_upsert (JStr key) (new_record ts key)
                    (fun item => object_assign item b) m)) as (m' & Hfold & Hinv).
    exists m'. split; [exact Hfold |]. intros [Hwf Hday]. apply Hinv.
    split; [by apply map_upsert_wf | by apply map_upsert_day_keyed].
Qed.

Lemma series_field_last_close (field : string) (points : list JsVal)
    (before after : list (JsVal * list (string * JsVal))) :
  (forall day, field_on after day field
               = last_close day points (field_on before day field)) ->
  series_field field points before after.
Proof.
  intros Hf. split.
  - intros day pre v post -> Hv Hpost. rewrite Hf. by apply last_close_last.
  - intros day Hnone. rewrite Hf. by apply last_close_none.
Qed.

(** The rows of [chartData] are records of the merged map. *)
Lemma chartData_records (now : Z) (range : TimeRange) (params : FilterParams)
    (breadthData vnIndexFixedData capData sectorData out : list JsVal)
    (m : list (JsVal * list (string * JsVal))) :
  merge_sources breadthData vnIndexFixedData capData sectorData = Ok m ->
  map_wf m -> day_keyed m ->
  chartData now range params breadthData vnIndexFixedData capData sectorData = Ok out ->
  forall row, row ∈ out ->
    exists day r, map_get (JStr day) m = Some r /\ row = JObj r.
Proof.
  intros Hm Hwf Hday Hchart row Hrow.
  assert (Hin : row ∈ map JObj (map_values m)).
  { unfold chartData in Hchart. rewrite Hm in Hchart.
    destruct breadthData, vnIndexFixedData; cbn [bind] in Hchart;
      [injection Hchart as <-; by apply elem_of_nil in Hrow | ..];
      cbv zeta in Hchart; destruct (_ || _); injection Hchart as <-;
      apply list_elem_of_In, filter_In in Hrow as [Hrow _];
      by apply list_elem_of_In, elem_of_stable_sort in Hrow. }
  apply list_elem_of_fmap in Hin as (r & -> & Hr).
  apply list_elem_of_fmap in Hr as ([k r'] & -> & He). cbn [snd].
  destruct (Hday _ He) as [day Hk]. cbn [fst] in Hk. subst k.
  exists day, r'. split; [by apply map_get_elem | done].
Qed.

(** C5.  The merge engine on series whose points have valid timestamps: the
    four loops do not throw, and in the map they build -- whose records are
    the rows [chartData] returns -- each of [vnIndex], [capVal] and
    [sectorVal] is owned by its series.  On a day for which the series
    supplies a close value (neither [undefined] nor [null]; 0 is one) the
    field holds the last such value; on any other day, be it that the series
    has no point for it or only points without a close value, the field is
    what the breadth loop left.  A record that the breadth loop made keeps
    every other property.  The last part is the callback itself: on a point
    of day [key] it returns, the day's record (created when the day is new)
    takes [close] when it is neither [undefined] nor [null] -- 0 is written
    as 0 -- and is untouched otherwise, no other property and no other day's
    record changes, and a loop without a point for a day leaves the day's
    record as it was. *)
Theorem merge_index_presence
    (breadthData vnIndexFixedData capData sectorData : list JsVal) :
  Forall timed (breadthData ++ vnIndexFixedData ++ capData ++ sectorData) ->
  exists m1 m,
    foldM merge_breadth [] breadthData = Ok m1
    /\ merge_sources breadthData vnIndexFixedData capData sectorData = Ok m
    /\ series_field "vnIndex" vnIndexFixedData m1 m
    /\ series_field "capVal" capData m1 m
    /\ series_field "sectorVal" sectorData m1 m
    /\ (forall day r1,
          map_get (JStr day) m1 = Some r1 ->
          exists r, map_get (JStr day) m = Some r
                    /\ forall f, f ∉ index_fields -> prop_of r f = prop_of r1 f)
    /\ (forall now range params out,
          chartData now range params breadthData vnIndexFixedData capData sectorData
          = Ok out ->
          forall row, row ∈ out ->
            exists day r, map_get (JStr day) m = Some r /\ row = JObj r)
    /\ (forall field m0 v,
          timed v ->
          exists ts key close r' m',
            merge_index field m0 v = Ok m'
            /\ get v "timestamp" = Ok ts /\ getDateKey ts = Ok key
            /\ get v "close" = Ok close
            /\ map_get (JStr key) m' = Some r'
            /\ (is_nullish close = false -> prop_of r' field = close)
            /\ (close = JNum Num.zero -> prop_of r' field = JNum Num.zero)
            /\ (is_nullish close = true ->
                r' = default (new_record ts key) (map_get (JStr key) m0))
            /\ (forall f, f <> field ->
                prop_of r' f
                = prop_of (default (new_record ts key) (map_get (JStr key) m0)) f)
            /\ (forall day, day <> key -> map_get (JStr day) m' = map_get (JStr day) m0))
    /\ (forall field m0 points m' day,
          foldM (merge_index field) m0 points = Ok m' ->
          (forall v ts, v ∈ points -> get v "timestamp" = Ok ts ->
                        getDateKey ts <> Ok day) ->
          map_get (JStr day) m' = map_get (JStr day) m0).
Proof.
  intros Hall.
  apply Forall_app in Hall as [Hb Hall]. apply Forall_app in Hall as [Hv Hall].
  apply Forall_app in Hall as [Hc Hs].
  assert (Hnil : map_wf ([] : list (JsVal * list (string * JsVal)))
                 /\ day_keyed ([] : list (JsVal * list (string * JsVal)))).
  { split; [done |]. by intros e ?%elem_of_nil. }
  assert (Hvn : "vnIndex" ∈ index_fields).
  { unfold index_fields. rewrite !elem_of_cons. auto. }
  assert (Hcap : "capVal" ∈ index_fields).
  { unfold index_fields. rewrite !elem_of_cons. auto. }
  assert (Hsec : "sectorVal" ∈ index_fields).
  { unfold index_fields. rewrite !elem_of_cons. auto. }
  destruct (merge_breadth_series breadthData [] Hb) as (m1 & E1 & I1).
  destruct (merge_index_series "vnIndex" vnIndexFixedData m1 Hvn Hv) as (m2 & E2 & I2 & D2).
  destruct (merge_index_series "capVal" capData m2 Hcap Hc) as (m3 & E3 & I3 & D3).
  destruct (merge_index_series "sectorVal" sectorData m3 Hsec Hs) as (m & E4 & I4 & D4).
  assert (Hm : merge_sources breadthData vnIndexFixedData capData sectorData = Ok m).
  { unfold merge_sources. rewrite E1. cbn [bind]. rewrite E2. cbn [bind].
    rewrite E3. cbn [bind]. exact E4. }
  destruct (I4 (I3 (I2 (I1 Hnil)))) as [Hwf Hday].
  exists m1, m. split; [exact E1 |]. split; [exact Hm |].
  split; [| split; [| split; [| split; [| split; [| split]]]]].
  - apply series_field_last_close. intros day.
    destruct (D2 day) as (F2 & _ & _). destruct (D3 day) as (_ & O3 & _).
    destruct (D4 day) as (_ & O4 & _).
    rewrite O4, O3 by done. exact F2.
  - apply series_field_last_close. intros day.
    destruct (D2 day) as (_ & O2 & _). destruct (D3 day) as (F3 & _ & _).
    destruct (D4 day) as (_ & O4 & _).
    rewrite O4, F3, O2 by done. reflexivity.
  - apply series_field_last_close. intros day.
    destruct (D2 day) as (_ & O2 & _). destruct (D3 day) as (_ & O3 & _).
    destruct (D4 day) as (F4 & _ & _).
    rewrite F4, O3, O2 by done. reflexivity.
  - intros day r1 Hr1.
    destruct (D2 day) as (_ & _ & K2). destruct (K2 r1 Hr1) as (r2 & Hr2 & S2).
    destruct (D3 day) as (_ & _ & K3). destruct (K3 r2 Hr2) as (r3 & Hr3 & S3).
    destruct (D4 day) as (_ & _ & K4). destruct (K4 r3 Hr3) as (r & Hr & S4).
    exists r. split; [done |]. intros f Hf.
    rewrite S4, S3, S2; [done | ..]; intros ->; by apply Hf.
  - intros now range params out Hchart. by eapply chartData_records.
  - intros field m0 v (ts & key & Hts & Hkey).
    destruct (timed_get v ts Hts) as [_ Hclose].
    exists ts, key, (close_of v). eexists. eexists.
    split; [by apply merge_index_timed |]. do 3 (split; [done |]).
    split; [apply map_get_upsert_eq |].
    split; [| split; [| split; [| split]]].
    + intros ->. cbn [negb]. apply prop_of_set_eq.
    + intros ->. cbn [is_nullish negb]. apply prop_of_set_eq.
    + by intros ->.
    + intros f Hf. destruct (negb (is_nullish (close_of v))); [| done].
      by apply prop_of_set_ne.
    + intros day Hne. by apply map_get_upsert_ne.
  - intros field m0 points m' day Hfold Hnone.
    apply (foldM_invariant
             (fun m2 => map_get (JStr day) m2 = map_get (JStr day) m0)
             (merge_index field) points m0 m'); [| done | done].
    intros ma v mb Hma Hin Hmb.
    destruct (merge_index_step _ _ _ _ Hmb) as (ts & key & close & Hts & Hkey & _ & ->).
    rewrite map_get_upsert_ne; [done |]. intros ->. by apply (Hnone v ts).
Qed.

End MergeEngine.

(** ** [fetchBreadthData]: merging by timestamp *)

Lemma same_value_zero_sym (a b : JsVal) : same_value_zero a b = same_value_zero b a.
Proof.
  destruct a, b; cbn; try reflexivity.
  - by destruct b, b0.
  - apply same_sym.
  - apply String.eqb_sym.
Qed.

Lemma same_value_zero_trans (a b c : JsVal) :
  same_value_zero a b = true -> same_value_zero b c = true -> same_value_zero a c = true.
Proof.
  destruct a, b; cbn; try discriminate; destruct c; cbn; try discriminate; try done.
  - destruct b, b0, b1; done.
  - apply same_trans.
  - intros ->%String.eqb_eq ->%String.eqb_eq. apply String.eqb_refl.
Qed.

Section JsMapFacts.
Context {V : Type}.

(** An entry of [m.set(k, v)] is an entry of [m] under another key, or holds
    [v] under [k] or a key equal to it. *)
Lemma elem_of_map_set (k : JsVal) (v : V) (m : list (JsVal * V)) (e : JsVal * V) :
  map_wf m ->
  e ∈ map_set k v m ->
  (e ∈ m /\ same_value_zero e.1 k = false)
  \/ (e.2 = v /\ (e.1 = k \/ same_value_zero e.1 k = true)).
Proof.
  induction m as [|[k0 v0] m IH]; cbn.
  - intros _ ->%list_elem_of_singleton. right. cbn. auto.
  - intros [Hk0 Hwf]. destruct (same_value_zero k0 k) eqn:E.
    + intros [-> | He]%elem_of_cons; [right; cbn; auto |].
      left. split; [by right |].
      destruct (same_value_zero e.1 k) eqn:E'; [| done].
      rewrite <- (Hk0 e He). symmetry.
      apply (same_value_zero_trans _ k); [done |]. by rewrite same_value_zero_sym.
    + intros [-> | He]%elem_of_cons; [left; split; [left | done] |].
      destruct (IH Hwf He) as [[Hin Hne] | Hset]; [left; split; [by right | done] |].
      by right.
Qed.

Lemma map_set_wf (k : JsVal) (v : V) (m : list (JsVal * V)) :
  map_wf m -> map_wf (map_set k v m).
Proof.
  induction m as [|[k0 v0] m IH]; cbn.
  - intros _. split; [| done]. intros e He. by apply elem_of_nil in He.
  - intros [Hk0 Hwf]. destruct (same_value_zero k0 k) eqn:E; cbn; [by split |].
    split; [| by apply IH]. intros e He.
    destruct (elem_of_map_set _ _ _ _ Hwf He) as [[Hin _] | [_ [-> | Hsame]]];
      [by apply Hk0 | done |].
    destruct (same_value_zero k0 e.1) eqn:E'; [| done].
    rewrite <- E. symmetry. by apply (same_value_zero_trans _ e.1).
Qed.

(** A key of [m] is still a key after [m.set(k, v)], with its old value or
    with [v]. *)
Lemma map_set_keeps (k k0 : JsVal) (v v0 : V) (m : list (JsVal * V)) :
  (k0, v0) ∈ m -> exists v', (k0, v') ∈ map_set k v m /\ (v' = v0 \/ v' = v).
Proof.
  induction m as [|[k1 v1] m IH]; [by intros ?%elem_of_nil |].
  intros [[= <- <-] | Hin]%elem_of_cons; cbn.
  - destruct (same_value_zero k0 k); [exists v | exists v0];
      (split; [apply list_elem_of_here | auto]).
  - destruct (IH Hin) as (v' & Hv' & Hor).
    destruct (same_value_zero k1 k).
    + exists v0. split; [by right | by left].
    + exists v'. split; [by right | done].
Qed.

(** After [m.set(k, v)] the value [v] sits under [k] or a key equal to it. *)
Lemma map_set_has (k : JsVal) (v : V) (m : list (JsVal * V)) :
  exists k', (k', v) ∈ map_set k v m /\ (k' = k \/ same_value_zero k' k = true).
Proof.
  induction m as [|[k1 v1] m IH]; cbn.
  - exists k. split; [left | by left].
  - destruct (same_value_zero k1 k) eqn:E.
    + exists k1. split; [left | by right].
    + destruct IH as (k' & Hin & Hk'). exists k'. split; [by right | done].
Qed.

End JsMapFacts.

Section BreadthMerge.
Context `{JsRuntime}.

Lemma merge_point_inv (m m' : list (JsVal * JsVal)) (p : JsVal) :
  merge_point m p = Ok m' -> m' = map_set (timestamp_of p) p m.
Proof.
  unfold merge_point, timestamp_of. destruct (get p "timestamp"); cbn; [| discriminate].
  by intros [= <-].
Qed.

Lemma merge_points_wf (m m' : list (JsVal * JsVal)) (l : list JsVal) :
  foldM merge_point m l = Ok m' ->
  map_wf m /\ keyed_by_timestamp m -> map_wf m' /\ keyed_by_timestamp m'.
Proof.
  intros Hf Hm.
  apply (foldM_invariant (fun m0 => map_wf m0 /\ keyed_by_timestamp m0)
           merge_point l m m'); [| done | done].
  intros m0 p m1 [Hwf Hkey] _ ->%merge_point_inv. split; [by apply map_set_wf |].
  intros k q Hin.
  destruct (elem_of_map_set _ _ _ _ Hwf Hin) as [[Hin0 _] | [Hq Hk]]; cbn in *.
  - by apply Hkey.
  - by subst q.
Qed.

(** Points set later win: an entry left after the loop over [l] holds a point
    of [l], or is an entry from before whose key no point of [l] has. *)
Lemma merge_points_last_wins (m m' : list (JsVal * JsVal)) (l : list JsVal) :
  map_wf m ->
  foldM merge_point m l = Ok m' ->
  forall k q, (k, q) ∈ m' ->
    q ∈ l
    \/ ((k, q) ∈ m /\ forall p, p ∈ l -> same_value_zero k (timestamp_of p) = false).
Proof.
  revert m. induction l as [|p l IH]; cbn; intros m Hwf Hf k q Hin.
  - injection Hf as <-. right. split; [done |]. by intros p ?%elem_of_nil.
  - destruct (merge_point m p) as [m1|e] eqn:Hp; cbn in Hf; [| discriminate].
    apply merge_point_inv in Hp as ->.
    destruct (IH _ (map_set_wf _ _ _ Hwf) Hf k q Hin) as [Hq | [Hin1 Hnone]];
      [left; by right |].
    destruct (elem_of_map_set _ _ _ _ Hwf Hin1) as [[Hin0 Hne] | [Hq _]]; cbn in *.
    + right. split; [done |]. intros p' [-> | Hp']%elem_of_cons; auto.
    + left. subst q. left.
Qed.

(** Every point of the loop leaves an entry under its timestamp, holding a
    point of the loop. *)
Lemma merge_points_present (m m' : list (JsVal * JsVal)) (l : list JsVal) (p : JsVal) :
  foldM merge_point m l = Ok m' -> p ∈ l ->
  exists k q, (k, q) ∈ m' /\ q ∈ l
    /\ (k = timestamp_of p \/ same_value_zero k (timestamp_of p) = true).
Proof.
  assert (Hkeep : forall l0 m0 m1 k q,
    foldM merge_point m0 l0 = Ok m1 -> (k, q) ∈ m0 ->
    exists q', (k, q') ∈ m1 /\ (q' = q \/ q' ∈ l0)).
  { induction l0 as [|p0 l0 IH]; cbn; intros m0 m1 k q Hf Hin.
    - injection Hf as <-. exists q. auto.
    - destruct (merge_point m0 p0) as [m2|e] eqn:Hp; cbn in Hf; [| discriminate].
      apply merge_point_inv in Hp as ->.
      destruct (map_set_keeps (timestamp_of p0) k p0 q m0 Hin) as (q1 & Hin1 & Hq1).
      destruct (IH _ _ _ _ Hf Hin1) as (q' & Hin' & Hq').
      exists q'. split; [done |].
      destruct Hq' as [-> | Hq']; [| right; by right].
      destruct Hq1 as [-> | ->]; [by left | right; left]. }
  revert m. induction l as [|p0 l IH]; cbn; intros m Hf Hp; [by apply elem_of_nil in Hp |].
  destruct (merge_point m p0) as [m1|e] eqn:Hp0; cbn in Hf; [| discriminate].
  apply elem_of_cons in Hp as [-> | Hp].
  - apply merge_point_inv in Hp0 as ->.
    destruct (map_set_has (timestamp_of p0) p0 m) as (k & Hin & Hk).
    destruct (Hkeep _ _ _ _ _ Hf Hin) as (q' & Hin' & Hq').
    exists k, q'. split; [done |]. split; [| done].
    destruct Hq' as [-> | Hq']; [left | by right].
  - destruct (IH _ Hf Hp) as (k & q & Hin & Hq & Hk).
    exists k, q. split; [done |]. split; [by right | done].
Qed.

Lemma merge_fetched_inv (refetch valid : bool)
    (cachedData historyPoints latestPoints final : list JsVal) :
  merge_fetched refetch valid cachedData historyPoints latestPoints = Ok final ->
  exists m1 m2,
    map_wf m1 /\ keyed_by_timestamp m1
    /\ foldM merge_point m1 latestPoints = Ok m2
    /\ final = stable_sort timestamp_before (map_values m2).
Proof.
  unfold merge_fetched. intros Hm.
  assert (Hnil : map_wf ([] : list (JsVal * JsVal)) /\ keyed_by_timestamp []).
  { split; [done |]. by intros k q ?%elem_of_nil. }
  destruct (if negb refetch && valid then foldM merge_point [] cachedData else Ok [])
    as [m0|e] eqn:H0; cbn [bind] in Hm; [| discriminate].
  assert (Hm0 : map_wf m0 /\ keyed_by_timestamp m0).
  { destruct (negb refetch && valid); [by eapply merge_points_wf | by injection H0 as <-]. }
  destruct (if refetch then foldM merge_point m0 historyPoints else Ok m0)
    as [m1|e] eqn:H1; cbn [bind] in Hm; [| discriminate].
  assert (Hm1 : map_wf m1 /\ keyed_by_timestamp m1).
  { destruct refetch; [by eapply merge_points_wf | by injection H1 as <-]. }
  destruct (foldM merge_point m1 latestPoints) as [m2|e] eqn:H2;
    cbn [bind] in Hm; [| discriminate].
  injection Hm as <-. exists m1, m2. by destruct Hm1.
Qed.

Lemma timestamp_before_lt (a b : JsVal) :
  numeric_timestamp a -> numeric_timestamp b ->
  timestamp_before a b = Num.lt (to_number (timestamp_of a)) (to_number (timestamp_of b)).
Proof. intros Ha Hb. unfold timestamp_before. by apply lt_sub_zero. Qed.

Lemma timestamp_le_trans : Transitive timestamp_le.
Proof. intros a b c. unfold timestamp_le. apply le_trans. Qed.

(** The sort of [fetchBreadthData] puts points with numeric timestamps in
    ascending order. *)
Lemma sort_by_timestamp_sorted (l : list JsVal) :
  Forall numeric_timestamp l ->
  StronglySorted timestamp_le (stable_sort timestamp_before l).
Proof.
  apply (stable_sort_sorted timestamp_before timestamp_le numeric_timestamp).
  - apply timestamp_le_trans.
  - intros a b Ha Hb. rewrite (timestamp_before_lt _ _ Ha Hb). apply lt_le.
  - intros a b Ha Hb. rewrite (timestamp_before_lt _ _ Ha Hb). by apply not_lt_le.
Qed.

Lemma foldM_app {A St : Type} (f : St -> A -> result St) (s : St) (l1 l2 : list A) :
  foldM f s (l1 ++ l2) = let* s' := foldM f s l1 in foldM f s' l2.
Proof.
  revert s. induction l1 as [|x l1 IH]; intros s; cbn; [done |].
  destruct (f s x) as [s1|e]; cbn; [apply IH | done].
Qed.

(** The three loops are one loop over [merge_inputs]. *)
Lemma merge_fetched_inputs (refetch valid : bool)
    (cachedData historyPoints latestPoints : list JsVal) :
  merge_fetched refetch valid cachedData historyPoints latestPoints
  = let* m := foldM merge_point []
                (merge_inputs refetch valid cachedData historyPoints latestPoints) in
    Ok (stable_sort timestamp_before (map_values m)).
Proof.
  unfold merge_fetched, merge_inputs. rewrite foldM_app.
  destruct (negb refetch && valid).
  - destruct (foldM merge_point [] cachedData) as [m0|e]; cbn [bind]; [| done].
    rewrite foldM_app. destruct refetch; cbn [foldM bind]; [| done].
    destruct (foldM merge_point m0 historyPoints); cbn [bind]; done.
  - cbn [foldM bind]. rewrite foldM_app. destruct refetch; cbn [foldM bind]; [| done].
    destruct (foldM merge_point [] historyPoints); cbn [bind]; done.
Qed.

(** The loop throws on no point that is an object (or any value other than
    [null] and [undefined]). *)
Lemma merge_points_total (m : list (JsVal * JsVal)) (l : list JsVal) :
  Forall (fun p => is_nullish p = false) l -> exists m', foldM merge_point m l = Ok m'.
Proof.
  intros Hl. revert m. induction Hl as [|p l Hp _ IH]; intros m; cbn; [by eexists |].
  assert (Hset : merge_point m p = Ok (map_set (timestamp_of p) p m)).
  { unfold merge_point, timestamp_of. by destruct p. }
  rewrite Hset. cbn [bind]. apply IH.
Qed.

(** [m.set(k', v')] leaves the entries of other keys alone. *)
Lemma map_set_other {V : Type} (k k' : JsVal) (v v' : V) (m : list (JsVal * V)) :
  (k, v) ∈ m -> same_value_zero k k' = false -> (k, v) ∈ map_set k' v' m.
Proof.
  intros Hin Hne. induction m as [|[k0 v0] m IH]; [by apply elem_of_nil in Hin |].
  cbn. apply elem_of_cons in Hin as [[= <- <-] | Hin].
  - rewrite Hne. left.
  - destruct (same_value_zero k0 k'); right; auto.
Qed.

(** A point stays in the map while no point set after it shares its
    timestamp. *)
Lemma merge_points_kept (m m' : list (JsVal * JsVal)) (before after : list JsVal)
    (p : JsVal) :
  foldM merge_point m (before ++ p :: after) = Ok m' ->
  Forall (fun p' => ~ same_timestamp p' p) after ->
  p ∈ map_values m'.
Proof.
  rewrite foldM_app. intros Hf Hafter.
  destruct (foldM merge_point m before) as [m0|e]; cbn [bind foldM] in Hf; [| discriminate].
  destruct (merge_point m0 p) as [m1|e] eqn:Hp; cbn [bind] in Hf; [| discriminate].
  apply merge_point_inv in Hp as ->.
  destruct (map_set_has (timestamp_of p) p m0) as (k & Hin & Hk).
  assert (Hkeep : forall l m1 m2,
    Forall (fun p' => ~ same_timestamp p' p) l ->
    foldM merge_point m1 l = Ok m2 -> (k, p) ∈ m1 -> (k, p) ∈ m2).
  { induction l as [|p' l IH]; cbn; intros m1 m2 Hl Hm Hin1.
    - by injection Hm as <-.
    - inversion Hl as [|? ? Hp' Hl']; subst.
      destruct (merge_point m1 p') as [m3|e] eqn:Hp3; cbn [bind] in Hm; [| discriminate].
      apply merge_point_inv in Hp3 as ->.
      apply (IH _ _ Hl' Hm). apply map_set_other; [done |].
      destruct (same_value_zero k (timestamp_of p')) eqn:E; [| done].
      exfalso. apply Hp'. unfold same_timestamp.
      destruct Hk as [-> | Hk]; [by rewrite same_value_zero_sym |].
      apply (same_value_zero_trans _ k); [by rewrite same_value_zero_sym | done]. }
  apply list_elem_of_fmap. exists (k, p). split; [done |].
  by apply (Hkeep after _ m' Hafter Hf).
Qed.

Lemma filter_none {A : Type} (f : A -> bool) (l : list A) :
  (forall x, x ∈ l -> f x = false) -> List.filter f l = [].
Proof.
  induction l as [|x l IH]; cbn; intros Hl; [done |].
  rewrite (Hl x (list_elem_of_here _ _)). apply IH. intros y Hy. apply Hl. by right.
Qed.

Lemma filter_length_perm {A : Type} (f : A -> bool) (l l' : list A) :
  l ≡ₚ l' -> length (List.filter f l) = length (List.filter f l').
Proof.
  induction 1 as [|x l l' _ IH|x y l|l l' l'' _ IH1 _ IH2]; cbn.
  - done.
  - destruct (f x); cbn; by rewrite IH.
  - by destruct (f x), (f y).
  - by rewrite IH1.
Qed.

(** A map keyed by timestamp holds at most one point for a timestamp. *)
Lemma map_values_one_per_key (m : list (JsVal * JsVal)) (ts : JsVal) :
  map_wf m -> keyed_by_timestamp m ->
  (length (List.filter (fun q => same_value_zero (timestamp_of q) ts) (map_values m))
   <= 1)%nat.
Proof.
  unfold map_values. induction m as [|[k q] m IH]; cbn; intros Hwf Hkey; [lia |].
  destruct Hwf as [Hk Hwf].
  assert (Hkey' : keyed_by_timestamp m).
  { intros k' q' Hin. apply Hkey. by right. }
  specialize (IH Hwf Hkey').
  destruct (same_value_zero (timestamp_of q) ts) eqn:E; [| exact IH].
  cbn [length].
  assert (Hnone : List.filter (fun q' => same_value_zero (timestamp_of q') ts)
                    (map snd m) = []).
  { apply filter_none. intros q' Hin.
    apply list_elem_of_fmap in Hin as ([k' q''] & -> & Hin). cbn [snd].
    destruct (same_value_zero (timestamp_of q'') ts) eqn:E'; [exfalso | done].
    assert (Hqq : same_value_zero (timestamp_of q) (timestamp_of q'') = true).
    { apply (same_value_zero_trans _ ts); [done | by rewrite same_value_zero_sym]. }
    specialize (Hk (k', q'') Hin). cbn [fst] in Hk.
    assert (Hkq : same_value_zero k (timestamp_of q'') = true).
    { destruct (Hkey k q (list_elem_of_here _ _)) as [-> | Hkq]; [done |].
      by apply (same_value_zero_trans _ (timestamp_of q)). }
    destruct (Hkey' k' q'' Hin) as [-> | Hk'q]; [congruence |].
    rewrite (same_value_zero_trans k (timestamp_of q'') k') in Hk; [done | done |].
    by rewrite same_value_zero_sym. }
  rewrite Hnone. cbn. lia.
Qed.

(** The loop over [inserted] into an empty map, and the sort, merge by
    timestamp. *)
Lemma merge_points_merged (inserted : list JsVal) (m : list (JsVal * JsVal)) :
  foldM merge_point [] inserted = Ok m ->
  merged_by_timestamp inserted (stable_sort timestamp_before (map_values m)).
Proof.
  intros Hf.
  assert (Hnil : map_wf ([] : list (JsVal * JsVal)) /\ keyed_by_timestamp []).
  { split; [done |]. by intros k q ?%elem_of_nil. }
  destruct (merge_points_wf _ _ _ Hf Hnil) as [Hwf Hkey].
  split; [| split; [| split]].
  - intros q Hq. apply elem_of_stable_sort in Hq.
    apply list_elem_of_fmap in Hq as ([k q'] & -> & Hin). cbn [snd].
    destruct (merge_points_last_wins _ _ _ (proj1 Hnil) Hf k q' Hin) as [Hl | [Hin0 _]];
      [done | by apply elem_of_nil in Hin0].
  - intros before p after -> Hafter. apply elem_of_stable_sort.
    by eapply merge_points_kept.
  - intros p Hp.
    destruct (merge_points_present _ _ _ p Hf Hp) as (k & q & Hin & Hq & Hk).
    exists q. split.
    + apply elem_of_stable_sort. apply list_elem_of_fmap. by exists (k, q).
    + unfold same_timestamp. destruct (Hkey k q Hin) as [-> | Hkq].
      * destruct Hk as [-> | Hk]; [by left | right].
        by rewrite same_value_zero_sym.
      * destruct Hk as [<- | Hk]; [by right | right].
        apply (same_value_zero_trans _ k); [| done]. by rewrite same_value_zero_sym.
  - intros p.
    rewrite (filter_length_perm _ _ _ (stable_sort_perm timestamp_before (map_values m))).
    by apply map_values_one_per_key.
Qed.

(** What the merge of [fetchBreadthData] guarantees. *)
Lemma merge_fetched_spec (refetch valid : bool)
    (cachedData historyPoints latestPoints final : list JsVal) :
  merge_fetched refetch valid cachedData historyPoints latestPoints = Ok final ->
  (forall p q, p ∈ latestPoints -> q ∈ final -> same_timestamp p q -> q ∈ latestPoints)
  /\ (forall p, p ∈ latestPoints ->
        exists q, q ∈ final /\ q ∈ latestPoints
          /\ (timestamp_of q = timestamp_of p \/ same_timestamp p q))
  /\ (Forall numeric_timestamp final -> StronglySorted timestamp_le final).
Proof.
  intros Hm. destruct (merge_fetched_inv _ _ _ _ _ _ Hm) as (m1 & m2 & Hwf & Hkey & Hf & ->).
  destruct (merge_points_wf _ _ _ Hf (conj Hwf Hkey)) as [Hwf2 Hkey2].
  split; [| split].
  - intros p q Hp Hq Hsame. apply elem_of_stable_sort in Hq.
    apply list_elem_of_fmap in Hq as ([k q'] & -> & Hin). cbn in *.
    destruct (merge_points_last_wins _ _ _ Hwf Hf k q' Hin) as [Hl | [Hin1 Hnone]];
      [done | exfalso].
    specialize (Hnone p Hp). unfold same_timestamp in Hsame.
    destruct (Hkey k q' Hin1) as [-> | Hk].
    + rewrite same_value_zero_sym in Hsame. congruence.
    + rewrite same_value_zero_sym in Hsame.
      pose proof (same_value_zero_trans _ _ _ Hk Hsame). congruence.
  - intros p Hp.
    destruct (merge_points_present _ _ _ p Hf Hp) as (k & q & Hin & Hq & Hk).
    exists q. split; [| split; [done |]].
    + apply elem_of_stable_sort. apply list_elem_of_fmap. by exists (k, q).
    + unfold same_timestamp. destruct (Hkey2 k q Hin) as [-> | Hkq].
      * destruct Hk as [-> | Hk]; [by left | right].
        by rewrite same_value_zero_sym.
      * destruct Hk as [<- | Hk]; [by right | right].
        apply (same_value_zero_trans _ k); [| done]. by rewrite same_value_zero_sym.
  - intros Hnum. apply sort_by_timestamp_sorted.
    eapply Forall_forall. intros q Hq. eapply Forall_forall in Hnum; [done |].
    by apply elem_of_stable_sort.
Qed.

Lemma in_flight_nil_r (log : list (request * route)) : in_flight log [] = log.
Proof. unfold in_flight. cbn [take drop app]. by rewrite app_nil_r, take_drop. Qed.

Lemma elem_of_in_flight (log1 log2 : list (request * route)) (x : request * route) :
  x ∈ in_flight log1 log2 <-> x ∈ log1 \/ x ∈ log2.
Proof.
  unfold in_flight. rewrite !elem_of_app.
  rewrite <- (take_drop 1 log1) at 3. rewrite <- (take_drop 1 log2) at 3.
  rewrite !elem_of_app. tauto.
Qed.

Lemma length_in_flight (log1 log2 : list (request * route)) :
  length (in_flight log1 log2) = (length log1 + length log2)%nat.
Proof.
  unfold in_flight. rewrite !length_app.
  rewrite <- (take_drop 1 log1) at 3. rewrite <- (take_drop 1 log2) at 3.
  rewrite !length_app. lia.
Qed.

(** [fetchBreadthData] past the freshness test: the requests are sent and the
    [try] block decides. *)
Lemma fetchBreadthData_stale (net : Network) (quota_ok : bool) (st : storage)
    (now later : Z) (params : FilterParams)
    (cachedData : list JsVal) (valid : bool) (cacheAge : number) :
  breadth_cache st now (breadth_key params) = (cachedData, valid, cacheAge) ->
  valid && Num.lt cacheAge BREADTH_MIN_FRESH = false ->
  let refetch := negb valid || (length cachedData <? 50)%nat in
  let attempt :=
    breadth_try (latest_raw net params)
      (if refetch then history_raw net params else JArr [])
      refetch valid cachedData quota_ok st later (breadth_key params) in
  settled (fetchBreadthData net quota_ok st now later params)
  = Ok (match attempt with
        | Ok (finalResult, _) => finalResult
        | Throw _ => if valid then cachedData else []
        end)
  /\ store (fetchBreadthData net quota_ok st now later params)
     = match attempt with
       | Ok (_, st') => st'
       | Throw _ => st
       end
  /\ sent (fetchBreadthData net quota_ok st now later params)
     = in_flight
         (fetch_or_empty net (BreadthSeries (breadth_base params) params true)).2
         (if refetch
          then (fetch_or_empty net (BreadthSeries (breadth_base params) params false)).2
          else []).
Proof.
  intros Hcache Hstale refetch attempt. subst attempt refetch.
  unfold fetchBreadthData, latest_raw, history_raw. fold (breadth_key params).
  rewrite Hcache, Hstale.
  destruct (fetch_or_empty net (BreadthSeries (breadth_base params) params true))
    as [latestRaw log1].
  destruct (negb valid || (length cachedData <? 50)%nat).
  - destruct (fetch_or_empty net (BreadthSeries (breadth_base params) params false))
      as [historyRaw log2]. cbn [fst].
    by destruct (breadth_try _ _ _ _ _ _ _ _ _) as [[r st']|e].
  - cbn [fst]. by destruct (breadth_try _ _ _ _ _ _ _ _ _) as [[r st']|e].
Qed.

(** [fetchBreadthData] on a fresh cache: the cached points, and no request. *)
Lemma fetchBreadthData_fresh (net : Network) (quota_ok : bool) (st : storage)
    (now later : Z) (params : FilterParams)
    (cachedData : list JsVal) (cacheAge : number) :
  breadth_cache st now (breadth_key params) = (cachedData, true, cacheAge) ->
  Num.lt cacheAge BREADTH_MIN_FRESH = true ->
  settled (fetchBreadthData net quota_ok st now later params) = Ok cachedData
  /\ store (fetchBreadthData net quota_ok st now later params) = st
  /\ sent (fetchBreadthData net quota_ok st now later params) = [].
Proof.
  intros Hcache Hfresh. unfold fetchBreadthData. fold (breadth_key params).
  rewrite Hcache, Hfresh. done.
Qed.

(** C4.  In [fetchBreadthData], once the cache is not fresh, and with no
    [null] among the points: the points set into the map are the cached
    points (only when history was not refetched) or else the fetched history
    points, followed by the fetched latest points, and the result is their
    merge by timestamp -- it holds inserted points only, every inserted point
    that no later one shares its timestamp with, a point for every inserted
    timestamp, and one point at most for a timestamp.  So a returned point
    that shares its timestamp with a latest point is a latest point, and
    cached and history points of other timestamps are retained.  The returned
    list is in ascending order of timestamp (for timestamps that are
    numbers). *)
Theorem fetchBreadthData_latest_wins (net : Network) (quota_ok : bool) (st : storage)
    (now later : Z) (params : FilterParams)
    (cachedData : list JsVal) (valid : bool) (cacheAge : number)
    (latestPoints historyPoints : list JsVal) :
  breadth_cache st now (breadth_key params) = (cachedData, valid, cacheAge) ->
  valid && Num.lt cacheAge BREADTH_MIN_FRESH = false ->
  let refetch := negb valid || (length cachedData <? 50)%nat in
  processRaw (latest_raw net params) = Ok latestPoints ->
  processRaw (if refetch then history_raw net params else JArr []) = Ok historyPoints ->
  let inserted := merge_inputs refetch valid cachedData historyPoints latestPoints in
  Forall (fun p => is_nullish p = false) inserted ->
  exists final,
    merge_fetched refetch valid cachedData historyPoints latestPoints = Ok final
    /\ settled (fetchBreadthData net quota_ok st now later params) = Ok final
    /\ inserted = (if refetch then historyPoints else cachedData) ++ latestPoints
    /\ merged_by_timestamp inserted final
    /\ (refetch = true ->
        merge_fetched refetch valid [] historyPoints latestPoints = Ok final)
    /\ (refetch = false ->
        merge_fetched refetch valid cachedData [] latestPoints = Ok final)
    /\ (forall p q, p ∈ latestPoints -> q ∈ final -> same_timestamp p q -> q ∈ latestPoints)
    /\ (forall p, p ∈ latestPoints ->
          exists q, q ∈ final /\ q ∈ latestPoints
            /\ (timestamp_of q = timestamp_of p \/ same_timestamp p q))
    /\ (Forall numeric_timestamp final -> StronglySorted timestamp_le final).
Proof.
  intros Hcache Hstale refetch Hlatest Hhistory inserted Hobj.
  destruct (merge_points_total [] inserted Hobj) as [m Hm].
  assert (Hmerge : merge_fetched refetch valid cachedData historyPoints latestPoints
                   = Ok (stable_sort timestamp_before (map_values m))).
  { rewrite merge_fetched_inputs. fold inserted. by rewrite Hm. }
  exists (stable_sort timestamp_before (map_values m)).
  destruct (fetchBreadthData_stale net quota_ok st now later params _ _ _ Hcache Hstale)
    as (Hsettled & _ & _).
  fold refetch in Hsettled. unfold breadth_try in Hsettled.
  rewrite Hlatest, Hhistory in Hsettled. cbn [bind] in Hsettled.
  rewrite Hmerge in Hsettled. cbn [bind] in Hsettled.
  split; [exact Hmerge |]. split; [exact Hsettled |].
  split.
  { subst inserted refetch. unfold merge_inputs.
    destruct valid; cbn [negb orb andb]; [| by rewrite app_nil_l].
    destruct (length cachedData <? 50)%nat; cbn [negb andb]; [done |].
    by rewrite app_nil_l. }
  split; [by apply merge_points_merged |].
  split; [intros Hr; rewrite Hr in Hmerge |- *; exact Hmerge |].
  split; [intros Hr; rewrite Hr in Hmerge |- *; exact Hmerge |].
  by apply merge_fetched_spec in Hmerge.
Qed.

(** *** A cycle in which every request fails *)

Lemma breadth_cache_entry (st : storage) (now written : Z) (key : string)
    (p : JsVal) (ps : list JsVal) :
  st !! key = Some (Json (cache_payload written (JArr (p :: ps)))) ->
  breadth_cache st now key = (p :: ps, true, entry_age now written).
Proof.
  intros Hst. unfold breadth_cache.
  by rewrite (loadFromCache_entry st now written key (JArr (p :: ps)) None Hst).
Qed.

Lemma offline_latest_raw (net : Network) (params : FilterParams) :
  offline net -> latest_raw net params = JArr [].
Proof.
  intros Hoff. unfold latest_raw, fetch_or_empty, fetchWithFallback.
  destruct (Hoff (BreadthSeries (breadth_base params) params true)) as [-> ->]. done.
Qed.

Lemma processRaw_empty : processRaw (JArr []) = Ok [].
Proof. reflexivity. Qed.

(** With no key of [m] equal to [k], [m.set(k, v)] appends. *)
Lemma map_set_fresh {V : Type} (k : JsVal) (v : V) (m : list (JsVal * V)) :
  forallb (fun k' => negb (same_value_zero k' k)) (map fst m) = true ->
  map_set k v m = m ++ [(k, v)].
Proof.
  induction m as [|[k0 v0] m IH]; cbn; [done |].
  intros [Hk0 Hrest]%andb_true_iff. apply negb_true_iff in Hk0. rewrite Hk0.
  by rewrite IH.
Qed.

Lemma forallb_not_same_sym (k : JsVal) (ks : list JsVal) :
  forallb (fun k' => negb (same_value_zero k k')) ks
  = forallb (fun k' => negb (same_value_zero k' k)) ks.
Proof.
  induction ks as [|k0 ks IH]; cbn; [done |].
  by rewrite IH, same_value_zero_sym.
Qed.

(** Points with pairwise different timestamps each take an entry of their
    own, in order. *)
Lemma merge_points_distinct (m : list (JsVal * JsVal)) (l : list JsVal) :
  forallb has_finite_timestamp l = true ->
  distinct_keys (map fst m ++ map timestamp_of l) = true ->
  foldM merge_point m l = Ok (m ++ map (fun p => (timestamp_of p, p)) l).
Proof.
  revert m. induction l as [|p l IH]; cbn [foldM map forallb]; intros m Hfin Hd.
  - by rewrite app_nil_r.
  - apply andb_true_iff in Hfin as [Hp Hfin].
    assert (Hmp : merge_point m p = Ok (map_set (timestamp_of p) p m)).
    { unfold merge_point, timestamp_of, has_finite_timestamp in *.
      by destruct (get p "timestamp"). }
    rewrite Hmp. cbn [bind].
    assert (Hfresh : forallb (fun k' => negb (same_value_zero k' (timestamp_of p)))
                       (map fst m) = true).
    { clear -Hd. induction m as [|[k0 v0] m IHm]; cbn in *; [done |].
      apply andb_true_iff in Hd as [Hk0 Hd].
      rewrite forallb_app in Hk0. apply andb_true_iff in Hk0 as [_ Hk0].
      cbn in Hk0. apply andb_true_iff in Hk0 as [Hk0 _].
      rewrite Hk0. cbn. by apply IHm. }
    rewrite (map_set_fresh _ _ _ Hfresh).
    rewrite IH; [| done |].
    + by rewrite <- app_assoc.
    + rewrite map_app. cbn [map fst]. by rewrite <- app_assoc.
Qed.

Lemma json_value_array_elem (l : list JsVal) (e : JsVal) :
  json_value (JArr l) = Some (JArr l) -> e ∈ l -> default JNull (json_value e) = e.
Proof.
  cbn [json_value]. intros [= Hl] He.
  induction l as [|x l IH]; [by apply elem_of_nil in He |].
  cbn in Hl. injection Hl as Hx Hl.
  apply elem_of_cons in He as [-> | He]; [done | by apply IH].
Qed.

Lemma json_value_array_perm (l l' : list JsVal) :
  json_value (JArr l) = Some (JArr l) -> l' ≡ₚ l ->
  json_value (JArr l') = Some (JArr l').
Proof.
  intros Hl Hperm. cbn [json_value]. do 2 f_equal.
  assert (Hall : forall e, e ∈ l' -> default JNull (json_value e) = e).
  { intros e He. apply (json_value_array_elem l); [done | by rewrite <- Hperm]. }
  clear -Hall. induction l' as [|x l' IH]; cbn; [done |].
  rewrite Hall; [| left]. f_equal. apply IH. intros e He. apply Hall. by right.
Qed.

Lemma has_finite_timestamp_numeric (p : JsVal) :
  has_finite_timestamp p = true -> numeric_timestamp p.
Proof.
  unfold has_finite_timestamp, numeric_timestamp, timestamp_of.
  destruct (get p "timestamp") as [[| | |[| | |q]| | |]|]; try discriminate. done.
Qed.

(** C9.  [fetchBreadthData] with at least 50 cached points (with finite,
    pairwise different timestamps) whose age is at least the five-minute
    window, in a cycle in which every request fails: it returns the cached
    points in ascending order of timestamp -- only the latest query was
    tried -- and writes them back with the current clock as their
    written-at time (the write to [localStorage] going through; the cached
    points, read from JSON, are written as they are).  A call that follows
    within five minutes of that returns the same points without sending any
    request. *)
Theorem fetchBreadthData_stale_refresh (net : Network) (st : storage)
    (now later written : Z) (params : FilterParams) (cached : list JsVal) :
  st !! breadth_key params = Some (Json (cache_payload written (JArr cached))) ->
  (50 <= length cached)%nat ->
  Num.lt (entry_age now written) BREADTH_MIN_FRESH = false ->
  offline net ->
  forallb has_finite_timestamp cached = true ->
  distinct_keys (map timestamp_of cached) = true ->
  json_value (JArr cached) = Some (JArr cached) ->
  let o := fetchBreadthData net true st now later params in
  let sorted := stable_sort timestamp_before cached in
  let latest := BreadthSeries (breadth_base params) params true in
  settled o = Ok sorted
  /\ sorted ≡ₚ cached
  /\ StronglySorted timestamp_le sorted
  /\ (Sorted timestamp_le cached -> sorted = cached)
  /\ store o !! breadth_key params = Some (Json (cache_payload later (JArr sorted)))
  /\ sent o = [(latest, Direct); (latest, Proxy)]
  /\ (forall net' quota_ok next later',
        Num.lt (entry_age next later) BREADTH_MIN_FRESH = true ->
        settled (fetchBreadthData net' quota_ok (store o) next later' params) = Ok sorted
        /\ sent (fetchBreadthData net' quota_ok (store o) next later' params) = []).
Proof.
  intros Hst Hlen Hage Hoff Hfin Hdist Hjson o sorted latest.
  assert (Hcache : breadth_cache st now (breadth_key params)
                   = (cached, true, entry_age now written)).
  { destruct cached as [|p0 ps]; [cbn in Hlen; lia |]. by apply breadth_cache_entry. }
  assert (Hrefetch : negb true || (length cached <? 50)%nat = false).
  { cbn [negb orb]. apply Nat.ltb_ge. exact Hlen. }
  assert (Hmerge : merge_fetched false true cached [] [] = Ok sorted).
  { unfold merge_fetched. cbn [negb andb].
    rewrite (merge_points_distinct [] cached Hfin Hdist). cbn [bind foldM app].
    unfold map_values. rewrite map_map, map_id. reflexivity. }
  assert (Hperm : sorted ≡ₚ cached) by apply stable_sort_perm.
  assert (Hnum : Forall numeric_timestamp cached).
  { apply Forall_forall. intros p Hp. apply has_finite_timestamp_numeric.
    rewrite forallb_forall in Hfin. apply Hfin. by apply list_elem_of_In. }
  assert (Hsize : length sorted = length cached) by apply stable_sort_length.
  assert (Hpos : (0 <? length sorted)%nat = true).
  { apply Nat.ltb_lt. lia. }
  assert (Hjson' : json_value (JArr sorted) = Some (JArr sorted))
    by (by apply (json_value_array_perm cached)).
  assert (Htry : breadth_try (latest_raw net params) (JArr []) false true cached
                   true st later (breadth_key params)
                 = Ok (sorted, saveToCache true st later (breadth_key params) (JArr sorted))).
  { unfold breadth_try. rewrite (offline_latest_raw _ _ Hoff), processRaw_empty.
    cbn [bind]. rewrite Hmerge. cbn [bind]. by rewrite Hpos. }
  destruct (fetchBreadthData_stale net true st now later params _ _ _ Hcache)
    as (Hsettled & Hstore & Hsent); [by rewrite Hage |].
  rewrite Hrefetch in Hsettled, Hstore, Hsent. rewrite Htry in Hsettled, Hstore.
  fold o in Hsettled, Hstore, Hsent.
  assert (Hentry : store o !! breadth_key params
                   = Some (Json (cache_payload later (JArr sorted)))).
  { rewrite Hstore. by apply saveToCache_lookup. }
  split; [exact Hsettled |]. split; [exact Hperm |].
  split; [by apply sort_by_timestamp_sorted |].
  split.
  { intros Hsorted. apply (stable_sort_id timestamp_before timestamp_le); [| done].
    intros a b Hab. unfold timestamp_le in Hab. unfold timestamp_before.
    destruct (le_not_nan _ _ Hab) as [Ha Hb].
    rewrite lt_sub_zero by done. by apply le_not_lt. }
  split; [exact Hentry |].
  split.
  { rewrite Hsent, in_flight_nil_r. subst latest. unfold fetch_or_empty, fetchWithFallback.
    by destruct (Hoff (BreadthSeries (breadth_base params) params true)) as [-> ->]. }
  intros net' quota_ok next later' Hfresh.
  assert (Hcache' : breadth_cache (store o) next (breadth_key params)
                    = (sorted, true, entry_age next later)).
  { destruct sorted as [|s0 ss]; [cbn in Hsize; lia |]. by apply breadth_cache_entry. }
  by destruct (fetchBreadthData_fresh net' quota_ok (store o) next later' params _ _
                 Hcache' Hfresh) as (? & _ & ?).
Qed.

End BreadthMerge.

(** ** The query fingerprint ([getCacheKey]) *)

Lemma string_le_cases (a b : string) :
  string_le a b <-> String_as_OT.lt a b \/ a = b.
Proof.
  unfold string_le, String.leb.
  destruct (String.compare a b) eqn:E.
  - apply String_as_OT.cmp_eq in E. split; auto.
  - apply String_as_OT.cmp_lt in E. split; auto.
  - split; [discriminate |]. intros [Hlt | ->].
    + apply String_as_OT.cmp_lt in Hlt. unfold String_as_OT.cmp in Hlt. congruence.
    + assert (String_as_OT.cmp b b = Eq) by (by apply String_as_OT.cmp_eq).
      unfold String_as_OT.cmp in *. congruence.
Qed.

Lemma string_le_trans : Transitive string_le.
Proof.
  intros a b c [Hab | ->]%string_le_cases [Hbc | ->]%string_le_cases;
    apply string_le_cases; auto.
  left. by apply (String_as_OT.lt_trans a b c).
Qed.

Lemma string_le_antisym : AntiSymm eq string_le.
Proof. intros a b Hab Hba. by apply String.leb_antisym. Qed.

Lemma ltb_le (a b : string) : String.ltb a b = true -> string_le a b.
Proof. unfold string_le, String.ltb, String.leb. by destruct (String.compare a b). Qed.

Lemma not_ltb_le (a b : string) : String.ltb a b = false -> string_le b a.
Proof.
  unfold string_le, String.ltb, String.leb.
  pose proof (String_as_OT.cmp_antisym b a) as Hanti. unfold String_as_OT.cmp in Hanti.
  rewrite Hanti. by destruct (String.compare a b).
Qed.

(** Sorting the keys forgets the order they were inserted in. *)
Lemma sort_keys_perm (l1 l2 : list string) :
  l1 ≡ₚ l2 -> stable_sort String.ltb l1 = stable_sort String.ltb l2.
Proof.
  intros Hperm.
  assert (Hs : forall l, StronglySorted string_le (stable_sort String.ltb l)).
  { intros l. apply (stable_sort_sorted String.ltb string_le (fun _ => True)).
    - apply string_le_trans.
    - intros a b _ _. apply ltb_le.
    - intros a b _ _. apply not_ltb_le.
    - by apply Forall_forall. }
  apply (@StronglySorted_unique _ string_le string_le_antisym); [apply Hs | apply Hs |].
  by rewrite !stable_sort_perm.
Qed.

Lemma lookup_prop_Some (k : string) (v : JsVal) (props : list (string * JsVal)) :
  NoDup (map fst props) -> (lookup_prop k props = Some v <-> (k, v) ∈ props).
Proof.
  induction props as [|[k0 v0] props IH]; cbn.
  - intros _. split; [discriminate | by intros ?%elem_of_nil].
  - intros [Hk0 Hnd]%NoDup_cons. destruct (String.eqb k k0) eqn:E.
    + apply String.eqb_eq in E as ->. split.
      * intros [= ->]. left.
      * intros [[= ->] | Hin]%elem_of_cons; [done |].
        exfalso. apply Hk0. apply list_elem_of_fmap. by exists (k0, v).
    + apply String.eqb_neq in E. rewrite (IH Hnd). split; [by right |].
      intros [[= -> ->] | Hin]%elem_of_cons; done.
Qed.

Lemma lookup_prop_perm (k : string) (p1 p2 : list (string * JsVal)) :
  NoDup (map fst p1) -> p1 ≡ₚ p2 -> lookup_prop k p1 = lookup_prop k p2.
Proof.
  intros Hnd Hperm.
  assert (Hnd2 : NoDup (map fst p2)) by (by rewrite <- Hperm).
  destruct (lookup_prop k p1) as [v|] eqn:E1.
  - symmetry. apply lookup_prop_Some; [done |]. rewrite <- Hperm.
    by apply lookup_prop_Some.
  - destruct (lookup_prop k p2) as [v|] eqn:E2; [| done].
    apply lookup_prop_Some in E2; [| done]. rewrite <- Hperm in E2.
    apply lookup_prop_Some in E2; [| done]. congruence.
Qed.

Lemma omap_ext_all {A B : Type} (f g : A -> option B) (l : list A) :
  (forall x, f x = g x) -> omap f l = omap g l.
Proof. intros Hfg. induction l as [|x l IH]; cbn; [done |]. by rewrite Hfg, IH. Qed.

(** *** Strings as character lists *)

Lemma string_app_assoc (a b c : string) : (a +:+ b) +:+ c = a +:+ (b +:+ c).
Proof.
  induction a as [|x a IH]; [done |].
  change (String x ((a +:+ b) +:+ c) = String x (a +:+ (b +:+ c))). by rewrite IH.
Qed.

Lemma chars_app (a b : string) :
  list_ascii_of_string (a +:+ b) = list_ascii_of_string a ++ list_ascii_of_string b.
Proof.
  induction a as [|x a IH]; [done |].
  change (x :: list_ascii_of_string (a +:+ b)
          = x :: (list_ascii_of_string a ++ list_ascii_of_string b)).
  by rewrite IH.
Qed.

Lemma chars_inj (a b : string) :
  list_ascii_of_string a = list_ascii_of_string b -> a = b.
Proof.
  intros Hab. rewrite <- (string_of_list_ascii_of_string a),
    <- (string_of_list_ascii_of_string b). by rewrite Hab.
Qed.

Lemma join_with_cons (sep p q : string) (rest : list string) :
  join_with sep (p :: q :: rest) = p +:+ sep +:+ join_with sep (q :: rest).
Proof.
  cbn [join_with fold_left]. revert q.
  induction rest as [|r rest IH]; intros q; cbn [fold_left]; [done |].
  rewrite <- IH. f_equal. by rewrite !string_app_assoc.
Qed.

(** *** Quoted strings are read back *)

Lemma unescape_char (c : ascii) (rest : list ascii) :
  unescape (escape_char c ++ rest) = push c (unescape rest).
Proof. destruct c as [[] [] [] [] [] [] [] []]; reflexivity. Qed.

Lemma unescape_escape (s rest : list ascii) :
  unescape (concat (map escape_char s) ++ dquote :: rest) = Some (s, rest).
Proof.
  induction s as [|c s IH]; cbn [map concat]; [reflexivity |].
  by rewrite <- app_assoc, unescape_char, IH.
Qed.

Lemma json_quote_chars_delimited (s1 s2 t1 t2 : list ascii) :
  json_quote_chars s1 ++ t1 = json_quote_chars s2 ++ t2 -> s1 = s2 /\ t1 = t2.
Proof.
  unfold json_quote_chars. cbn [app]. rewrite <- !app_assoc. cbn [app].
  intros [= Heq]. apply (f_equal unescape) in Heq.
  rewrite !unescape_escape in Heq. by injection Heq.
Qed.

(** *** Numbers end at the next delimiter *)

Lemma clean_split (a b t t' : list ascii) (d d' : ascii) :
  forallb (fun c => negb (delimiter c)) a = true ->
  forallb (fun c => negb (delimiter c)) b = true ->
  delimiter d = true -> delimiter d' = true ->
  a ++ d :: t = b ++ d' :: t' -> a = b /\ t = t'.
Proof.
  revert b. induction a as [|x a IH]; intros [|y b]; cbn; intros Ha Hb Hd Hd' Heq.
  - by injection Heq.
  - injection Heq as -> _. apply andb_true_iff in Hb as [Hy _].
    by rewrite Hd in Hy.
  - injection Heq as -> _. apply andb_true_iff in Ha as [Hx _].
    by rewrite Hd' in Hx.
  - injection Heq as -> Heq.
    apply andb_true_iff in Ha as [_ Ha]. apply andb_true_iff in Hb as [_ Hb].
    destruct (IH b Ha Hb Hd Hd' Heq) as [-> ->]. done.
Qed.

Section Fingerprint.
Context `{JsRuntime}.

Lemma json_stringify_object (keys : list string) (props : list (string * JsVal)) :
  json_stringify (Some keys) (JObj props)
  = Some ("{" +:+ join_with "," (omap (json_member (Some keys) props) keys) +:+ "}").
Proof.
  cbn [json_stringify]. do 4 f_equal. apply omap_ext_all.
  intros k. unfold json_member.
  induction props as [|[k0 v0] props IH]; [done |].
  cbn [lookup_prop]. destruct (String.eqb k k0); [| exact IH].
  by destruct (json_stringify (Some keys) v0).
Qed.

Lemma sorted_keys_perm (p1 p2 : list (string * JsVal)) :
  NoDup (map fst p1) -> p1 ≡ₚ p2 -> sorted_keys p1 = sorted_keys p2.
Proof.
  intros Hnd Hperm. unfold sorted_keys, own_keys. apply sort_keys_perm.
  apply NoDup_Permutation; [apply NoDup_remove_dups | apply NoDup_remove_dups |].
  intros k. rewrite !elem_of_remove_dups. by rewrite Hperm.
Qed.

(** The fingerprint does not depend on the order of insertion of the keys. *)
Lemma getCacheKey_order (prefix : string) (p1 p2 : list (string * JsVal)) :
  NoDup (map fst p1) -> p1 ≡ₚ p2 -> getCacheKey prefix p1 = getCacheKey prefix p2.
Proof.
  intros Hnd Hperm. unfold getCacheKey.
  rewrite !json_stringify_object, (sorted_keys_perm p1 p2 Hnd Hperm).
  rewrite (omap_ext_all (json_member (Some (sorted_keys p2)) p1)
             (json_member (Some (sorted_keys p2)) p2)); [done |].
  intros k. unfold json_member. by rewrite (lookup_prop_perm k p1 p2 Hnd Hperm).
Qed.

(** *** A changed value changes the fingerprint *)

Lemma json_stringify_scalar (allow : option (list string)) (v : JsVal) :
  scalar v ->
  exists str, json_stringify allow v = Some str
    /\ list_ascii_of_string str = scalar_chars v.
Proof.
  destruct v as [| | |n|str0| |]; cbn [scalar]; try done.
  - intros [Hfin _]. cbn [json_stringify scalar_chars]. rewrite Hfin. eauto.
  - intros _. cbn [json_stringify scalar_chars]. eexists. split; [done |].
    unfold json_quote. apply list_ascii_of_string_of_list_ascii.
Qed.

Lemma lookup_prop_elem (k : string) (props : list (string * JsVal)) :
  k ∈ map fst props -> exists v, lookup_prop k props = Some v /\ v ∈ map snd props.
Proof.
  induction props as [|[k0 v0] props IH]; cbn; [by intros ?%elem_of_nil |].
  destruct (String.eqb k k0) eqn:E.
  - intros _. exists v0. split; [done | left].
  - apply String.eqb_neq in E. intros [-> | Hin]%elem_of_cons; [done |].
    destruct (IH Hin) as (v & Hv & Hin'). exists v. split; [done | by right].
Qed.

Lemma json_member_scalar (allow : option (list string)) (props : list (string * JsVal))
    (k : string) (v : JsVal) :
  lookup_prop k props = Some v -> scalar v ->
  exists str, json_member allow props k = Some (json_quote k +:+ ":" +:+ str)
    /\ list_ascii_of_string str = scalar_chars (prop_of props k).
Proof.
  intros Hk Hv. destruct (json_stringify_scalar allow v Hv) as (str & Hstr & Hchars).
  exists str. unfold json_member, prop_of. rewrite Hk, Hstr. done.
Qed.

Lemma members_chars (allow : option (list string)) (props : list (string * JsVal))
    (keys : list string) :
  scalars_at props keys ->
  list_ascii_of_string (join_with "," (omap (json_member allow props) keys) +:+ "}")
  = object_chars props keys.
Proof.
  induction keys as [|k rest IH]; intros Hs; [reflexivity |].
  destruct (Hs k) as (v & Hk & Hv); [left |].
  destruct (json_member_scalar allow props k v Hk Hv) as (str & Hm & Hchars).
  assert (Hrest : scalars_at props rest) by (intros k' Hk'; apply Hs; by right).
  specialize (IH Hrest). cbn [omap list_omap object_chars]. rewrite Hm.
  destruct rest as [|k' rest'].
  - cbn [omap list_omap join_with fold_left]. rewrite !chars_app, <- Hchars.
    by rewrite <- !app_assoc.
  - destruct (Hs k') as (v' & Hk' & Hv'); [right; left |].
    destruct (json_member_scalar allow props k' v' Hk' Hv') as (str' & Hm' & _).
    cbn [omap list_omap] in IH |- *. rewrite Hm' in IH |- *.
    rewrite chars_app in IH.
    rewrite join_with_cons, !string_app_assoc, !chars_app, IH, <- Hchars.
    reflexivity.
Qed.

Lemma delimiter_dquote : delimiter dquote = true.
Proof. reflexivity. Qed.

Lemma plain_number_chars (n : number) (c : ascii) (rest : list ascii) :
  plain_number n -> list_ascii_of_string (number_to_string n) = c :: rest ->
  delimiter c = false.
Proof.
  intros [_ Hclean] Hc. rewrite Hc in Hclean. cbn in Hclean.
  apply andb_true_iff in Hclean as [Hx _]. by apply negb_true_iff.
Qed.

(** A serialised scalar ends where the next delimiter stands. *)
Lemma scalar_chars_delimited (v1 v2 : JsVal) (d : ascii) (t1 t2 : list ascii) :
  scalar v1 -> scalar v2 -> delimiter d = true -> d <> dquote ->
  scalar_chars v1 ++ d :: t1 = scalar_chars v2 ++ d :: t2 ->
  scalar_chars v1 = scalar_chars v2 /\ t1 = t2.
Proof.
  intros H1 H2 Hd Hq Heq.
  destruct v1 as [| | |n1|s1| |], v2 as [| | |n2|s2| |]; cbn [scalar] in H1, H2;
    try done; cbn [scalar_chars] in *.
  - destruct H1 as [_ H1], H2 as [_ H2]. by apply (clean_split _ _ _ _ d d).
  - exfalso. destruct (list_ascii_of_string (number_to_string n1)) as [|c rest] eqn:E.
    + unfold json_quote_chars in Heq. cbn in Heq. by injection Heq as ->.
    + pose proof (plain_number_chars _ _ _ H1 E) as Hc.
      unfold json_quote_chars in Heq. cbn in Heq. injection Heq as -> _.
      by rewrite delimiter_dquote in Hc.
  - exfalso. destruct (list_ascii_of_string (number_to_string n2)) as [|c rest] eqn:E.
    + unfold json_quote_chars in Heq. cbn in Heq. by injection Heq as <-.
    + pose proof (plain_number_chars _ _ _ H2 E) as Hc.
      unfold json_quote_chars in Heq. cbn in Heq. injection Heq as <- _.
      by rewrite delimiter_dquote in Hc.
  - destruct (json_quote_chars_delimited _ _ _ _ Heq) as [-> Ht].
    split; [done | by injection Ht].
Qed.

Lemma object_chars_inj (p1 p2 : list (string * JsVal)) (keys : list string) :
  scalars_at p1 keys -> scalars_at p2 keys ->
  object_chars p1 keys = object_chars p2 keys ->
  forall k, k ∈ keys -> scalar_chars (prop_of p1 k) = scalar_chars (prop_of p2 k).
Proof.
  induction keys as [|k0 rest IH]; intros Hs1 Hs2 Heq k Hk;
    [by apply elem_of_nil in Hk |].
  destruct (Hs1 k0) as (v1 & Hk1 & Hv1); [left |].
  destruct (Hs2 k0) as (v2 & Hk2 & Hv2); [left |].
  assert (Hp1 : prop_of p1 k0 = v1) by (unfold prop_of; by rewrite Hk1).
  assert (Hp2 : prop_of p2 k0 = v2) by (unfold prop_of; by rewrite Hk2).
  cbn [object_chars] in Heq. rewrite Hp1, Hp2 in Heq.
  apply app_inv_head in Heq. injection Heq as Heq.
  assert (Hhead : scalar_chars v1 = scalar_chars v2
                  /\ (rest <> [] -> object_chars p1 rest = object_chars p2 rest)).
  { destruct rest as [|k1 rest'].
    - destruct (scalar_chars_delimited v1 v2 "}"%char [] [] Hv1 Hv2) as [Hv _]; done.
    - destruct (scalar_chars_delimited v1 v2 ","%char _ _ Hv1 Hv2 eq_refl
                  ltac:(done) Heq) as [Hv Ht]. done. }
  destruct Hhead as [Hv Hrest].
  apply elem_of_cons in Hk as [-> | Hk]; [by rewrite Hp1, Hp2 |].
  apply IH; [| | | done].
  - intros k' Hk'. apply Hs1. by right.
  - intros k' Hk'. apply Hs2. by right.
  - apply Hrest. intros ->. by apply elem_of_nil in Hk.
Qed.

Lemma scalar_chars_differ (v1 v2 : JsVal) :
  scalar v1 -> scalar v2 -> differ v1 v2 -> scalar_chars v1 <> scalar_chars v2.
Proof.
  intros H1 H2 Hd Heq.
  destruct (scalar_chars_delimited v1 v2 "}"%char [] [] H1 H2 eq_refl ltac:(done))
    as [_ _]; [by rewrite Heq |].
  destruct v1 as [| | |n1|s1| |], v2 as [| | |n2|s2| |]; cbn [scalar] in H1, H2;
    try done; cbn [scalar_chars differ] in *.
  - by apply chars_inj in Heq.
  - destruct (list_ascii_of_string (number_to_string n1)) as [|c rest] eqn:E;
      [discriminate |].
    pose proof (plain_number_chars _ _ _ H1 E) as Hc.
    unfold json_quote_chars in Heq. injection Heq as -> _.
    by rewrite delimiter_dquote in Hc.
  - destruct (list_ascii_of_string (number_to_string n2)) as [|c rest] eqn:E;
      [discriminate |].
    pose proof (plain_number_chars _ _ _ H2 E) as Hc.
    unfold json_quote_chars in Heq. injection Heq as <- _.
    by rewrite delimiter_dquote in Hc.
  - assert (Hq : json_quote_chars (list_ascii_of_string s1) ++ []
                 = json_quote_chars (list_ascii_of_string s2) ++ [])
      by (by rewrite Heq).
    destruct (json_quote_chars_delimited _ _ _ _ Hq) as [Hs _].
    by apply chars_inj in Hs.
Qed.

(** A value of a key that differs between two objects of strings and finite
    numbers with the same keys changes the fingerprint. *)
Lemma getCacheKey_sensitive (prefix : string) (p1 p2 : list (string * JsVal))
    (k : string) (v1 v2 : JsVal) :
  (forall k', k' ∈ map fst p1 <-> k' ∈ map fst p2) ->
  Forall scalar (map snd p1) -> Forall scalar (map snd p2) ->
  lookup_prop k p1 = Some v1 -> lookup_prop k p2 = Some v2 ->
  differ v1 v2 ->
  getCacheKey prefix p1 <> getCacheKey prefix p2.
Proof.
  intros Hkeys Hs1 Hs2 Hk1 Hk2 Hdiff Heq.
  assert (Hsorted : sorted_keys p1 = sorted_keys p2).
  { unfold sorted_keys, own_keys. apply sort_keys_perm.
    apply NoDup_Permutation; [apply NoDup_remove_dups | apply NoDup_remove_dups |].
    intros k'. rewrite !elem_of_remove_dups. apply Hkeys. }
  assert (Hat : forall p, Forall scalar (map snd p) ->
                (forall k', k' ∈ sorted_keys p2 -> k' ∈ map fst p) ->
                scalars_at p (sorted_keys p2)).
  { intros p Hs Hin k' Hk'. destruct (lookup_prop_elem k' p (Hin k' Hk')) as (v & Hv & Hvin).
    exists v. split; [done |]. by eapply Forall_forall in Hs. }
  assert (Hin2 : forall k', k' ∈ sorted_keys p2 -> k' ∈ map fst p2).
  { intros k'. unfold sorted_keys, own_keys.
    by rewrite elem_of_stable_sort, elem_of_remove_dups. }
  assert (Hat1 : scalars_at p1 (sorted_keys p2)).
  { apply Hat; [done |]. intros k' Hk'. apply Hkeys. by apply Hin2. }
  assert (Hat2 : scalars_at p2 (sorted_keys p2)) by (by apply Hat).
  unfold getCacheKey in Heq. rewrite !json_stringify_object, Hsorted in Heq.
  cbn [default] in Heq. unfold id in Heq. do 4 apply String.app_inj in Heq.
  apply (f_equal list_ascii_of_string) in Heq.
  rewrite !members_chars in Heq by done.
  assert (Hk : k ∈ sorted_keys p2).
  { unfold sorted_keys, own_keys. rewrite elem_of_stable_sort, elem_of_remove_dups.
    apply list_elem_of_fmap. exists (k, v2). split; [done |].
    clear -Hk2. induction p2 as [|[k0 v0] p2 IH]; [discriminate |]. cbn in Hk2.
    destruct (String.eqb k k0) eqn:E.
    - apply String.eqb_eq in E as ->. injection Hk2 as ->. left.
    - right. by apply IH. }
  pose proof (object_chars_inj p1 p2 (sorted_keys p2) Hat1 Hat2 Heq k Hk) as Hsame.
  unfold prop_of in Hsame. rewrite Hk1, Hk2 in Hsame. cbn [or_undefined] in Hsame.
  assert (Hv1 : scalar v1).
  { destruct (Hat1 k Hk) as (v & Hv & Hsv). congruence. }
  assert (Hv2 : scalar v2).
  { destruct (Hat2 k Hk) as (v & Hv & Hsv). congruence. }
  by apply (scalar_chars_differ v1 v2).
Qed.

(** C6, as the code has it.  For parameter objects with unique keys,
    [getCacheKey] returns the same string whatever the order in which the
    same key-value pairs were inserted.  For two objects with the same keys
    whose values are strings and finite numbers, a key whose two values
    differ (two different strings, two numbers that print differently, or a
    string and a number) gives different strings. *)
Theorem getCacheKey_fingerprint (prefix : string) (p1 p2 : list (string * JsVal)) :
  NoDup (map fst p1) ->
  (p1 ≡ₚ p2 -> getCacheKey prefix p1 = getCacheKey prefix p2)
  /\ (forall k v1 v2,
        (forall k', k' ∈ map fst p1 <-> k' ∈ map fst p2) ->
        Forall scalar (map snd p1) -> Forall scalar (map snd p2) ->
        lookup_prop k p1 = Some v1 -> lookup_prop k p2 = Some v2 ->
        differ v1 v2 ->
        getCacheKey prefix p1 <> getCacheKey prefix p2).
Proof.
  intros Hnd. split; [by apply getCacheKey_order |].
  intros k v1 v2. apply getCacheKey_sensitive.
Qed.

End Fingerprint.

(* ================================================================== *)
(** * Further properties of the code *)
(* ================================================================== *)

Section CacheMore.
Context `{JsRuntime}.

(** What a successful [loadFromCache] says about the store, and conversely. *)
Lemma loadFromCache_iff (st : storage) (now : Z) (key : string)
    (ttl : option number) (data : JsVal) (age : number) :
  loadFromCache st now key ttl = Some (data, age)
  <-> exists payload written,
        st !! key = Some (Json payload)
        /\ get payload "data" = Ok data /\ truthy data = true
        /\ get payload "timestamp" = Ok written
        /\ age = Num.sub (Num.of_Z now) (to_number written)
        /\ match ttl with
           | Some limit => Num.gt age limit = false
           | None => True
           end.
Proof.
  unfold loadFromCache, loadFromCache_body. split.
  - destruct (st !! key) as [[|payload]|] eqn:Hst; try discriminate.
    destruct (truthy payload); cbn; [| discriminate].
    destruct (get payload "data") as [d|e] eqn:Hget; cbn; [| discriminate].
    destruct (truthy d) eqn:Hd; cbn; [| discriminate].
    destruct (get payload "timestamp") as [w|e] eqn:Hw; cbn; [| discriminate].
    intros Hload. exists payload, w.
    destruct ttl as [limit|].
    + destruct (Num.gt _ limit) eqn:Hgt; [discriminate |].
      injection Hload as <- <-. auto 10.
    + injection Hload as <- <-. auto 10.
  - intros (payload & w & Hst & Hget & Hd & Hw & -> & Hfresh). rewrite Hst.
    assert (Hp : truthy payload = true).
    { destruct payload as [| |b|n|s|l|props]; cbn in Hget; try discriminate Hget;
        try (injection Hget as <-; discriminate Hd); reflexivity. }
    rewrite Hp. cbn [negb]. rewrite Hget. cbn [bind]. rewrite Hd. cbn [negb].
    rewrite Hw. cbn [bind].
    destruct ttl as [limit|]; [by rewrite Hfresh | done].
Qed.


Lemma sub_nan (a : number) : Num.sub a NaN = NaN.
Proof. by destruct a. Qed.

Lemma gt_nan (a : number) : Num.gt NaN a = false.
Proof. by destruct a. Qed.

(** X1.  An entry whose [timestamp] does not convert to a number (it is
    missing, say) has age [NaN], which no TTL exceeds: it is returned for
    every TTL. *)
Theorem loadFromCache_unreadable_timestamp (st : storage) (now : Z) (key : string)
    (payload data written : JsVal) (ttl : option number) :
  st !! key = Some (Json payload) ->
  get payload "data" = Ok data ->
  truthy data = true ->
  get payload "timestamp" = Ok written ->
  to_number written = NaN ->
  loadFromCache st now key ttl = Some (data, NaN).
Proof.
  intros Hst Hget Hd Hw Hnan. apply loadFromCache_iff.
  exists payload, written. rewrite Hnan, sub_nan.
  do 5 (split; [done |]). destruct ttl; [apply gt_nan | done].
Qed.

(** X2.  [saveToCache] then [loadFromCache]: what was saved comes back as
    [JSON.parse(JSON.stringify(data))] with the time elapsed since the write
    as its age, under the TTL rule; a payload that serialises to a falsy value
    (or to nothing) reads as absent; other keys are not touched; and a write
    that fails leaves the store as it was. *)
Theorem cache_round_trip (st : storage) (now later : Z) (key : string) (data : JsVal) :
  let st' := saveToCache true st now key data in
  (forall data',
     json_value data = Some data' -> truthy data' = true ->
     loadFromCache st' later key None = Some (data', entry_age later now)
     /\ (forall limit,
           loadFromCache st' later key (Some limit)
           = if Num.gt (entry_age later now) limit then None
             else Some (data', entry_age later now)))
  /\ (forall ttl,
        match json_value data with
        | Some data' => truthy data' = false
        | None => True
        end ->
        loadFromCache st' later key ttl = None)
  /\ (forall key' ttl q,
        key' <> key ->
        loadFromCache (saveToCache q st now key data) later key' ttl
        = loadFromCache st later key' ttl)
  /\ saveToCache false st now key data = st.
Proof.
  intros st'. split; [| split; [| split]].
  - intros data' Hjson Htruthy.
    pose proof (saveToCache_lookup st now key data data' Hjson) as Hst.
    split; [by rewrite (loadFromCache_entry _ _ _ _ _ None Hst Htruthy) |].
    intros limit. by rewrite (loadFromCache_entry _ _ _ _ _ (Some limit) Hst Htruthy).
  - intros ttl Hfalsy. subst st'. unfold saveToCache, loadFromCache, loadFromCache_body.
    cbn [json_value]. destruct (json_value data) as [data'|] eqn:Hjson.
    + cbn. rewrite lookup_insert_eq. cbn. by rewrite Hfalsy.
    + cbn. rewrite lookup_insert_eq. reflexivity.
  - intros key' ttl q Hne. unfold loadFromCache, loadFromCache_body.
    by rewrite saveToCache_other.
  - reflexivity.
Qed.

End CacheMore.

Section IndexFetcherMore.
Context `{JsRuntime}.

Lemma fetchVNIndexData_hit (net : Network) (quota_ok : bool) (st : storage)
    (now later written : Z) (url : option string) (data : JsVal) :
  st !! vnindex_key url = Some (Json (cache_payload written data)) ->
  truthy data = true ->
  Num.gt (entry_age now written) VNINDEX_TTL = false ->
  settled (fetchVNIndexData net quota_ok st now later url) = Ok data
  /\ sent (fetchVNIndexData net quota_ok st now later url) = []
  /\ store (fetchVNIndexData net quota_ok st now later url) = st.
Proof.
  intros Hst Hd Hage. unfold fetchVNIndexData. fold (vnindex_key url).
  rewrite (loadFromCache_entry _ _ _ _ _ (Some VNINDEX_TTL) Hst Hd), Hage. done.
Qed.

Lemma fetchWithFallback_answered (net : Network) (req : request) (body : JsVal) :
  answered net req body -> (fetchWithFallback net req).1 = Ok body.
Proof.
  unfold fetchWithFallback. intros [Hd | [Hd Hp]]; rewrite Hd; [done |]. by rewrite Hp.
Qed.

Lemma fetchWithFallback_direct_first (net : Network) (req : request) :
  exists rest, (fetchWithFallback net req).2 = (req, Direct) :: rest.
Proof.
  unfold fetchWithFallback. destruct (direct net req); [by eexists |].
  destruct (proxy net req); by eexists.
Qed.

(** X3.  The four-hour window of [fetchVNIndexData]: an entry at most four
    hours old (four hours exactly included) is returned without a request and
    without a write; an older one sends the request. *)
Theorem fetchVNIndexData_fresh_window (net : Network) (quota_ok : bool) (st : storage)
    (now later written : Z) (url : option string) (data : JsVal) :
  st !! vnindex_key url = Some (Json (cache_payload written data)) ->
  truthy data = true ->
  let o := fetchVNIndexData net quota_ok st now later url in
  (Num.gt (entry_age now written) VNINDEX_TTL = false ->
   settled o = Ok data /\ store o = st /\ sent o = [])
  /\ (Num.same (entry_age now written) VNINDEX_TTL = true -> sent o = [])
  /\ (Num.gt (entry_age now written) VNINDEX_TTL = true ->
      (IndexSeries (vnindex_target url), Direct) ∈ sent o).
Proof.
  intros Hst Hd o.
  assert (Hhit : Num.gt (entry_age now written) VNINDEX_TTL = false ->
                 settled o = Ok data /\ store o = st /\ sent o = []).
  { intros Hage.
    destruct (fetchVNIndexData_hit net quota_ok st now later written url data)
      as (? & ? & ?); done. }
  split; [done |]. split.
  - intros Hsame. apply Hhit. by apply same_not_gt.
  - intros Hage. subst o. unfold fetchVNIndexData. fold (vnindex_key url).
    rewrite (loadFromCache_entry _ _ _ _ _ (Some VNINDEX_TTL) Hst Hd), Hage.
    destruct (fetchWithFallback_direct_first net (IndexSeries (vnindex_target url)))
      as [rest Hlog].
    destruct (fetchWithFallback net (IndexSeries (vnindex_target url))) as [fetched log].
    cbn [snd] in Hlog. subst log.
    destruct (vnindex_try _ _ _ _ _) as [[v st']|e]; cbn; left.
Qed.

(** X4.  With nothing fresh in the cache, a body that parses to a non-empty
    series is returned and saved under the key with the clock of the answer;
    the calls of the next four hours return the saved copy -- the series after
    a JSON round trip -- without a request. *)
Theorem fetchVNIndexData_then_cached (net : Network) (st : storage)
    (now later : Z) (url : option string) (body : JsVal) (parsed : list JsVal) :
  loadFromCache st now (vnindex_key url) (Some VNINDEX_TTL) = None ->
  answered net (IndexSeries (vnindex_target url)) body ->
  truthy body = true ->
  parseVNIndexData body = Ok parsed ->
  parsed <> [] ->
  let o := fetchVNIndexData net true st now later url in
  let saved := JArr (json_copy parsed) in
  settled o = Ok (JArr parsed)
  /\ store o !! vnindex_key url = Some (Json (cache_payload later saved))
  /\ (forall net' quota_ok next later',
        Num.gt (entry_age next later) VNINDEX_TTL = false ->
        let o' := fetchVNIndexData net' quota_ok (store o) next later' url in
        settled o' = Ok saved /\ sent o' = [] /\ store o' = store o).
Proof.
  intros Hmiss Hfetch Hbody Hparse Hne o saved.
  apply fetchWithFallback_answered in Hfetch.
  assert (Ho : settled o = Ok (JArr parsed)
               /\ store o = saveToCache true st later (vnindex_key url) (JArr parsed)).
  { subst o. unfold fetchVNIndexData. fold (vnindex_key url). rewrite Hmiss.
    destruct (fetchWithFallback net (IndexSeries (vnindex_target url))) as [fetched log].
    cbn [fst] in Hfetch. subst fetched. unfold vnindex_try. cbn [bind].
    rewrite Hbody. cbn [negb]. rewrite Hparse. cbn [bind].
    destruct parsed as [|p ps]; [done |]. done. }
  destruct Ho as [Hsettled Hstore]. split; [done |].
  assert (Hentry : store o !! vnindex_key url = Some (Json (cache_payload later saved))).
  { rewrite Hstore. by apply saveToCache_lookup. }
  split; [done |].
  intros net' quota_ok next later' Hage.
  destruct (fetchVNIndexData_hit net' quota_ok (store o) next later' later url saved)
    as (? & ? & ?); done.
Qed.

(** X5.  A body that parses to no point (an unsupported shape, an empty array)
    is answered with the empty list and nothing is saved -- also when an older
    entry is in the cache: the stale entry is for failures only. *)
Theorem fetchVNIndexData_empty_series (net : Network) (quota_ok : bool) (st : storage)
    (now later : Z) (url : option string) (body : JsVal) :
  loadFromCache st now (vnindex_key url) (Some VNINDEX_TTL) = None ->
  answered net (IndexSeries (vnindex_target url)) body ->
  truthy body = true ->
  parseVNIndexData body = Ok [] ->
  let o := fetchVNIndexData net quota_ok st now later url in
  settled o = Ok (JArr []) /\ store o = st.
Proof.
  intros Hmiss Hfetch Hbody Hparse o. apply fetchWithFallback_answered in Hfetch.
  subst o. unfold fetchVNIndexData. fold (vnindex_key url). rewrite Hmiss.
  destruct (fetchWithFallback net (IndexSeries (vnindex_target url))) as [fetched log].
  cbn [fst] in Hfetch. subst fetched. unfold vnindex_try. cbn [bind].
  rewrite Hbody. cbn [negb]. rewrite Hparse. done.
Qed.

End IndexFetcherMore.

Section BreadthFetcherMore.
Context `{JsRuntime}.

Lemma same_not_lt (a b : number) : Num.same a b = true -> Num.lt a b = false.
Proof.
  destruct a as [| | |x], b as [| | |y]; simpl; try discriminate; try reflexivity.
  intros E. apply Qeq_bool_iff in E. apply Qltb_ge. rewrite E. apply Qle_refl.
Qed.

Lemma breadth_try_latest_throws (latestRaw historyRaw : JsVal) (refetch valid : bool)
    (cached : list JsVal) (q : bool) (st : storage) (later : Z) (key : string) (e : exn) :
  processRaw latestRaw = Throw e ->
  breadth_try latestRaw historyRaw refetch valid cached q st later key = Throw e.
Proof. intros E. unfold breadth_try. by rewrite E. Qed.

Lemma breadth_try_history_throws (latestRaw historyRaw : JsVal) (refetch valid : bool)
    (cached : list JsVal) (q : bool) (st : storage) (later : Z) (key : string)
    (l : list JsVal) (e : exn) :
  processRaw latestRaw = Ok l ->
  processRaw historyRaw = Throw e ->
  breadth_try latestRaw historyRaw refetch valid cached q st later key = Throw e.
Proof. intros E1 E2. unfold breadth_try. by rewrite E1, E2. Qed.

(** X6.  [fetchBreadthData] never raises.  When the cache is not fresh and the
    processing of either response throws, it is fulfilled with the cached
    points if the cache is valid and with [[]] otherwise, and the store is
    left as it was. *)
Theorem fetchBreadthData_total (net : Network) (quota_ok : bool) (st : storage)
    (now later : Z) (params : FilterParams) :
  let o := fetchBreadthData net quota_ok st now later params in
  (exists l, settled o = Ok l)
  /\ (forall cached valid age e,
        breadth_cache st now (breadth_key params) = (cached, valid, age) ->
        valid && Num.lt age BREADTH_MIN_FRESH = false ->
        let refetch := negb valid || (length cached <? 50)%nat in
        processRaw (latest_raw net params) = Throw e
        \/ ((exists l, processRaw (latest_raw net params) = Ok l)
            /\ refetch = true /\ processRaw (history_raw net params) = Throw e) ->
        settled o = Ok (if valid then cached else []) /\ store o = st).
Proof.
  intros o. split.
  - subst o. destruct (breadth_cache st now (breadth_key params)) as [[cached valid] age] eqn:Hc.
    destruct (valid && Num.lt age BREADTH_MIN_FRESH) eqn:Hf.
    + apply andb_true_iff in Hf as [-> Hf].
      destruct (fetchBreadthData_fresh net quota_ok st now later params _ _ Hc Hf) as (-> & _).
      eauto.
    + destruct (fetchBreadthData_stale net quota_ok st now later params _ _ _ Hc Hf)
        as (-> & _). eauto.
  - intros cached valid age e Hc Hf refetch Hthrow.
    destruct (fetchBreadthData_stale net quota_ok st now later params _ _ _ Hc Hf)
      as (Hs & Hst & _). fold refetch in Hs, Hst. fold o in Hs, Hst.
    assert (Htry : breadth_try (latest_raw net params)
                     (if refetch then history_raw net params else JArr [])
                     refetch valid cached quota_ok st later (breadth_key params)
                   = Throw e).
    { destruct Hthrow as [E | ([l E1] & Hr & E2)].
      - by apply breadth_try_latest_throws.
      - rewrite Hr. by eapply breadth_try_history_throws. }
    rewrite Htry in Hs, Hst. done.
Qed.

Lemma fetch_or_empty_log (net : Network) (req : request) :
  (fetch_or_empty net req).2 = (fetchWithFallback net req).2.
Proof. unfold fetch_or_empty. by destruct (fetchWithFallback net req) as [[b|e] log]. Qed.

Lemma fetchWithFallback_log (net : Network) (req : request) :
  (fetchWithFallback net req).2
  = (req, Direct) :: match direct net req with
                     | Some _ => []
                     | None => [(req, Proxy)]
                     end.
Proof.
  unfold fetchWithFallback. destruct (direct net req); [done |].
  by destruct (proxy net req).
Qed.

(** X7.  The five-minute window of [fetchBreadthData]: a non-empty cached
    array younger than five minutes is returned without a request and without
    a write; at five minutes exactly, and beyond, the latest query is sent.
    *)
Theorem fetchBreadthData_fresh_window (net : Network) (quota_ok : bool) (st : storage)
    (now later written : Z) (params : FilterParams) (p : JsVal) (ps : list JsVal) :
  st !! breadth_key params = Some (Json (cache_payload written (JArr (p :: ps)))) ->
  let o := fetchBreadthData net quota_ok st now later params in
  let latest := BreadthSeries (breadth_base params) params true in
  (Num.lt (entry_age now written) BREADTH_MIN_FRESH = true ->
   settled o = Ok (p :: ps) /\ store o = st /\ sent o = [])
  /\ (Num.lt (entry_age now written) BREADTH_MIN_FRESH = false ->
      (latest, Direct) ∈ sent o)
  /\ (Num.same (entry_age now written) BREADTH_MIN_FRESH = true ->
      (latest, Direct) ∈ sent o).
Proof.
  intros Hst o latest.
  pose proof (breadth_cache_entry st now written _ p ps Hst) as Hc.
  assert (Hstale : Num.lt (entry_age now written) BREADTH_MIN_FRESH = false ->
                   (latest, Direct) ∈ sent o).
  { intros Hage.
    destruct (fetchBreadthData_stale net quota_ok st now later params _ _ _ Hc)
      as (_ & _ & Hsent); [by rewrite Hage |].
    fold o in Hsent. rewrite Hsent, fetch_or_empty_log, fetchWithFallback_log.
    apply elem_of_app. left. left. }
  split; [| split].
  - intros Hage. by apply (fetchBreadthData_fresh net quota_ok st now later params _ _ Hc).
  - done.
  - intros Hsame. apply Hstale. by apply same_not_lt.
Qed.

(** X8.  The requests of a cycle that goes to the network: the latest query
    always; the history query exactly when the cache is not valid or holds
    fewer than 50 points; the proxy only for a request whose direct attempt
    failed; four attempts at most. *)
Theorem fetchBreadthData_requests (net : Network) (quota_ok : bool) (st : storage)
    (now later : Z) (params : FilterParams)
    (cached : list JsVal) (valid : bool) (age : number) :
  breadth_cache st now (breadth_key params) = (cached, valid, age) ->
  valid && Num.lt age BREADTH_MIN_FRESH = false ->
  let o := fetchBreadthData net quota_ok st now later params in
  let latest := BreadthSeries (breadth_base params) params true in
  let history := BreadthSeries (breadth_base params) params false in
  (latest, Direct) ∈ sent o
  /\ ((history, Direct) ∈ sent o <-> valid = false \/ (length cached < 50)%nat)
  /\ (forall req, (req, Direct) ∈ sent o -> req = latest \/ req = history)
  /\ (forall req, (req, Proxy) ∈ sent o <-> (req, Direct) ∈ sent o /\ direct net req = None)
  /\ (length (sent o) <= 4)%nat.
Proof.
  intros Hc Hf o latest history.
  destruct (fetchBreadthData_stale net quota_ok st now later params _ _ _ Hc Hf)
    as (_ & _ & Hsent). fold o latest history in Hsent.
  rewrite !fetch_or_empty_log, !fetchWithFallback_log in Hsent.
  assert (Hr : negb valid || (length cached <? 50)%nat = true
               <-> valid = false \/ (length cached < 50)%nat).
  { rewrite orb_true_iff, negb_true_iff, Nat.ltb_lt. done. }
  rewrite Hsent. clear Hsent.
  match goal with
  | |- context [in_flight ?l1 ?l2] =>
      pose proof (elem_of_in_flight l1 l2) as Hmem;
      pose proof (length_in_flight l1 l2) as Hlen;
      rewrite <- length_app in Hlen;
      set (log := in_flight l1 l2) in *; clearbody log;
      enough (Hlogs :
        (latest, Direct) ∈ l1 ++ l2
        /\ ((history, Direct) ∈ l1 ++ l2 <-> valid = false \/ (length cached < 50)%nat)
        /\ (forall req, (req, Direct) ∈ l1 ++ l2 -> req = latest \/ req = history)
        /\ (forall req, (req, Proxy) ∈ l1 ++ l2
                        <-> (req, Direct) ∈ l1 ++ l2 /\ direct net req = None)
        /\ (length (l1 ++ l2) <= 4)%nat)
  end.
  { destruct Hlogs as (A & B & C & D & E).
    split; [apply Hmem, elem_of_app, A |].
    split; [rewrite Hmem, <- elem_of_app; exact B |].
    split; [intros req Hin; apply C, elem_of_app, Hmem, Hin |].
    split; [intros req; rewrite !Hmem, <- !elem_of_app; apply D |].
    by rewrite Hlen. }
  clear Hmem Hlen log.
  destruct (negb valid || (length cached <? 50)%nat) eqn:Hre.
  - assert (Hyes : valid = false \/ (length cached < 50)%nat) by by apply Hr.
    split; [left |]. split.
    { split; [done |]. intros _. apply elem_of_app. right. left. }
    split.
    { intros req Hin. apply elem_of_app in Hin as [Hin | Hin].
      - apply elem_of_cons in Hin as [[= ->] | Hin]; [by left |].
        destruct (direct net latest); [by apply elem_of_nil in Hin |].
        apply list_elem_of_singleton in Hin. discriminate Hin.
      - apply elem_of_cons in Hin as [[= ->] | Hin]; [by right |].
        destruct (direct net history); [by apply elem_of_nil in Hin |].
        apply list_elem_of_singleton in Hin. discriminate Hin. }
    split.
    { intros req. rewrite !elem_of_app, !elem_of_cons. split.
      - intros [[[=] | Hin] | [[=] | Hin]].
        + destruct (direct net latest) eqn:Hd; [by apply elem_of_nil in Hin |].
          apply list_elem_of_singleton in Hin. injection Hin as ->. auto.
        + destruct (direct net history) eqn:Hd; [by apply elem_of_nil in Hin |].
          apply list_elem_of_singleton in Hin. injection Hin as ->. auto.
      - intros [[[[= ->] | Hin] | [[= ->] | Hin]] Hd].
        + left. right. fold latest. rewrite Hd. left.
        + left. right. destruct (direct net latest); [by apply elem_of_nil in Hin |].
          apply list_elem_of_singleton in Hin. discriminate Hin.
        + right. right. fold history. rewrite Hd. left.
        + right. right. destruct (direct net history); [by apply elem_of_nil in Hin |].
          apply list_elem_of_singleton in Hin. discriminate Hin. }
    rewrite length_app. cbn [length].
    destruct (direct net latest), (direct net history); cbn; lia.
  - assert (Hno : ~ (valid = false \/ (length cached < 50)%nat)).
    { intros Hyes. apply Hr in Hyes. discriminate Hyes. }
    rewrite app_nil_r.
    split; [left |]. split.
    { split; [| done]. intros Hin. apply elem_of_cons in Hin as [[=] | Hin].
      destruct (direct net latest); [by apply elem_of_nil in Hin |].
      apply list_elem_of_singleton in Hin. discriminate Hin. }
    split.
    { intros req Hin. apply elem_of_cons in Hin as [[= ->] | Hin]; [by left |].
      destruct (direct net latest); [by apply elem_of_nil in Hin |].
      apply list_elem_of_singleton in Hin. discriminate Hin. }
    split.
    { intros req. rewrite !elem_of_cons. split.
      - intros [[=] | Hin].
        destruct (direct net latest) eqn:Hd; [by apply elem_of_nil in Hin |].
        apply list_elem_of_singleton in Hin. injection Hin as ->. auto.
      - intros [[[= ->] | Hin] Hd].
        + right. fold latest. rewrite Hd. left.
        + right. destruct (direct net latest); [by apply elem_of_nil in Hin |].
          apply list_elem_of_singleton in Hin. discriminate Hin. }
    cbn [length]. destruct (direct net latest); cbn; lia.
Qed.

End BreadthFetcherMore.

Section CacheKeys.
Context `{JsRuntime}.

Lemma filterIdentity_base (p : FilterParams) :
  filterIdentity p
  = [("floor", JStr (floor p));
     ("min_ad", JNum (min_adClose p));
     ("max_ad", JNum (max_adClose p));
     ("min_ma", JNum (min_MA20 p));
     ("max_ma", JNum (max_MA20 p));
     ("breadthUrl", JStr (breadth_base p))].
Proof. reflexivity. Qed.

Lemma same_filter_key (p1 p2 : FilterParams) :
  same_filter p1 p2 -> breadth_key p1 = breadth_key p2.
Proof.
  intros (Hf & H1 & H2 & H3 & H4 & Hb). unfold breadth_key.
  rewrite !filterIdentity_base. by rewrite Hf, H1, H2, H3, H4, Hb.
Qed.

Lemma prefix_differs (a b : string) :
  CACHE_PREFIX +:+ "VNINDEX" +:+ a <> CACHE_PREFIX +:+ "BREADTH" +:+ b.
Proof. unfold CACHE_PREFIX. cbn. discriminate. Qed.

(** X9.  The keys of the cache.  An index key is never a breadth key.  Two
    index urls share a key exactly when they name the same target (a missing
    or empty url names the default).  Two parameter sets of the same filter
    share a breadth key, whatever their lookback and custom dates; and when
    the bounds print plainly, a different exchange list, endpoint or bound
    gives a different key. *)
Theorem cache_keys_separate :
  (forall url params, vnindex_key url <> breadth_key params)
  /\ (forall u1 u2, vnindex_key u1 = vnindex_key u2 <-> vnindex_target u1 = vnindex_target u2)
  /\ (forall p1 p2, same_filter p1 p2 -> breadth_key p1 = breadth_key p2)
  /\ (forall p1 p2,
        plain_bounds p1 -> plain_bounds p2 ->
        floor p1 <> floor p2 \/ breadth_base p1 <> breadth_base p2
        \/ number_to_string (min_adClose p1) <> number_to_string (min_adClose p2)
        \/ number_to_string (max_adClose p1) <> number_to_string (max_adClose p2)
        \/ number_to_string (min_MA20 p1) <> number_to_string (min_MA20 p2)
        \/ number_to_string (max_MA20 p1) <> number_to_string (max_MA20 p2) ->
        breadth_key p1 <> breadth_key p2).
Proof.
  split; [| split; [| split]].
  - intros url params. unfold vnindex_key, breadth_key, getCacheKey.
    apply prefix_differs.
  - intros u1 u2. split; [| unfold vnindex_key; by intros ->].
    intros Heq. destruct (decide (vnindex_target u1 = vnindex_target u2)) as [|Hne]; [done |].
    exfalso. revert Heq. unfold vnindex_key.
    apply (getCacheKey_sensitive "VNINDEX" _ _ "url"
             (JStr (vnindex_target u1)) (JStr (vnindex_target u2))); try done.
    + by apply List.Forall_cons.
    + by apply List.Forall_cons.
  - apply same_filter_key.
  - intros p1 p2 (Ha1 & Hb1 & Hc1 & Hd1) (Ha2 & Hb2 & Hc2 & Hd2) Hdiff.
    unfold breadth_key. rewrite !filterIdentity_base.
    assert (Hs : forall p, plain_bounds p ->
              Forall scalar (map snd
                [("floor", JStr (floor p)); ("min_ad", JNum (min_adClose p));
                 ("max_ad", JNum (max_adClose p)); ("min_ma", JNum (min_MA20 p));
                 ("max_ma", JNum (max_MA20 p)); ("breadthUrl", JStr (breadth_base p))])).
    { intros p (? & ? & ? & ?). cbn [map snd].
      repeat (apply List.Forall_cons; [by cbn |]). apply List.Forall_nil. }
    destruct Hdiff as [Hd | [Hd | [Hd | [Hd | [Hd | Hd]]]]].
    + eapply (getCacheKey_sensitive "BREADTH" _ _ "floor");
        [intros k'; reflexivity | by apply Hs | by apply Hs
        | reflexivity | reflexivity | exact Hd].
    + eapply (getCacheKey_sensitive "BREADTH" _ _ "breadthUrl");
        [intros k'; reflexivity | by apply Hs | by apply Hs
        | reflexivity | reflexivity | exact Hd].
    + eapply (getCacheKey_sensitive "BREADTH" _ _ "min_ad");
        [intros k'; reflexivity | by apply Hs | by apply Hs
        | reflexivity | reflexivity | exact Hd].
    + eapply (getCacheKey_sensitive "BREADTH" _ _ "max_ad");
        [intros k'; reflexivity | by apply Hs | by apply Hs
        | reflexivity | reflexivity | exact Hd].
    + eapply (getCacheKey_sensitive "BREADTH" _ _ "min_ma");
        [intros k'; reflexivity | by apply Hs | by apply Hs
        | reflexivity | reflexivity | exact Hd].
    + eapply (getCacheKey_sensitive "BREADTH" _ _ "max_ma");
        [intros k'; reflexivity | by apply Hs | by apply Hs
        | reflexivity | reflexivity | exact Hd].
Qed.

End CacheKeys.

Section CacheIsolation.
Context `{JsRuntime}.

Lemma vnindex_try_store (fetched : result JsVal) (q : bool) (st : storage)
    (later : Z) (key : string) (v : JsVal) (st' : storage) :
  vnindex_try fetched q st later key = Ok (v, st') ->
  st' = st \/ exists data, st' = saveToCache q st later key data.
Proof.
  unfold vnindex_try. destruct fetched as [data|e]; cbn [bind]; [| discriminate].
  destruct (truthy data); cbn [negb]; [| discriminate].
  destruct (parseVNIndexData data) as [parsed|e]; cbn [bind]; [| discriminate].
  intros [= _ <-]. destruct (0 <? length parsed)%nat; eauto.
Qed.

Lemma breadth_try_store (latestRaw historyRaw : JsVal) (refetch valid : bool)
    (cached : list JsVal) (q : bool) (st : storage) (later : Z) (key : string)
    (final : list JsVal) (st' : storage) :
  breadth_try latestRaw historyRaw refetch valid cached q st later key = Ok (final, st') ->
  st' = st \/ exists data, st' = saveToCache q st later key data.
Proof.
  unfold breadth_try.
  destruct (processRaw latestRaw) as [lp|e]; cbn [bind]; [| discriminate].
  destruct (processRaw historyRaw) as [hp|e]; cbn [bind]; [| discriminate].
  destruct (merge_fetched _ _ _ _ _) as [fr|e]; cbn [bind]; [| discriminate].
  intros [= _ <-]. destruct (0 <? length fr)%nat; eauto.
Qed.

(** X10.  Each fetcher writes its own key only: whatever the network answers,
    every other entry of [localStorage] is after the call what it was before.
    So the three index series of the charts and the breadth series (whose keys
    differ) never overwrite one another. *)
Theorem fetchers_write_own_key (net : Network) (quota_ok : bool) (st : storage)
    (now later : Z) :
  (forall url key,
     key <> vnindex_key url ->
     store (fetchVNIndexData net quota_ok st now later url) !! key = st !! key)
  /\ (forall params key,
        key <> breadth_key params ->
        store (fetchBreadthData net quota_ok st now later params) !! key = st !! key)
  /\ (forall url params,
        store (fetchVNIndexData net quota_ok st now later url) !! breadth_key params
        = st !! breadth_key params
        /\ store (fetchBreadthData net quota_ok st now later params) !! vnindex_key url
           = st !! vnindex_key url).
Proof.
  assert (Hindex : forall url key,
     key <> vnindex_key url ->
     store (fetchVNIndexData net quota_ok st now later url) !! key = st !! key).
  { intros url key Hne. unfold fetchVNIndexData. fold (vnindex_key url).
    destruct (loadFromCache st now (vnindex_key url) (Some VNINDEX_TTL)) as [[d a]|];
      [done |].
    destruct (fetchWithFallback net (IndexSeries (vnindex_target url))) as [fetched log].
    destruct (vnindex_try fetched quota_ok st later (vnindex_key url))
      as [[v st']|e] eqn:Htry; [| done].
    cbn [store]. apply vnindex_try_store in Htry as [-> | [data ->]]; [done |].
    apply saveToCache_other. congruence. }
  assert (Hbreadth : forall params key,
     key <> breadth_key params ->
     store (fetchBreadthData net quota_ok st now later params) !! key = st !! key).
  { intros params key Hne.
    destruct (breadth_cache st now (breadth_key params)) as [[cached valid] age] eqn:Hc.
    destruct (valid && Num.lt age BREADTH_MIN_FRESH) eqn:Hf.
    - apply andb_true_iff in Hf as [-> Hf].
      destruct (fetchBreadthData_fresh net quota_ok st now later params _ _ Hc Hf)
        as (_ & -> & _). done.
    - destruct (fetchBreadthData_stale net quota_ok st now later params _ _ _ Hc Hf)
        as (_ & -> & _).
      destruct (breadth_try _ _ _ _ _ _ _ _ _) as [[final st']|e] eqn:Htry; [| done].
      apply breadth_try_store in Htry as [-> | [data ->]]; [done |].
      apply saveToCache_other. congruence. }
  split; [done |]. split; [done |].
  intros url params. split.
  - apply Hindex. intros Heq. by apply (prefix_differs _ _ (eq_sym Heq)).
  - apply Hbreadth. intros Heq. by apply (prefix_differs _ _ Heq).
Qed.

End CacheIsolation.

Section BreadthThenCached.
Context `{JsRuntime}.

Lemma json_value_array (l : list JsVal) : json_value (JArr l) = Some (JArr (json_copy l)).
Proof. reflexivity. Qed.

(** X11.  A cycle that goes to the network and merges at least one point saves
    the merged series with the clock of the answer.  For the next five minutes
    every call for the same filter -- whatever its lookback [t] and its custom
    dates -- is answered with the saved copy (the series after a JSON round
    trip) and sends no request. *)
Theorem fetchBreadthData_then_cached (net : Network) (st : storage)
    (now later : Z) (params : FilterParams)
    (cached : list JsVal) (valid : bool) (age : number)
    (latestPoints historyPoints final : list JsVal) :
  breadth_cache st now (breadth_key params) = (cached, valid, age) ->
  valid && Num.lt age BREADTH_MIN_FRESH = false ->
  let refetch := negb valid || (length cached <? 50)%nat in
  processRaw (latest_raw net params) = Ok latestPoints ->
  processRaw (if refetch then history_raw net params else JArr []) = Ok historyPoints ->
  merge_fetched refetch valid cached historyPoints latestPoints = Ok final ->
  final <> [] ->
  let o := fetchBreadthData net true st now later params in
  settled o = Ok final
  /\ store o !! breadth_key params = Some (Json (cache_payload later (JArr (json_copy final))))
  /\ (forall net' quota_ok next later' params',
        same_filter params params' ->
        Num.lt (entry_age next later) BREADTH_MIN_FRESH = true ->
        let o' := fetchBreadthData net' quota_ok (store o) next later' params' in
        settled o' = Ok (json_copy final) /\ sent o' = [] /\ store o' = store o).
Proof.
  intros Hc Hf refetch Hlatest Hhistory Hmerge Hne o.
  destruct (fetchBreadthData_stale net true st now later params _ _ _ Hc Hf)
    as (Hs & Hst & _). fold refetch o in Hs, Hst.
  unfold breadth_try in Hs, Hst. rewrite Hlatest, Hhistory in Hs, Hst.
  cbn [bind] in Hs, Hst. rewrite Hmerge in Hs, Hst. cbn [bind] in Hs, Hst.
  split; [done |].
  destruct final as [|p ps]; [done |]. cbn [length Nat.ltb Nat.leb] in Hst.
  assert (Hentry : store o !! breadth_key params
                   = Some (Json (cache_payload later (JArr (json_copy (p :: ps)))))).
  { rewrite Hst. apply saveToCache_lookup. apply json_value_array. }
  split; [done |].
  intros net' quota_ok next later' params' Hsame Hage o'.
  rewrite (same_filter_key _ _ Hsame) in Hentry.
  pose proof (breadth_cache_entry (store o) next later _ _ _ Hentry) as Hc'.
  destruct (fetchBreadthData_fresh net' quota_ok (store o) next later' params' _ _ Hc' Hage)
    as (? & ? & ?). done.
Qed.

End BreadthThenCached.

Section ProcessRawMore.
Context `{JsRuntime}.

Lemma complex_point_has_ma20 (e : list (string * JsVal)) :
  has_in "ma20" (complex_point e) = Ok true.
Proof. reflexivity. Qed.

Lemma processRaw_complex (props inner : list (string * JsVal)) (points : list JsVal) :
  lookup_prop "data" props = Some (JObj inner) ->
  mapComplexBreadthData (JObj inner) = Ok points ->
  processRaw (JObj props) = Ok points.
Proof.
  intros Hd Hm. unfold processRaw. cbn [truthy negb get]. rewrite Hd.
  cbn [or_undefined bind]. rewrite Hm. cbn [bind].
  destruct points as [|p ps]; [reflexivity |].
  assert (Hp : has_in "ma20" p = Ok true).
  { unfold mapComplexBreadthData in Hm. bind_inv Hm. injection Hm as Hm.
    destruct (map_values _) as [|e es]; [discriminate |]. cbn [map] in Hm.
    injection Hm as <- _. apply complex_point_has_ma20. }
  by rewrite Hp.
Qed.

(** X12.  The shapes [processRaw] tells apart.  A falsy payload gives [[]].
    An object that wraps an array under [data] is processed as that array.  An
    object whose [data] is an object is pivoted by [mapComplexBreadthData],
    and the pivoted points are returned as they are (they carry [ma20], so
    [mapBreadthData] and its filter never see them).  A payload that is not an
    array and whose [data] is neither an array nor an object gives [[]]. *)
Theorem processRaw_shapes :
  (forall data, truthy data = false -> processRaw data = Ok [])
  /\ (forall props l,
        lookup_prop "data" props = Some (JArr l) ->
        processRaw (JObj props) = processRaw (JArr l))
  /\ (forall props inner points,
        lookup_prop "data" props = Some (JObj inner) ->
        mapComplexBreadthData (JObj inner) = Ok points ->
        processRaw (JObj props) = Ok points)
  /\ (forall data inner,
        isArray data = false ->
        get data "data" = Ok inner ->
        isArray inner = false -> (forall ps, inner <> JObj ps) ->
        processRaw data = Ok []).
Proof.
  split; [| split; [| split]].
  - intros data Hf. unfold processRaw. by rewrite Hf.
  - intros props l Hd. unfold processRaw. cbn [truthy negb get]. rewrite Hd.
    cbn [or_undefined bind isArray js_or truthy]. reflexivity.
  - apply processRaw_complex.
  - intros data inner Ha Hget Hi Ho. unfold processRaw.
    destruct (truthy data); [| reflexivity]. cbn [negb]. rewrite Hget. cbn [bind].
    rewrite Ha.
    destruct inner as [| |b|n|s|l|ps]; try discriminate Hi; try (by destruct (Ho ps));
      unfold js_or; try reflexivity.
    + by destruct (truthy (JBool b)).
    + by destruct (truthy (JNum n)).
    + by destruct (truthy (JStr s)).
Qed.

End ProcessRawMore.

Section JsMapUpsert.
Context {V : Type}.

Lemma map_upsert_keys (k : JsVal) (init : V) (f : V -> V) (m : list (JsVal * V)) :
  map fst (map_upsert k init f m)
  = if existsb (fun k' => same_value_zero k' k) (map fst m)
    then map fst m else map fst m ++ [k].
Proof.
  induction m as [|[k' v'] m IH]; cbn; [done |].
  destruct (same_value_zero k' k); cbn; [done |]. rewrite IH.
  by destruct (existsb _ _).
Qed.

End JsMapUpsert.

Lemma distinct_keys_snoc (ks : list JsVal) (k : JsVal) :
  distinct_keys ks = true ->
  existsb (fun k' => same_value_zero k' k) ks = false ->
  distinct_keys (ks ++ [k]) = true.
Proof.
  induction ks as [|k0 ks IH]; cbn; [done |].
  intros [Hk0 Hd]%andb_true_iff [E He]%orb_false_iff.
  apply andb_true_iff. split; [| by apply IH].
  rewrite forallb_app, Hk0. cbn. by rewrite E.
Qed.

Lemma key_among_upsert {V : Type} (k d : JsVal) (init : V) (f : V -> V)
    (m : list (JsVal * V)) :
  key_among d (map fst m) -> key_among d (map fst (map_upsert k init f m)).
Proof.
  intros (k0 & Hin & Hk0). rewrite map_upsert_keys. exists k0. split; [| done].
  destruct (existsb _ _); [done |]. apply elem_of_app. by left.
Qed.

Lemma key_among_upserted {V : Type} (k : JsVal) (init : V) (f : V -> V)
    (m : list (JsVal * V)) :
  key_among k (map fst (map_upsert k init f m)).
Proof.
  rewrite map_upsert_keys. destruct (existsb _ _) eqn:E.
  - apply existsb_exists in E as (k0 & Hin & Hk0). exists k0.
    split; [by apply list_elem_of_In | by right].
  - exists k. split; [| by left]. apply elem_of_app. right. left.
Qed.

Section ComplexMapperMore.
Context `{JsRuntime}.

Lemma map_upsert_dated (k : JsVal) (init : list (string * JsVal))
    (f : list (string * JsVal) -> list (string * JsVal))
    (m : list (JsVal * list (string * JsVal))) :
  lookup_prop "date" (f init) = Some k ->
  (forall e, lookup_prop "date" (f e) = lookup_prop "date" e) ->
  dated m -> dated (map_upsert k init f m).
Proof.
  intros Hinit Hf [Hd Hall]. split.
  - rewrite map_upsert_keys. destruct (existsb _ _) eqn:E; [done |].
    by apply distinct_keys_snoc.
  - clear Hd. induction m as [|[k' v'] m IH]; cbn.
    + by repeat constructor.
    + inversion Hall as [|? ? Hv Hrest]; subst. cbn in Hv.
      destruct (same_value_zero k' k); constructor; cbn; auto.
      by rewrite Hf.
Qed.

Lemma mergeSeries_item_dated (countProp : string)
    (merged merged' : list (JsVal * list (string * JsVal))) (item : JsVal) :
  countProp <> "date" ->
  dated merged ->
  mergeSeries_item countProp merged item = Ok merged' ->
  dated merged'
  /\ (forall d, key_among d (map fst merged) -> key_among d (map fst merged'))
  /\ (forall d, get item "date" = Ok d -> key_among d (map fst merged')).
Proof.
  intros Hcount Hm Hs. unfold mergeSeries_item in Hs.
  destruct (get item "date") as [date|e] eqn:Hdate; cbn [bind] in Hs; [| discriminate].
  destruct (get item "total") as [total|e]; cbn [bind] in Hs; [| discriminate].
  destruct (get item "value") as [value|e]; cbn [bind] in Hs; [| discriminate].
  injection Hs as <-.
  assert (Hkeep : forall e,
    lookup_prop "date"
      (set_prop countProp (JNum (parseFloat value))
         (if truthy total
          then set_prop "total"
                 (JNum (Num.max (to_number (prop_of e "total")) (to_number total))) e
          else e))
    = lookup_prop "date" e).
  { intros e. rewrite lookup_set_prop_ne by done.
    destruct (truthy total); [| done]. by rewrite lookup_set_prop_ne. }
  split; [| split].
  - apply map_upsert_dated; [| exact Hkeep | exact Hm]. by rewrite Hkeep.
  - intros d. apply key_among_upsert.
  - intros d [= <-]. apply key_among_upserted.
Qed.

Lemma mergeSeries_dated (dataObj : JsVal) (key countProp : string)
    (merged merged' : list (JsVal * list (string * JsVal))) :
  countProp <> "date" ->
  dated merged ->
  mergeSeries dataObj key countProp merged = Ok merged' ->
  dated merged'
  /\ (forall d, key_among d (map fst merged) -> key_among d (map fst merged'))
  /\ (forall items item d,
        get dataObj key = Ok (JArr items) -> item ∈ items -> get item "date" = Ok d ->
        key_among d (map fst merged')).
Proof.
  intros Hcount Hm Hs. unfold mergeSeries in Hs.
  destruct (get dataObj key) as [series|e]; cbn [bind] in Hs; [| discriminate].
  assert (Hother : (forall items, series <> JArr items) -> merged' = merged ->
    dated merged'
    /\ (forall d, key_among d (map fst merged) -> key_among d (map fst merged'))
    /\ (forall items item d,
          Ok series = Ok (JArr items) -> item ∈ items -> get item "date" = Ok d ->
          key_among d (map fst merged'))).
  { intros Hno ->. split; [done |]. split; [done |].
    intros items item d [= ->]. by destruct (Hno items). }
  destruct series as [| |b|n|s|items|ps];
    try (injection Hs as <-; by apply Hother).
  clear Hother. revert merged Hm Hs.
  induction items as [|x items IH]; intros merged Hm Hs; cbn [foldM] in Hs.
  - injection Hs as <-. split; [done |]. split; [done |].
    intros items item d [= <-] Hin. by apply elem_of_nil in Hin.
  - destruct (mergeSeries_item countProp merged x) as [m1|e] eqn:Hx; cbn [bind] in Hs;
      [| discriminate].
    destruct (mergeSeries_item_dated _ _ _ _ Hcount Hm Hx) as (Hm1 & Hk1 & Hx1).
    destruct (IH m1 Hm1 Hs) as (Hm' & Hk' & Hrest).
    split; [done |]. split; [by auto |].
    intros items' item d [= <-] [-> | Hin]%elem_of_cons Hd.
    + apply Hk'. by apply Hx1.
    + by apply (Hrest items item d).
Qed.

Lemma date_of_complex_point (e : list (string * JsVal)) :
  date_of (complex_point e) = prop_of e "date".
Proof. reflexivity. Qed.

(** X13.  [mapComplexBreadthData] pivots the three series into one point per
    date: the dates of the points it returns are pairwise different (as keys
    of a [Map]), and the date of every item of every series is the date of a
    returned point. *)
Theorem mapComplexBreadthData_one_per_date (dataObj : JsVal) (points : list JsVal) :
  mapComplexBreadthData dataObj = Ok points ->
  distinct_keys (map date_of points) = true
  /\ (forall key items item d,
        key ∈ series_keys ->
        get dataObj key = Ok (JArr items) -> item ∈ items -> get item "date" = Ok d ->
        key_among d (map date_of points)).
Proof.
  unfold mapComplexBreadthData. intros Hm.
  destruct (mergeSeries dataObj "ma20" "count20" []) as [m1|e] eqn:E1;
    cbn [bind] in Hm; [| discriminate].
  destruct (mergeSeries dataObj "ma50" "count50" m1) as [m2|e] eqn:E2;
    cbn [bind] in Hm; [| discriminate].
  destruct (mergeSeries dataObj "ma200" "count200" m2) as [m3|e] eqn:E3;
    cbn [bind] in Hm; [| discriminate].
  injection Hm as <-.
  assert (H0 : dated []) by (split; [done | constructor]).
  destruct (mergeSeries_dated dataObj "ma20" "count20" [] m1 ltac:(discriminate) H0 E1)
    as (H1 & _ & Hs1).
  destruct (mergeSeries_dated dataObj "ma50" "count50" m1 m2 ltac:(discriminate) H1 E2)
    as (H2 & Hk2 & Hs2).
  destruct (mergeSeries_dated dataObj "ma200" "count200" m2 m3 ltac:(discriminate) H2 E3)
    as (H3 & Hk3 & Hs3).
  assert (Hdates : map date_of (map complex_point (map_values m3)) = map fst m3).
  { destruct H3 as [_ Hall]. unfold map_values. rewrite !map_map.
    apply map_ext_Forall. eapply Forall_impl; [exact Hall |].
    intros [k e] Hk. cbn [fst snd] in *. rewrite date_of_complex_point. unfold prop_of.
    by rewrite Hk. }
  rewrite Hdates. split; [apply H3 |].
  intros key items item d Hkey Hget Hin Hd.
  unfold series_keys in Hkey.
  apply elem_of_cons in Hkey as [-> | Hkey]; [apply Hk3, Hk2; by eapply Hs1 |].
  apply elem_of_cons in Hkey as [-> | Hkey]; [apply Hk3; by eapply Hs2 |].
  apply list_elem_of_singleton in Hkey as ->. by eapply Hs3.
Qed.

End ComplexMapperMore.

Section FlatMapperMore.
Context `{JsRuntime}.

Lemma coalesce_chain_object (props : list (string * JsVal)) (keys : list string) :
  coalesce_chain (JObj props) keys = Ok (first_defined keys props).
Proof.
  induction keys as [|k keys IH]; cbn [coalesce_chain first_defined get bind]; [done |].
  fold (prop_of props k). by destruct (is_nullish (prop_of props k)).
Qed.

Lemma time_clip_in_range (ms : Q) :
  (0 < ms)%Q -> (ms <= max_time)%Q ->
  Num.time_clip (Fin ms) = Fin (inject_Z (Num.Qtrunc ms)).
Proof.
  intros Hpos Hmax. unfold Num.time_clip.
  assert (Habs : Qle_bool (Qabs ms) (inject_Z 8640000000000000) = true).
  { apply Qle_bool_iff. rewrite Qabs_pos; [done | by apply Qlt_le_weak]. }
  by rewrite Habs.
Qed.

Lemma mapBreadthData_item_dated (item : JsVal) (q : Q) :
  dated_item item q ->
  exists p, mapBreadthData_item item = Ok p /\ mapped_item item q p
            /\ Num.gt (to_number (timestamp_of p)) Num.zero = true.
Proof.
  intros (props & ms & -> & Hdate & Hpos & Hms & Hms_pos & Hms_max).
  assert (Hin : in_ms q ms).
  { destruct (to_ms_in_ms q) as (ms' & Hin).
    - unfold scalable. apply Qlt_le_weak. eapply Qlt_trans; [| exact Hpos]. reflexivity.
    - pose proof Hin as [Hms' _]. rewrite Hms in Hms'. by injection Hms' as <-. }
  assert (Hscale : scale_number_ms (JNum (Fin q)) = JNum (Fin ms)).
  { by rewrite scale_number_ms_finite, Hms. }
  assert (Htruthy : truthy (JNum (Fin q)) = true).
  { cbn. apply negb_true_iff. destruct (Qeq_bool q 0) eqn:E; [| done].
    apply Qeq_bool_iff in E. rewrite E in Hpos. by apply Qlt_irrefl in Hpos. }
  unfold mapBreadthData_item.
  assert (Hraw : or_chain (JObj props) ["date"; "Date"; "time"; "t"] = Ok (JNum (Fin q))).
  { cbn [or_chain get]. rewrite Hdate. cbn [or_undefined bind]. by rewrite Htruthy. }
  rewrite Hraw. cbn [bind is_string]. rewrite Hscale.
  cbn [get bind]. fold (prop_of props "total"). rewrite !coalesce_chain_object.
  cbn [bind]. unfold iso_date, date_getTime. rewrite to_number_num.
  rewrite (time_clip_in_range ms Hms_pos Hms_max). cbn [bind].
  eexists. split; [reflexivity |]. split.
  - exists props, ms. split; [done |]. split; [exact Hin |]. by repeat split.
  - unfold timestamp_of. cbn [get lookup_prop String.eqb Ascii.eqb Bool.eqb or_undefined].
    rewrite to_number_num. unfold Num.gt, Num.lt, Num.zero, Num.of_Z.
    by apply Qltb_lt.
Qed.

Lemma filter_all {A : Type} (f : A -> bool) (l : list A) :
  Forall (fun x => f x = true) l -> List.filter f l = l.
Proof. induction 1 as [|x l Hx _ IH]; cbn; [done |]. by rewrite Hx, IH. Qed.

(** X14.  [mapBreadthData] on flat records that carry their day as a positive
    number (seconds or milliseconds since the epoch) which, taken to
    milliseconds, is a positive time within the range of [Date]: it succeeds,
    keeps every record in its place, and gives each point its timestamp in
    milliseconds (the number itself from 10,000,000,000 on; below that the
    double nearest to 1000 times it, the exact product for whole seconds),
    the calendar day of that timestamp as [date], [Number(item.total || 0)]
    as [total], and as each count the first of its three aliases that is
    neither [null] nor [undefined] -- an alias that holds 0 is used, not
    skipped; 0 when there is none. *)
Theorem mapBreadthData_supported (data : list JsVal) (qs : list Q) :
  Forall2 dated_item data qs ->
  exists points,
    mapBreadthData data = Ok points
    /\ length points = length data
    /\ (forall i item q,
          data !! i = Some item -> qs !! i = Some q ->
          exists p, points !! i = Some p /\ mapped_item item q p).
Proof.
  intros Hd.
  assert (Hm : exists points,
    mapM mapBreadthData_item data = Ok points
    /\ Forall2 (fun item p => exists q, dated_item item q /\ mapped_item item q p
                  /\ Num.gt (to_number (timestamp_of p)) Num.zero = true) data points
    /\ forall i item q, data !! i = Some item -> qs !! i = Some q ->
         exists p, points !! i = Some p /\ mapped_item item q p).
  { induction Hd as [|item q data qs Hi _ (points & Hp & Hf & Hl)]; cbn [mapM].
    - exists []. split; [done |]. split; [constructor |]. intros i ? ? Hi. done.
    - destruct (mapBreadthData_item_dated item q Hi) as (p & Hitem & Hmapped & Hgt).
      rewrite Hitem, Hp. cbn [bind]. exists (p :: points). split; [done |]. split.
      + constructor; [by exists q | done].
      + intros [|i] item' q' Hi1 Hi2; cbn in *.
        * injection Hi1 as <-. injection Hi2 as <-. by exists p.
        * by apply Hl. }
  destruct Hm as (points & Hp & Hf & Hl).
  exists points. unfold mapBreadthData. rewrite Hp. cbn [bind].
  rewrite filter_all.
  - split; [done |]. split; [symmetry; by eapply Forall2_length | done].
  - apply Forall_forall. intros p Hin.
    apply list_elem_of_lookup in Hin as [i Hi].
    destruct (Forall2_lookup_r _ _ _ _ _ Hf Hi) as (item & _ & q & _ & _ & Hgt). done.
Qed.

End FlatMapperMore.

Lemma mapM_total {A B : Type} (f : A -> result B) (l : list A) :
  Forall (fun x => exists y, f x = Ok y) l ->
  exists ys, mapM f l = Ok ys /\ length ys = length l.
Proof.
  induction 1 as [|x l [y Hy] _ (ys & Hys & Hlen)]; cbn; [by exists [] |].
  rewrite Hy, Hys. cbn. exists (y :: ys). by rewrite <- Hlen.
Qed.

Lemma mapM_throws {A B : Type} (f : A -> result B) (l : list A) (e : exn) :
  Forall (fun x => (exists y, f x = Ok y) \/ f x = Throw e) l ->
  Exists (fun x => f x = Throw e) l ->
  mapM f l = Throw e.
Proof.
  induction 1 as [|x l Hx Hl IH]; intros Hex; [by apply Exists_nil in Hex |]; cbn.
  destruct Hx as [[y Hy] | Hx]; [| by rewrite Hx].
  rewrite Hy. cbn. apply Exists_cons in Hex as [Hex | Hex]; [congruence |].
  by rewrite (IH Hex).
Qed.

Lemma get_not_nullish (v : JsVal) (k : string) :
  is_nullish v = false -> exists w, get v k = Ok w.
Proof. destruct v; try discriminate; intros _; cbn; eauto. Qed.

Lemma get_nullish (v : JsVal) (k : string) :
  is_nullish v = true -> get v k = Throw TypeError.
Proof. by destruct v. Qed.

Lemma get_index_not_nullish (v : JsVal) (i : nat) :
  is_nullish v = false -> exists w, get_index v i = Ok w.
Proof. destruct v; try discriminate; intros _; cbn; eauto. Qed.

Section ParserMore.
Context `{JsRuntime}.

Lemma or_chain_not_nullish (item : JsVal) (keys : list string) :
  is_nullish item = false -> exists v, or_chain item keys = Ok v.
Proof.
  intros Hn. induction keys as [|k keys IH]; cbn; [eauto |].
  destruct keys as [|k' keys]; [by apply get_not_nullish |].
  destruct (get_not_nullish item k Hn) as [v ->]. cbn [bind].
  destruct (truthy v); eauto.
Qed.

Lemma or_chain_nullish (item : JsVal) (k : string) (keys : list string) :
  is_nullish item = true -> or_chain item (k :: keys) = Throw TypeError.
Proof.
  intros Hn. cbn. destruct keys; by rewrite (get_nullish item k Hn).
Qed.

Lemma row_point_cases (item : JsVal) :
  if is_nullish item then row_point item = Throw TypeError
  else exists p, row_point item = Ok p.
Proof.
  destruct (is_nullish item) eqn:Hn.
  - by destruct item.
  - unfold row_point.
    destruct (get_index_not_nullish item 0 Hn) as [ts ->]. cbn [bind].
    destruct (get_not_nullish item "length" Hn) as [len ->]. cbn [bind].
    destruct (Num.ge _ _).
    + destruct (get_index_not_nullish item 4 Hn) as [c ->]. cbn [bind]. eauto.
    + destruct (get_index_not_nullish item 1 Hn) as [c ->]. cbn [bind]. eauto.
Qed.

Lemma object_point_cases (item : JsVal) :
  if is_nullish item then object_point item = Throw TypeError
  else exists p, object_point item = Ok p.
Proof.
  destruct (is_nullish item) eqn:Hn.
  - unfold object_point, time_keys. by rewrite or_chain_nullish.
  - unfold object_point.
    destruct (or_chain_not_nullish item time_keys Hn) as [time ->]. cbn [bind].
    destruct (or_chain_not_nullish item value_keys Hn) as [close ->]. cbn [bind].
    destruct (_ || _); eauto.
Qed.

Lemma cases_Forall {A B : Type} (f : A -> result B) (bad : A -> bool) (e : exn)
    (l : list A) :
  (forall x, if bad x then f x = Throw e else exists y, f x = Ok y) ->
  Forall (fun x => (exists y, f x = Ok y) \/ f x = Throw e) l
  /\ (forallb (fun x => negb (bad x)) l = true -> Forall (fun x => exists y, f x = Ok y) l)
  /\ (existsb bad l = true -> Exists (fun x => f x = Throw e) l).
Proof.
  intros Hc. split; [| split].
  - apply Forall_forall. intros x _. specialize (Hc x). destruct (bad x); auto.
  - intros Hall. apply Forall_forall. intros x Hx%list_elem_of_In.
    rewrite forallb_forall in Hall. specialize (Hall x Hx). specialize (Hc x).
    by destruct (bad x).
  - intros (x & Hx & Hb)%existsb_exists. apply Exists_exists. exists x.
    split; [by apply list_elem_of_In |]. specialize (Hc x). by rewrite Hb in Hc.
Qed.

Lemma nth_error_lookup {A : Type} (l : list A) (i : nat) : nth_error l i = l !! i.
Proof. revert i. induction l as [|x l IH]; intros [|i]; cbn; auto. Qed.

Lemma omap_id_length {A : Type} (l : list (option A)) : (length (omap id l) <= length l)%nat.
Proof. induction l as [|[x|] l IH]; cbn; lia. Qed.

(** X15.  [parseVNIndexData] on an array, whatever its elements hold.  It
    throws (a [TypeError]) exactly when some element is [null] or [undefined].
    Otherwise it returns at most one point per element, and exactly one per
    element when the first element is an array (the row shape). *)
Theorem parseVNIndexData_array_total (items : list JsVal) :
  (existsb is_nullish items = true -> parseVNIndexData (JArr items) = Throw TypeError)
  /\ (existsb is_nullish items = false ->
      exists points,
        parseVNIndexData (JArr items) = Ok points
        /\ (length points <= length items)%nat
        /\ (forall first rest, items = JArr first :: rest -> length points = length items)).
Proof.
  rewrite parseVNIndexData_array.
  destruct (cases_Forall row_point is_nullish TypeError items row_point_cases)
    as (Hr1 & Hr2 & Hr3).
  destruct (cases_Forall object_point is_nullish TypeError items object_point_cases)
    as (Ho1 & Ho2 & Ho3).
  assert (Hrow : forall first rest, items = JArr first :: rest ->
                   parse_shapes (JArr items) = mapM row_point items).
  { by intros first rest ->. }
  assert (Hobj : (forall first rest, items <> JArr first :: rest) ->
                   parse_shapes (JArr items)
                   = let* points := mapM object_point items in Ok (omap id points)).
  { intros Hno. destruct items as [|[| | | | |first|] rest]; try reflexivity.
    by destruct (Hno first rest). }
  assert (Hshape : (exists first rest, items = JArr first :: rest)
                   \/ (forall first rest, items <> JArr first :: rest)).
  { destruct items as [|[| | | | |first|] rest]; eauto; right; intros ? ?; discriminate. }
  split.
  - intros Hbad. destruct Hshape as [(first & rest & Hi) | Hno].
    + rewrite (Hrow _ _ Hi). by apply mapM_throws; auto.
    + rewrite (Hobj Hno). cbn zeta. by rewrite (mapM_throws object_point items TypeError); auto.
  - intros Hgood.
    assert (Hall : forallb (fun x => negb (is_nullish x)) items = true).
    { apply forallb_forall. intros x Hx. apply negb_true_iff.
      destruct (is_nullish x) eqn:E; [| done].
      assert (existsb is_nullish items = true) by (apply existsb_exists; eauto).
      congruence. }
    destruct Hshape as [(first & rest & Hi) | Hno].
    + rewrite (Hrow _ _ Hi). destruct (mapM_total row_point items (Hr2 Hall)) as (ps & -> & Hlen).
      exists ps. split; [done |]. split; [lia | done].
    + rewrite (Hobj Hno). cbn zeta.
      destruct (mapM_total object_point items (Ho2 Hall)) as (ps & -> & Hlen). cbn [bind].
      exists (omap id ps). split; [done |]. split.
      * rewrite <- Hlen. apply omap_id_length.
      * intros first rest Hi. by destruct (Hno first rest).
Qed.

(** X16.  How [parseVNIndexData] tells the shapes apart.  An object that wraps
    an array under [data] is parsed as that array, whatever else it holds (a
    columnar [t] and [c] included).  A columnar object gives one point per
    entry of [t]: the entry scaled to milliseconds and [Number(c[i])], so
    [NaN] where [c] is shorter.  Everything else that is not an array -- a
    falsy payload, a string, a number, an object without these -- gives [[]].
    *)
Theorem parseVNIndexData_shapes :
  (forall props inner,
     lookup_prop "data" props = Some (JArr inner) ->
     parseVNIndexData (JObj props) = parseVNIndexData (JArr inner))
  /\ (forall props ts cs,
        isArray (prop_of props "data") = false ->
        lookup_prop "t" props = Some (JArr ts) ->
        lookup_prop "c" props = Some (JArr cs) ->
        exists points,
          parseVNIndexData (JObj props) = Ok points
          /\ length points = length ts
          /\ (forall i t, ts !! i = Some t ->
                points !! i
                = Some (mk_point (scale_any_ms t) (to_number (or_undefined (cs !! i)))))
          /\ (forall i t, ts !! i = Some t -> (length cs <= i)%nat ->
                points !! i = Some (mk_point (scale_any_ms t) NaN)))
  /\ (forall data,
        isArray data = false ->
        (forall inner, get data "data" = Ok inner -> isArray inner = false) ->
        (forall t c, get data "t" = Ok t -> get data "c" = Ok c ->
                     isArray t && isArray c = false) ->
        parseVNIndexData data = Ok []).
Proof.
  split; [| split].
  - intros props inner Hd. by rewrite (parseVNIndexData_wrapper _ _ Hd), parseVNIndexData_array.
  - intros props ts cs Hd Ht Hc.
    assert (Hp : parseVNIndexData (JObj props) = Ok (imap (column_point cs) ts)).
    { rewrite parseVNIndexData_unfold. cbn [truthy negb get]. fold (prop_of props "data").
      destruct (prop_of props "data") as [| | | | |l|] eqn:E; try discriminate Hd;
        cbn [parse_shapes get]; rewrite Ht; cbn [or_undefined bind]; by rewrite Hc. }
    exists (imap (column_point cs) ts). split; [done |]. split; [apply length_imap |].
    assert (Hat : forall i t, ts !! i = Some t ->
              imap (column_point cs) ts !! i
              = Some (mk_point (scale_any_ms t) (to_number (or_undefined (cs !! i))))).
    { intros i t Hi. rewrite list_lookup_imap, Hi. cbn. unfold column_point.
      by rewrite nth_error_lookup. }
    split; [done |].
    intros i t Hi Hlen. rewrite (Hat i t) by done.
    rewrite (lookup_ge_None_2 cs i Hlen). reflexivity.
  - intros data Ha Hd Htc. rewrite parseVNIndexData_unfold.
    destruct (truthy data) eqn:Htruthy; [| reflexivity]. cbn [negb].
    assert (Hn : is_nullish data = false) by (by destruct data).
    destruct (get_not_nullish data "data" Hn) as [inner Hinner]. rewrite Hinner.
    specialize (Hd inner Hinner).
    assert (Hs : parse_shapes data = Ok []).
    { destruct data as [| |b|n|s|l|props]; try discriminate; try reflexivity.
      cbn [parse_shapes].
      destruct (get_not_nullish (JObj props) "t" Hn) as [t Ht].
      destruct (get_not_nullish (JObj props) "c" Hn) as [c Hc].
      specialize (Htc t c Ht Hc). rewrite Ht. cbn [bind].
      destruct t; try reflexivity. rewrite Hc. cbn [bind].
      destruct c; try reflexivity. discriminate Htc. }
    destruct inner; try done.
Qed.

End ParserMore.

Lemma map_upsert_Forall_entries {V : Type} (P : JsVal * V -> Prop) (k : JsVal) (init : V)
    (f : V -> V) (m : list (JsVal * V)) :
  P (k, f init) ->
  (forall k' v, P (k', v) -> same_value_zero k' k = true -> P (k', f v)) ->
  Forall P m -> Forall P (map_upsert k init f m).
Proof.
  intros Hinit Hf. induction m as [|[k' v'] m IH]; cbn; intros Hm.
  - by repeat constructor.
  - inversion Hm as [|? ? Hv Hrest]; subst.
    destruct (same_value_zero k' k) eqn:E; constructor; auto.
Qed.

Lemma map_upsert_NoDup {V : Type} (key : string) (init : V) (f : V -> V)
    (m : list (JsVal * V)) :
  NoDup (map fst m) -> NoDup (map fst (map_upsert (JStr key) init f m)).
Proof.
  intros Hnd. rewrite map_upsert_keys. destruct (existsb _ _) eqn:E; [done |].
  apply NoDup_app. split; [done |]. split; [| apply NoDup_singleton].
  intros k Hk ->%list_elem_of_singleton.
  assert (existsb (fun k' => same_value_zero k' (JStr key)) (map fst m) = true); [| congruence].
  apply existsb_exists. exists (JStr key). split; [by apply list_elem_of_In |].
  apply String.eqb_refl.
Qed.

Lemma lookup_object_assign (k : string) (props item : list (string * JsVal)) :
  NoDup (map fst props) ->
  lookup_prop k (object_assign item (JObj props))
  = match lookup_prop k props with
    | Some v => Some v
    | None => lookup_prop k item
    end.
Proof.
  unfold object_assign. revert item.
  induction props as [|[k0 v0] props IH]; intros item Hnd; cbn; [done |].
  apply NoDup_cons in Hnd as [Hk0 Hnd]. rewrite (IH _ Hnd).
  destruct (String.eqb k k0) eqn:E.
  - apply String.eqb_eq in E as ->.
    assert (Hno : lookup_prop k0 props = None).
    { clear -Hk0. induction props as [|[k1 v1] props IH]; cbn; [done |].
      cbn in Hk0. apply not_elem_of_cons in Hk0 as [Hne Hk0].
      apply String.eqb_neq in Hne. rewrite Hne. by apply IH. }
    rewrite Hno. apply lookup_set_prop_eq.
  - destruct (lookup_prop k props); [done |].
    apply lookup_set_prop_ne. intros ->. by rewrite String.eqb_refl in E.
Qed.

Section ChartMore.
Context `{JsRuntime}.

Lemma svz_str (k : JsVal) (key : string) :
  same_value_zero k (JStr key) = true -> k = JStr key.
Proof. destruct k; try discriminate. cbn. by intros ->%String.eqb_eq. Qed.

Lemma new_record_day (n : number) (key : string) :
  getDateKey (JNum n) = Ok key -> day_record (JStr key, new_record (JNum n) key).
Proof. intros Hk. exists key, n. by cbn. Qed.

Lemma merge_index_days (field : string) (m m' : list (JsVal * list (string * JsVal)))
    (v : JsVal) :
  field <> "date" -> field <> "timestamp" ->
  index_record v -> day_map m -> merge_index field m v = Ok m' -> day_map m'.
Proof.
  intros Hf1 Hf2 [n Hn] [Hnd Hall] Hm.
  destruct (merge_index_step _ _ _ _ Hm) as (ts & key & close & Hts & Hkey & _ & ->).
  rewrite Hn in Hts. injection Hts as <-.
  assert (Hkeep : forall r k, k <> field ->
    lookup_prop k (if negb (is_nullish close) then set_prop field close r else r)
    = lookup_prop k r).
  { intros r k Hk. destruct (negb _); [| done]. by apply lookup_set_prop_ne. }
  split; [by apply map_upsert_NoDup |].
  apply map_upsert_Forall_entries; [| | done].
  - exists key, n. cbn [fst snd]. rewrite !Hkeep by done. by cbn.
  - intros k' r (key' & n' & Hk' & Hd & Ht & Hday) _.
    exists key', n'. cbn [fst snd] in *. by rewrite !Hkeep.
Qed.

Lemma merge_breadth_days (m m' : list (JsVal * list (string * JsVal))) (b : JsVal) :
  breadth_record b -> day_map m -> merge_breadth m b = Ok m' -> day_map m'.
Proof.
  intros (props & n & -> & Hnd & Hts & Hdate) [Hm Hall]. unfold merge_breadth.
  cbn [get]. rewrite Hts. cbn [or_undefined bind].
  destruct (getDateKey (JNum n)) as [key|e] eqn:Hkey; cbn [bind]; [| discriminate].
  intros [= <-]. specialize (Hdate key eq_refl).
  assert (Hrec : forall k r, day_record (k, r) -> k = JStr key ->
                   day_record (k, object_assign r (JObj props))).
  { intros k r _ ->. exists key, n. cbn [fst snd].
    rewrite !lookup_object_assign by done. by rewrite Hdate, Hts. }
  split; [by apply map_upsert_NoDup |].
  apply map_upsert_Forall_entries; [| | done].
  - apply Hrec; [by apply new_record_day | done].
  - intros k' r Hr Hsame. apply Hrec; [done |]. by apply svz_str.
Qed.

Lemma foldM_days {A : Type} (P : A -> Prop)
    (f : list (JsVal * list (string * JsVal)) -> A ->
         result (list (JsVal * list (string * JsVal))))
    (l : list A) (m m' : list (JsVal * list (string * JsVal))) :
  (forall m0 x m1, P x -> day_map m0 -> f m0 x = Ok m1 -> day_map m1) ->
  Forall P l -> day_map m -> foldM f m l = Ok m' -> day_map m'.
Proof.
  intros Hstep Hl. apply (foldM_invariant day_map).
  intros m0 x m1 H0 Hx. apply Hstep; [| done]. by eapply Forall_forall in Hl.
Qed.

Lemma merge_sources_days (breadthData vnIndexFixedData capData sectorData : list JsVal)
    (m : list (JsVal * list (string * JsVal))) :
  Forall breadth_record breadthData ->
  Forall index_record vnIndexFixedData ->
  Forall index_record capData ->
  Forall index_record sectorData ->
  merge_sources breadthData vnIndexFixedData capData sectorData = Ok m ->
  day_map m.
Proof.
  intros Hb Hv Hc Hs. unfold merge_sources. intros Hm.
  destruct (foldM merge_breadth [] breadthData) as [m1|e] eqn:E1; cbn [bind] in Hm;
    [| discriminate].
  destruct (foldM (merge_index "vnIndex") m1 vnIndexFixedData) as [m2|e] eqn:E2;
    cbn [bind] in Hm; [| discriminate].
  destruct (foldM (merge_index "capVal") m2 capData) as [m3|e] eqn:E3;
    cbn [bind] in Hm; [| discriminate].
  assert (H0 : day_map []) by (split; constructor).
  assert (H1 : day_map m1).
  { eapply (foldM_days breadth_record); [| exact Hb | exact H0 | exact E1].
    intros m0 x m1' Hx Hm0. by apply merge_breadth_days. }
  assert (H2 : day_map m2).
  { eapply (foldM_days index_record); [| exact Hv | exact H1 | exact E2].
    intros m0 x m1' Hx Hm0. by apply merge_index_days. }
  assert (H3 : day_map m3).
  { eapply (foldM_days index_record); [| exact Hc | exact H2 | exact E3].
    intros m0 x m1' Hx Hm0. by apply merge_index_days. }
  eapply (foldM_days index_record); [| exact Hs | exact H3 | exact Hm].
  intros m0 x m1' Hx Hm0. by apply merge_index_days.
Qed.

Lemma day_record_row (e : JsVal * list (string * JsVal)) :
  day_record e -> chart_row (JObj e.2) /\ date_of (JObj e.2) = e.1
  /\ numeric_timestamp (JObj e.2).
Proof.
  intros (key & n & Hk & Hd & Ht & Hday).
  assert (Hdate : date_of (JObj e.2) = JStr key).
  { unfold date_of. cbn [get]. by rewrite Hd. }
  assert (Hts : timestamp_of (JObj e.2) = JNum n).
  { unfold timestamp_of. cbn [get]. by rewrite Ht. }
  split; [by exists key, n |]. split; [congruence |].
  unfold numeric_timestamp. rewrite Hts, to_number_num.
  unfold getDateKey, iso_date, date_getTime in Hday. rewrite to_number_num in Hday.
  by destruct n.
Qed.

Lemma filter_sublist {A : Type} (p : A -> bool) (l : list A) : sublist (List.filter p l) l.
Proof.
  induction l as [|x l IH]; cbn; [constructor |].
  destruct (p x); by constructor.
Qed.

Lemma StronglySorted_sublist {A : Type} (R : relation A) (l l' : list A) :
  sublist l' l -> StronglySorted R l -> StronglySorted R l'.
Proof.
  intros Hsub Hs. revert l' Hsub. induction Hs as [|x l Hs IH Hx]; intros l' Hsub.
  - apply sublist_nil_r in Hsub as ->. constructor.
  - apply sublist_cons_r in Hsub as [Hsub | (l'' & -> & Hsub)]; [by apply IH |].
    constructor; [by apply IH |].
    apply Forall_forall. intros y Hy. rewrite Forall_forall in Hx. apply Hx.
    by eapply elem_of_sublist.
Qed.

(** What [chartData] returns on well-formed series (breadth points as
    [mapBreadthData] builds them, index points with a number as timestamp):
    the rows of the merged map that fall into the window. *)
Lemma chartData_rows (now : Z) (range : TimeRange) (params : FilterParams)
    (breadthData vnIndexFixedData capData sectorData out : list JsVal) :
  Forall breadth_record breadthData ->
  Forall index_record vnIndexFixedData ->
  Forall index_record capData ->
  Forall index_record sectorData ->
  chartData now range params breadthData vnIndexFixedData capData sectorData = Ok out ->
  exists rows,
    Forall chart_row rows /\ NoDup (map date_of rows) /\ Forall numeric_timestamp rows
    /\ sublist out (stable_sort timestamp_before rows)
    /\ Forall (fun d => in_window now range params (to_number (timestamp_of d))) out.
Proof.
  intros Hb Hv Hc Hs Hchart.
  assert (Hempty : out = [] -> exists rows : list JsVal,
    Forall chart_row rows /\ NoDup (map date_of rows) /\ Forall numeric_timestamp rows
    /\ sublist out (stable_sort timestamp_before rows)
    /\ Forall (fun d => in_window now range params (to_number (timestamp_of d))) out).
  { intros ->. exists []. repeat split; constructor. }
  unfold chartData in Hchart.
  destruct (merge_sources breadthData vnIndexFixedData capData sectorData)
    as [m|e] eqn:Hm.
  2: { destruct breadthData, vnIndexFixedData; cbn [bind] in Hchart;
         try discriminate Hchart. injection Hchart as <-. by apply Hempty. }
  assert (Hout : out = [] \/
    out = (let sorted := stable_sort timestamp_before (map JObj (map_values m)) in
      let given (d : option string) : bool :=
        match d with Some s => negb (String.eqb s "") | None => false end in
      if given (fromDate params) || given (toDate params) then
        let from :=
          match fromDate params with
          | Some s => if String.eqb s "" then Num.zero else date_getTime (JStr s)
          | None => Num.zero
          end in
        let to :=
          match toDate params with
          | Some s =>
              if String.eqb s "" then PInf
              else Num.add (date_getTime (JStr s)) (Num.of_Z 86400000)
          | None => PInf
          end in
        List.filter
          (fun d => Num.ge (record_timestamp d) from && Num.lt (record_timestamp d) to)
          sorted
      else
        let cutoff := Num.sub (Num.of_Z now) (Num.of_Z (range_days range * 86400000)) in
        List.filter (fun d => Num.ge (record_timestamp d) cutoff) sorted)).
  { destruct breadthData, vnIndexFixedData; cbn [bind] in Hchart;
      [left; by injection Hchart as <- | right ..];
      cbv zeta in *; destruct (_ || _); by injection Hchart as <-. }
  destruct Hout as [-> | Hout]; [by apply Hempty |]. clear Hchart Hempty.
  pose proof (merge_sources_days _ _ _ _ _ Hb Hv Hc Hs Hm) as [Hnd Hall].
  exists (map JObj (map_values m)).
  assert (Hrows : Forall (fun e => chart_row (JObj e.2) /\ date_of (JObj e.2) = e.1
                                   /\ numeric_timestamp (JObj e.2)) m).
  { eapply Forall_impl; [exact Hall |]. intros e. apply day_record_row. }
  split; [| split; [| split; [| split]]].
  - unfold map_values. rewrite map_map. apply Forall_map.
    eapply Forall_impl; [exact Hrows |]. by intros e (? & _).
  - unfold map_values. rewrite !map_map.
    erewrite (map_ext_Forall _ fst); [exact Hnd |].
    eapply Forall_impl; [exact Hrows |]. by intros e (_ & ? & _).
  - unfold map_values. rewrite map_map. apply Forall_map.
    eapply Forall_impl; [exact Hrows |]. by intros e (_ & _ & ?).
  - rewrite Hout. cbv zeta. destruct (_ || _); apply filter_sublist.
  - rewrite Hout. cbv zeta. unfold in_window.
    destruct (_ || _) eqn:Hgiven; apply Forall_forall; intros d Hd;
      apply list_elem_of_In, filter_In in Hd as [_ Hd]; unfold record_timestamp in Hd.
    + apply andb_true_iff in Hd as [Hfrom Hto]. split; [| split].
      * intros s Hs1 Hs0. rewrite Hs1 in Hfrom. apply String.eqb_neq in Hs0.
        by rewrite Hs0 in Hfrom.
      * intros Hno. destruct (fromDate params) as [s|]; [| done].
        destruct (String.eqb s ""); [done | discriminate Hno].
      * intros s Hs1 Hs0. rewrite Hs1 in Hto. apply String.eqb_neq in Hs0.
        by rewrite Hs0 in Hto.
    + done.
Qed.


(** X17.  [chartData] has one row per calendar day.  On well-formed series
    (breadth points as [mapBreadthData] builds them, index points with a
    number as timestamp) the [date] fields of the rows it returns are pairwise
    different, and every row's [date] is the calendar day of the row's
    [timestamp]. *)
Theorem chartData_one_row_per_day (now : Z) (range : TimeRange) (params : FilterParams)
    (breadthData vnIndexFixedData capData sectorData out : list JsVal) :
  Forall breadth_record breadthData ->
  Forall index_record vnIndexFixedData ->
  Forall index_record capData ->
  Forall index_record sectorData ->
  chartData now range params breadthData vnIndexFixedData capData sectorData = Ok out ->
  NoDup (map date_of out) /\ Forall chart_row out.
Proof.
  intros Hb Hv Hc Hs Hchart.
  destruct (chartData_rows _ _ _ _ _ _ _ _ Hb Hv Hc Hs Hchart)
    as (rows & Hrows & Hnd & _ & Hsub & _).
  split.
  - apply (sublist_NoDup _ (map date_of (stable_sort timestamp_before rows))).
    + pose proof (Permutation_map date_of (stable_sort_perm timestamp_before rows)) as Hp.
      by rewrite Hp.
    + exact (fmap_sublist date_of _ _ Hsub).
  - apply Forall_forall. intros r Hr. rewrite Forall_forall in Hrows. apply Hrows.
    apply (elem_of_stable_sort timestamp_before). by eapply elem_of_sublist.
Qed.

(** X18.  On the same series, the rows [chartData] returns are in ascending
    order of timestamp and all lie in the window: between the custom dates
    (the end date included up to its last millisecond) when one is given, and
    otherwise not older than the preset range counted back from now. *)
Theorem chartData_sorted_window (now : Z) (range : TimeRange) (params : FilterParams)
    (breadthData vnIndexFixedData capData sectorData out : list JsVal) :
  Forall breadth_record breadthData ->
  Forall index_record vnIndexFixedData ->
  Forall index_record capData ->
  Forall index_record sectorData ->
  chartData now range params breadthData vnIndexFixedData capData sectorData = Ok out ->
  StronglySorted timestamp_le out
  /\ Forall (fun d => in_window now range params (to_number (timestamp_of d))) out.
Proof.
  intros Hb Hv Hc Hs Hchart.
  destruct (chartData_rows _ _ _ _ _ _ _ _ Hb Hv Hc Hs Hchart)
    as (rows & _ & _ & Hnum & Hsub & Hwin).
  split; [| done].
  eapply StronglySorted_sublist; [exact Hsub |]. by apply sort_by_timestamp_sorted.
Qed.

Lemma foldM_throws {A S : Type} (f : S -> A -> result S) (l : list A) (s : S) (x : A) :
  x ∈ l -> (forall s0, exists e, f s0 x = Throw e) -> exists e, foldM f s l = Throw e.
Proof.
  intros Hin Hx. revert s. induction l as [|y l IH]; intros s.
  - by apply elem_of_nil in Hin.
  - cbn. apply elem_of_cons in Hin as [<- | Hin].
    + destruct (Hx s) as [e ->]. cbn. eauto.
    + destruct (f s y) as [s1|e]; cbn; [by apply IH | eauto].
Qed.

Lemma merge_index_invalid (field : string) (m : list (JsVal * list (string * JsVal)))
    (v ts : JsVal) :
  get v "timestamp" = Ok ts -> Num.isFinite (date_getTime ts) = false ->
  exists e, merge_index field m v = Throw e.
Proof.
  intros Hts Hbad. unfold merge_index, getDateKey, iso_date. rewrite Hts. cbn [bind].
  destruct (date_getTime ts); try discriminate Hbad; cbn [bind]; eauto.
Qed.

Lemma merge_breadth_invalid (m : list (JsVal * list (string * JsVal))) (v ts : JsVal) :
  get v "timestamp" = Ok ts -> Num.isFinite (date_getTime ts) = false ->
  exists e, merge_breadth m v = Throw e.
Proof.
  intros Hts Hbad. unfold merge_breadth, getDateKey, iso_date. rewrite Hts. cbn [bind].
  destruct (date_getTime ts); try discriminate Hbad; cbn [bind]; eauto.
Qed.

(** X19.  Two edges of [chartData].  Without a breadth point and without a
    point of the fixed index it returns no row, whatever the cap and sector
    series hold.  Otherwise one point, in any of the four series, whose
    timestamp is not a valid time value ([NaN], [undefined], an unreadable
    string) makes the whole computation throw: [toISOString] raises on it. *)
Theorem chartData_edges (now : Z) (range : TimeRange) (params : FilterParams)
    (breadthData vnIndexFixedData capData sectorData : list JsVal) :
  chartData now range params [] [] capData sectorData = Ok []
  /\ (forall v ts,
        breadthData <> [] \/ vnIndexFixedData <> [] ->
        v ∈ breadthData ++ vnIndexFixedData ++ capData ++ sectorData ->
        get v "timestamp" = Ok ts ->
        Num.isFinite (date_getTime ts) = false ->
        exists e,
          chartData now range params breadthData vnIndexFixedData capData sectorData
          = Throw e).
Proof.
  split; [reflexivity |].
  intros v ts Hne Hin Hts Hbad.
  assert (Hmerge : exists e,
    merge_sources breadthData vnIndexFixedData capData sectorData = Throw e).
  { unfold merge_sources.
    apply elem_of_app in Hin as [Hin | Hin].
    { destruct (foldM_throws merge_breadth breadthData [] v Hin) as [e ->]; [| cbn; eauto].
      intros s0. by apply (merge_breadth_invalid s0 v ts). }
    destruct (foldM merge_breadth [] breadthData) as [m1|e]; cbn [bind]; [| eauto].
    apply elem_of_app in Hin as [Hin | Hin].
    { destruct (foldM_throws (merge_index "vnIndex") vnIndexFixedData m1 v Hin) as [e ->];
        [| cbn; eauto].
      intros s0. by apply (merge_index_invalid _ s0 v ts). }
    destruct (foldM (merge_index "vnIndex") m1 vnIndexFixedData) as [m2|e]; cbn [bind];
      [| eauto].
    apply elem_of_app in Hin as [Hin | Hin].
    { destruct (foldM_throws (merge_index "capVal") capData m2 v Hin) as [e ->];
        [| cbn; eauto].
      intros s0. by apply (merge_index_invalid _ s0 v ts). }
    destruct (foldM (merge_index "capVal") m2 capData) as [m3|e]; cbn [bind]; [| eauto].
    apply (foldM_throws (merge_index "sectorVal") sectorData m3 v Hin).
    intros s0. by apply (merge_index_invalid _ s0 v ts). }
  destruct Hmerge as [e He]. exists e. unfold chartData. rewrite He.
  destruct breadthData, vnIndexFixedData; try reflexivity. by destruct Hne.
Qed.

(** X20.  The breadth half of the merge engine.  [Object.assign(item, b)]
    copies every property of the breadth point onto the record of its day
    (created when the day is new); a property the point does not have keeps
    the value the record had, and the records of the other days are not
    touched. *)
Theorem merge_breadth_assign (m m' : list (JsVal * list (string * JsVal)))
    (props : list (string * JsVal)) :
  NoDup (map fst props) ->
  merge_breadth m (JObj props) = Ok m' ->
  exists key r',
    getDateKey (prop_of props "timestamp") = Ok key
    /\ map_get (JStr key) m' = Some r'
    /\ (forall k v, lookup_prop k props = Some v -> prop_of r' k = v)
    /\ (forall k, lookup_prop k props = None ->
          prop_of r' k
          = prop_of (default (new_record (prop_of props "timestamp") key)
                       (map_get (JStr key) m)) k)
    /\ (forall day, day <> key -> map_get (JStr day) m' = map_get (JStr day) m).
Proof.
  intros Hnd. unfold merge_breadth. cbn [get bind]. fold (prop_of props "timestamp").
  destruct (getDateKey (prop_of props "timestamp")) as [key|e] eqn:Hkey; cbn [bind];
    [| discriminate].
  intros [= <-]. exists key. eexists. split; [done |].
  split; [apply map_get_upsert_eq |]. split; [| split].
  - intros k v Hk. unfold prop_of. cbv beta.
    change (fold_left _ props ?item) with (object_assign item (JObj props)).
    rewrite lookup_object_assign by done. by rewrite Hk.
  - intros k Hk. unfold prop_of. cbv beta.
    change (fold_left _ props ?item) with (object_assign item (JObj props)).
    rewrite lookup_object_assign by done. by rewrite Hk.
  - intros day Hne. by apply map_get_upsert_ne.
Qed.

End ChartMore.

Lemma foldM_seq {A St : Type} (g : St -> nat -> result St) (f : St -> A -> result St)
    (l : list A) (k : nat) (s : St) :
  (forall j x s0, l !! j = Some x -> g s0 (k + j)%nat = f s0 x) ->
  foldM g s (seq k (length l)) = foldM f s l.
Proof.
  revert k s. induction l as [|x l IH]; intros k s Hg; cbn; [done |].
  rewrite <- (Nat.add_0_r k) at 1. rewrite (Hg 0%nat x s eq_refl).
  destruct (f s x) as [s1|e]; cbn; [| done].
  apply IH. intros j y s0 Hj. rewrite <- (Hg (S j) y s0 Hj). f_equal. lia.
Qed.

Lemma adjacent_length {A : Type} (l : list A) : length (adjacent l) = (length l - 1)%nat.
Proof.
  unfold adjacent. rewrite length_zip_with, length_tl. lia.
Qed.

Lemma adjacent_lookup {A : Type} (l : list A) (j : nat) (a b : A) :
  adjacent l !! j = Some (a, b) <-> l !! j = Some a /\ l !! S j = Some b.
Proof.
  unfold adjacent. rewrite lookup_zip_with_Some. rewrite lookup_tail. split.
  - intros (x & y & [= -> ->] & Hx & Hy). done.
  - intros [Ha Hb]. by exists a, b.
Qed.

Section CrossoversMore.
Context `{JsRuntime}.

Lemma cross_event_total (fast slow : string) (prev curr : JsVal) :
  is_nullish prev = false -> is_nullish curr = false ->
  exists e, cross_event fast slow prev curr = Ok e.
Proof.
  intros Hp Hc. unfold cross_event, cross_point.
  destruct (get_not_nullish prev fast Hp) as [pf ->]. cbn [bind].
  destruct (is_undefined pf); [eauto |].
  destruct (get_not_nullish prev slow Hp) as [ps ->]. cbn [bind].
  destruct (is_undefined ps); [eauto |].
  destruct (get_not_nullish curr fast Hc) as [cf ->]. cbn [bind].
  destruct (is_undefined cf); [eauto |].
  destruct (get_not_nullish curr slow Hc) as [cs ->]. cbn [bind].
  destruct (is_undefined cs); [eauto |].
  destruct (get_not_nullish curr "timestamp" Hc) as [x ->]. cbn [bind].
  destruct (_ && _); [eauto |]. destruct (_ && _); eauto.
Qed.

Lemma number_less_asym (x y : number) :
  number_less x y = Some true -> number_less y x = Some false.
Proof.
  unfold number_less. destruct x as [| | |p], y as [| | |q]; cbn; try discriminate;
    try reflexivity.
  intros [= Hlt]. f_equal. apply Qltb_lt in Hlt. apply Qltb_ge. by apply Qlt_le_weak.
Qed.

Lemma ltb_asym (x y : string) : String.ltb x y = true -> String.ltb y x = false.
Proof.
  unfold String.ltb. rewrite (String.compare_antisym x y).
  by destruct (String.compare y x).
Qed.

Lemma js_less_asym (a b : JsVal) : js_less a b = Some true -> js_less b a = Some false.
Proof.
  unfold js_less.
  destruct (to_primitive a) as [| |b1|n1|s1|l1|o1], (to_primitive b) as [| |b2|n2|s2|l2|o2];
    try apply number_less_asym.
  intros [= Hlt]. f_equal. by apply ltb_asym.
Qed.

(** [a > b] and [a < b] never hold together. *)
Lemma js_gt_not_lt (a b : JsVal) : js_gt a b = true -> js_lt a b = false.
Proof.
  unfold js_gt, js_lt. destruct (js_less b a) as [[|]|] eqn:E; try discriminate.
  intros _. by rewrite (js_less_asym _ _ E).
Qed.

Lemma cross_event_crossing (fast slow : string) (prev curr evt : JsVal) :
  cross_event fast slow prev curr = Ok (Some evt) <-> crossing fast slow prev curr evt.
Proof.
  unfold cross_event, cross_point, crossing. split.
  - destruct (get prev fast) as [pf|e] eqn:Hpf; cbn [bind]; [| discriminate].
    destruct (is_undefined pf) eqn:Upf; [discriminate |].
    destruct (get prev slow) as [ps|e] eqn:Hps; cbn [bind]; [| discriminate].
    destruct (is_undefined ps) eqn:Ups; [discriminate |].
    destruct (get curr fast) as [cf|e] eqn:Hcf; cbn [bind]; [| discriminate].
    destruct (is_undefined cf) eqn:Ucf; [discriminate |].
    destruct (get curr slow) as [cs|e] eqn:Hcs; cbn [bind]; [| discriminate].
    destruct (is_undefined cs) eqn:Ucs; [discriminate |].
    destruct (js_le pf ps && js_gt cf cs) eqn:Hbull.
    + destruct (get curr "timestamp") as [x|e] eqn:Hx; cbn [bind]; [| discriminate].
      intros [= <-]. apply andb_true_iff in Hbull as [? ?].
      exists pf, ps, cf, cs, x, "bull". auto 15.
    + destruct (js_ge pf ps && js_lt cf cs) eqn:Hbear; [| discriminate].
      destruct (get curr "timestamp") as [x|e] eqn:Hx; cbn [bind]; [| discriminate].
      intros [= <-]. apply andb_true_iff in Hbear as [? ?].
      exists pf, ps, cf, cs, x, "bear". auto 15.
  - intros (pf & ps & cf & cs & x & type & Hpf & Hps & Hcf & Hcs & Upf & Ups & Ucf & Ucs
            & Hx & -> & Hcase).
    rewrite Hpf. cbn [bind]. rewrite Upf, Hps. cbn [bind]. rewrite Ups, Hcf. cbn [bind].
    rewrite Ucf, Hcs. cbn [bind]. rewrite Ucs, Hx. cbn [bind].
    destruct Hcase as [(-> & Hle & Hgt) | (-> & Hge & Hlt)].
    + by rewrite Hle, Hgt.
    + rewrite Hge, Hlt. cbn [andb].
      destruct (js_gt cf cs) eqn:Hgt.
      * apply js_gt_not_lt in Hgt. congruence.
      * by rewrite andb_false_r.
Qed.


Lemma crossovers_fold (data : list JsVal) :
  crossovers data = foldM crossovers_body ([], []) (adjacent data).
Proof.
  unfold crossovers. destruct (length data <? 2)%nat eqn:Hlen.
  - apply Nat.ltb_lt in Hlen. destruct data as [|a [|b data]]; [done | done |].
    cbn in Hlen. lia.
  - rewrite <- (adjacent_length data). apply foldM_seq.
    intros j [a b] s0 [Ha Hb]%adjacent_lookup.
    unfold crossovers_step, crossovers_body, pair_event.
    replace (1 + j - 1)%nat with j by lia. cbn [Nat.add fst snd].
    by rewrite !nth_error_lookup, Ha, Hb.
Qed.

Lemma crossovers_body_events (pairs : list (JsVal * JsVal)) (a1 a2 : list JsVal) :
  Forall (fun pc => is_nullish pc.1 = false /\ is_nullish pc.2 = false) pairs ->
  exists e1 e2,
    Forall2 (fun pc e => pair_event "ma20" "ma50" pc = Ok e) pairs e1
    /\ Forall2 (fun pc e => pair_event "ma50" "ma200" pc = Ok e) pairs e2
    /\ foldM crossovers_body (a1, a2) pairs = Ok (a1 ++ omap id e1, a2 ++ omap id e2).
Proof.
  intros Hp. revert a1 a2. induction Hp as [|[p c] pairs [Hp1 Hp2] _ IH]; intros a1 a2.
  - exists [], []. cbn. rewrite !app_nil_r. by repeat split; constructor.
  - cbn [fst snd] in *.
    destruct (cross_event_total "ma20" "ma50" p c Hp1 Hp2) as [x1 Hx1].
    destruct (cross_event_total "ma50" "ma200" p c Hp1 Hp2) as [x2 Hx2].
    destruct (IH (push_event a1 x1) (push_event a2 x2)) as (e1 & e2 & H1 & H2 & Hf).
    exists (x1 :: e1), (x2 :: e2). split; [by constructor |]. split; [by constructor |].
    cbn [foldM]. unfold crossovers_body at 1, pair_event. cbn [fst snd].
    rewrite Hx1, Hx2. cbn [bind]. rewrite Hf.
    destruct x1, x2; cbn [push_event omap id]; by rewrite <- ?app_assoc.
Qed.

Lemma adjacent_not_nullish (data : list JsVal) :
  Forall (fun r => is_nullish r = false) data ->
  Forall (fun pc => is_nullish pc.1 = false /\ is_nullish pc.2 = false) (adjacent data).
Proof.
  intros Hd. apply Forall_lookup. intros j [a b] [Ha Hb]%adjacent_lookup.
  rewrite Forall_lookup in Hd. split; [by apply (Hd j) | by apply (Hd (S j))].
Qed.

Lemma events_elem (fast slow : string) (pairs : list (JsVal * JsVal))
    (es : list (option JsVal)) (evt : JsVal) :
  Forall2 (fun pc e => pair_event fast slow pc = Ok e) pairs es ->
  evt ∈ omap id es
  <-> exists j pc, pairs !! j = Some pc /\ crossing fast slow pc.1 pc.2 evt.
Proof.
  intros Hf. rewrite list_elem_of_omap. split.
  - intros (e & He & Hid). destruct e as [evt'|]; [| discriminate]. injection Hid as ->.
    apply list_elem_of_lookup in He as [j Hj].
    destruct (Forall2_lookup_r _ _ _ _ _ Hf Hj) as (pc & Hpc & Hev).
    exists j, pc. split; [done |]. by apply cross_event_crossing.
  - intros (j & pc & Hpc & Hcr). apply cross_event_crossing in Hcr.
    destruct (Forall2_lookup_l _ _ _ _ _ Hf Hpc) as (e & He & Hev).
    unfold pair_event in Hev. rewrite Hcr in Hev. injection Hev as <-.
    exists (Some evt). split; [by eapply list_elem_of_lookup_2 | done].
Qed.

Lemma events_sublist (fast slow : string) (pairs : list (JsVal * JsVal))
    (es : list (option JsVal)) :
  Forall2 (fun pc e => pair_event fast slow pc = Ok e) pairs es ->
  sublist (map event_x (omap id es)) (map (fun pc => timestamp_of pc.2) pairs).
Proof.
  induction 1 as [|pc e pairs es Hev _ IH]; cbn; [constructor |].
  destruct e as [evt|]; cbn; [| by constructor].
  apply cross_event_crossing in Hev
    as (pf & ps & cf & cs & x & type & _ & _ & _ & _ & _ & _ & _ & _ & Hx & -> & _).
  unfold timestamp_of. rewrite Hx. cbn. by constructor.
Qed.

(** X21.  [crossovers] on rows that are not [null] or [undefined] (the rows of
    [chartData] are objects): it does not throw; an event is in [cross20_50]
    (in [cross50_200]) exactly when it is the crossing of a pair of
    neighbouring rows; the events come in chart order, each at the timestamp
    of the later row of its pair; and there is at most one event a pair. *)
Theorem crossovers_adjacent (data : list JsVal) :
  Forall (fun r => is_nullish r = false) data ->
  exists c1 c2,
    crossovers data = Ok (c1, c2)
    /\ (forall evt, evt ∈ c1 <-> crossing_in "ma20" "ma50" data evt)
    /\ (forall evt, evt ∈ c2 <-> crossing_in "ma50" "ma200" data evt)
    /\ sublist (map event_x c1) (map timestamp_of (tail data))
    /\ sublist (map event_x c2) (map timestamp_of (tail data))
    /\ (length c1 <= length data - 1)%nat
    /\ (length c2 <= length data - 1)%nat.
Proof.
  intros Hd.
  destruct (crossovers_body_events (adjacent data) [] [] (adjacent_not_nullish data Hd))
    as (e1 & e2 & H1 & H2 & Hf).
  exists (omap id e1), (omap id e2). split; [by rewrite crossovers_fold |].
  assert (Hin : forall fast slow es evt,
    Forall2 (fun pc e => pair_event fast slow pc = Ok e) (adjacent data) es ->
    evt ∈ omap id es <-> crossing_in fast slow data evt).
  { intros fast slow es evt Hes. rewrite (events_elem _ _ _ _ _ Hes). unfold crossing_in.
    split.
    - intros (j & [p c] & [Hp Hc]%adjacent_lookup & Hcr). by exists j, p, c.
    - intros (j & p & c & Hp & Hc & Hcr). exists j, (p, c).
      split; [by apply adjacent_lookup | done]. }
  assert (Hsnd : map (fun pc : JsVal * JsVal => timestamp_of pc.2) (adjacent data)
                 = map timestamp_of (tail data)).
  { rewrite <- (map_map snd timestamp_of). f_equal. unfold adjacent.
    apply snd_zip. rewrite length_tl. lia. }
  assert (Hlen : forall es : list (option JsVal),
    length es = length (adjacent data) -> (length (omap id es) <= length data - 1)%nat).
  { intros es Hes. rewrite <- adjacent_length, <- Hes. apply omap_id_length. }
  split; [intros evt; by apply Hin |]. split; [intros evt; by apply Hin |].
  split; [rewrite <- Hsnd; by apply (events_sublist "ma20" "ma50") |].
  split; [rewrite <- Hsnd; by apply (events_sublist "ma50" "ma200") |].
  split; apply Hlen; symmetry; by eapply Forall2_length.
Qed.

Lemma above_no_crossing (fast slow : string) (prev curr evt : JsVal) :
  above fast slow prev -> above fast slow curr -> ~ crossing fast slow prev curr evt.
Proof.
  intros (f1 & s1 & Hf1 & Hs1 & Hgt1) (f2 & s2 & Hf2 & Hs2 & Hgt2)
    (pf & ps & cf & cs & x & type & Hpf & Hps & Hcf & Hcs & _ & _ & _ & _ & _ & _ & Hcase).
  rewrite Hf1 in Hpf. rewrite Hs1 in Hps. rewrite Hf2 in Hcf. rewrite Hs2 in Hcs.
  injection Hpf as <-. injection Hps as <-. injection Hcf as <-. injection Hcs as <-.
  destruct Hcase as [(_ & Hle & _) | (_ & _ & Hlt)].
  - unfold js_gt, js_lt, js_le in *. by destruct (js_less s1 f1) as [[|]|].
  - apply js_gt_not_lt in Hgt2. congruence.
Qed.

Lemma below_no_crossing (fast slow : string) (prev curr evt : JsVal) :
  above slow fast prev -> above slow fast curr -> ~ crossing fast slow prev curr evt.
Proof.
  intros (s1 & f1 & Hs1 & Hf1 & Hgt1) (s2 & f2 & Hs2 & Hf2 & Hgt2)
    (pf & ps & cf & cs & x & type & Hpf & Hps & Hcf & Hcs & _ & _ & _ & _ & _ & _ & Hcase).
  rewrite Hf1 in Hpf. rewrite Hs1 in Hps. rewrite Hf2 in Hcf. rewrite Hs2 in Hcs.
  injection Hpf as <-. injection Hps as <-. injection Hcf as <-. injection Hcs as <-.
  destruct Hcase as [(_ & _ & Hgt) | (_ & Hge & _)].
  - apply js_gt_not_lt in Hgt2. unfold js_gt in Hgt. congruence.
  - unfold js_gt, js_lt, js_ge in *. by destruct (js_less f1 s1) as [[|]|].
Qed.

Lemma no_crossing_nil (fast slow : string) (data : list JsVal) (es : list (option JsVal)) :
  Forall2 (fun pc e => pair_event fast slow pc = Ok e) (adjacent data) es ->
  (forall j prev curr evt,
     data !! j = Some prev -> data !! S j = Some curr ->
     ~ crossing fast slow prev curr evt) ->
  omap id es = [].
Proof.
  intros Hes Hno. destruct (omap id es) as [|evt rest] eqn:E; [done |]. exfalso.
  assert (Hin : evt ∈ omap id es) by (rewrite E; left).
  apply (events_elem _ _ _ _ _ Hes) in Hin as (j & [p c] & [Hp Hc]%adjacent_lookup & Hcr).
  by apply (Hno j p c evt).
Qed.

(** X22.  What [crossovers] does not report (on rows that are not [null] or
    [undefined]).  With fewer than two rows there is no event.  While one line
    stays strictly above the other in every row, no crossing of the two is
    reported. *)
Theorem crossovers_steady (data : list JsVal) (c1 c2 : list JsVal) :
  Forall (fun r => is_nullish r = false) data ->
  crossovers data = Ok (c1, c2) ->
  ((length data < 2)%nat -> c1 = [] /\ c2 = [])
  /\ (Forall (above "ma20" "ma50") data \/ Forall (above "ma50" "ma20") data -> c1 = [])
  /\ (Forall (above "ma50" "ma200") data \/ Forall (above "ma200" "ma50") data -> c2 = []).
Proof.
  intros Hd Hc.
  destruct (crossovers_body_events (adjacent data) [] [] (adjacent_not_nullish data Hd))
    as (e1 & e2 & H1 & H2 & Hf).
  rewrite crossovers_fold, Hf in Hc. cbn [app] in Hc. injection Hc as <- <-.
  assert (Hsteady : forall fast slow es,
    Forall2 (fun pc e => pair_event fast slow pc = Ok e) (adjacent data) es ->
    Forall (above fast slow) data \/ Forall (above slow fast) data ->
    omap id es = []).
  { intros fast slow es Hes Hab. apply (no_crossing_nil fast slow data es Hes).
    intros j prev curr evt Hp Hcu.
    destruct Hab as [Hab | Hab]; rewrite Forall_lookup in Hab.
    - apply above_no_crossing; [by apply (Hab j) | by apply (Hab (S j))].
    - apply below_no_crossing; [by apply (Hab j) | by apply (Hab (S j))]. }
  split; [| split; [by apply Hsteady | by apply Hsteady]].
  intros Hlen.
  assert (Hadj : adjacent data = []).
  { apply length_zero_iff_nil. rewrite adjacent_length. lia. }
  rewrite Hadj in H1, H2. apply Forall2_nil_inv_l in H1 as ->.
  by apply Forall2_nil_inv_l in H2 as ->.
Qed.

End CrossoversMore.

Section ChartCrossovers.
Context `{JsRuntime}.

Lemma chartData_objects (now : Z) (range : TimeRange) (params : FilterParams)
    (breadthData vnIndexFixedData capData sectorData out : list JsVal) :
  chartData now range params breadthData vnIndexFixedData capData sectorData = Ok out ->
  Forall (fun r => is_nullish r = false) out.
Proof.
  unfold chartData. intros Hchart.
  assert (Hsub : out = [] \/ exists m : list (JsVal * list (string * JsVal)),
            sublist out (stable_sort timestamp_before (map JObj (map_values m)))).
  { destruct (merge_sources breadthData vnIndexFixedData capData sectorData) as [m|e];
      destruct breadthData, vnIndexFixedData; cbn [bind] in Hchart;
      try discriminate Hchart; try (left; by injection Hchart as <-);
      right; exists m; cbv zeta in Hchart; destruct (_ || _);
      injection Hchart as <-; apply filter_sublist. }
  destruct Hsub as [-> | [m Hsub]]; [constructor |].
  apply Forall_forall. intros r Hr.
  pose proof (elem_of_sublist _ _ _ Hr Hsub) as Hin.
  rewrite (elem_of_stable_sort timestamp_before) in Hin.
  apply list_elem_of_fmap in Hin as (props & -> & _). reflexivity.
Qed.

(** X23.  [crossovers] on the rows [chartData] returns: it never throws, and
    its two lists of markers lie on timestamps of the chart rows, in chart
    order. *)
Theorem crossovers_of_chartData (now : Z) (range : TimeRange) (params : FilterParams)
    (breadthData vnIndexFixedData capData sectorData rows : list JsVal) :
  chartData now range params breadthData vnIndexFixedData capData sectorData = Ok rows ->
  exists c1 c2,
    crossovers rows = Ok (c1, c2)
    /\ sublist (map event_x c1) (map timestamp_of rows)
    /\ sublist (map event_x c2) (map timestamp_of rows).
Proof.
  intros Hchart. pose proof (chartData_objects _ _ _ _ _ _ _ _ Hchart) as Hd.
  destruct (crossovers_body_events (adjacent rows) [] [] (adjacent_not_nullish rows Hd))
    as (e1 & e2 & H1 & H2 & Hf).
  exists (omap id e1), (omap id e2). split; [by rewrite crossovers_fold |].
  assert (Hsnd : sublist (map (fun pc : JsVal * JsVal => timestamp_of pc.2) (adjacent rows))
                   (map timestamp_of rows)).
  { rewrite <- (map_map snd timestamp_of). apply (fmap_sublist timestamp_of).
    unfold adjacent.
    replace (map snd (zip rows (tail rows))) with (tail rows)
      by (symmetry; apply snd_zip; rewrite length_tl; lia).
    destruct rows; [done |]. by constructor. }
  split.
  - etrans; [| exact Hsnd]. by apply (events_sublist "ma20" "ma50").
  - etrans; [| exact Hsnd]. by apply (events_sublist "ma50" "ma200").
Qed.

End ChartCrossovers.

(** X24.  The window [prepareAnalysisContext] analyses.  With fewer than five
    rows it throws.  Otherwise [recentData] is the tail of the chart rows that
    holds the last 22, 65, 130 or 250 of them (all of them when there are
    fewer, or for the range [ALL]): it is never empty and it ends with the
    last row of the chart. *)
Theorem recentData_window (range : AnalysisRange) (data : list JsVal) :
  ((length data < 5)%nat -> exists e, recentData range data = Throw e)
  /\ ((5 <= length data)%nat ->
      exists w,
        recentData range data = Ok w
        /\ w `suffix_of` data
        /\ Z.of_nat (length w) = Z.min (Z.of_nat (length data)) (sliceCount range data)
        /\ w <> []
        /\ last w = last data
        /\ (range = AALL -> w = data)).
Proof.
  unfold recentData. split.
  - intros Hlen. apply Nat.ltb_lt in Hlen. rewrite Hlen. eauto.
  - intros Hlen. assert (Hge : (length data <? 5)%nat = false) by by apply Nat.ltb_ge.
    rewrite Hge. eexists. split; [reflexivity |].
    set (k := Z.to_nat (Z.max 0 (Z.of_nat (length data) - sliceCount range data))).
    assert (Hcount : (22 <= sliceCount range data)%Z \/ range = AALL).
    { destruct range; cbn; auto; left; lia. }
    assert (Hk : (k < length data)%nat).
    { subst k. destruct Hcount as [Hc | ->]; [lia |]. cbn. lia. }
    split; [apply suffix_drop |]. split; [| split; [| split]].
    + rewrite length_drop. subst k. destruct range; cbn [sliceCount]; lia.
    + intros Hnil. apply (f_equal length) in Hnil. rewrite length_drop in Hnil.
      cbn in Hnil. lia.
    + rewrite !last_lookup, lookup_drop, length_drop. f_equal. lia.
    + intros ->. subst k. cbn [sliceCount].
      replace (Z.to_nat _) with 0%nat by lia. apply drop_0.
Qed.

Section SessionMore.
Import AiInsightPanel.

Lemma session_key_not_cache `{JsRuntime} (prefix : string) (params : list (string * JsVal)) :
  STORAGE_KEY <> getCacheKey prefix params.
Proof. unfold STORAGE_KEY, getCacheKey, CACHE_PREFIX. cbn. discriminate. Qed.

(** X25.  The saved session of the AI panel.  A state with an analysis is
    written under the panel's key and read back on the next mount: the
    analysis, the chat messages (after a JSON round trip), the range, and the
    model if it is one of the listed models -- otherwise the mounting state
    keeps its own.  A state without an analysis removes the entry, so the next
    mount starts from its initial state, chat messages included; so does
    [handleClearHistory].  A write that fails throws.  No other entry of
    [localStorage] is touched, and the panel's key is no cache key. *)
Theorem session_round_trip `{JsRuntime} (st : storage) (now : Z) (a r m : string)
    (msgs : list JsVal) (s0 : State) :
  let s := {| analysis := JStr a; chatMessages := JArr msgs;
              range := JStr r; model := JStr m |} in
  (a <> "" ->
   exists st',
     save_effect true st now s = Ok st'
     /\ load_effect st' s0
        = {| analysis := JStr a;
             chatMessages := JArr (json_copy msgs);
             range := if String.eqb r "" then range s0 else JStr r;
             model := if known_model (JStr m) then JStr m else model s0 |}
     /\ (forall key, key <> STORAGE_KEY -> st' !! key = st !! key)
     /\ exists e, save_effect false st now s = Throw e)
  /\ (forall quota_ok,
        a = "" ->
        save_effect quota_ok st now s = Ok (delete STORAGE_KEY st)
        /\ load_effect (delete STORAGE_KEY st) s0 = s0)
  /\ load_effect (handleClearHistory st s).2 s0 = s0
  /\ (forall prefix params, STORAGE_KEY <> getCacheKey prefix params).
Proof.
  intros s. split; [| split; [| split]].
  - intros Ha. apply String.eqb_neq in Ha.
    assert (Htruthy : truthy (JStr a) = true) by (cbn; by rewrite Ha).
    exists (<[STORAGE_KEY := Json (JObj [("analysis", JStr a);
                                         ("chatMessages", JArr (json_copy msgs));
                                         ("range", JStr r);
                                         ("model", JStr m);
                                         ("timestamp", JNum (Num.of_Z now))])]> st).
    split; [| split; [| split]].
    + unfold save_effect. subst s. cbn [analysis]. rewrite Htruthy. reflexivity.
    + unfold load_effect. rewrite lookup_insert_eq. unfold restore.
      change (get _ "analysis") with (Ok (JStr a)).
      change (get _ "chatMessages") with (Ok (JArr (json_copy msgs))).
      change (get _ "range") with (Ok (JStr r)).
      change (get _ "model") with (Ok (JStr m)).
      cbn [bind]. rewrite Htruthy. cbn [truthy]. f_equal.
      * destruct (String.eqb r ""); reflexivity.
      * destruct (String.eqb m "") eqn:Hm; cbn [negb andb]; [| reflexivity].
        apply String.eqb_eq in Hm as ->. reflexivity.
    + intros key Hne. by rewrite lookup_insert_ne.
    + unfold save_effect. subst s. cbn [analysis]. rewrite Htruthy. eauto.
  - intros quota_ok ->. split; [reflexivity |].
    unfold load_effect. by rewrite lookup_delete_eq.
  - unfold handleClearHistory, load_effect. cbn [snd]. by rewrite lookup_delete_eq.
  - intros prefix params. apply session_key_not_cache.
Qed.

End SessionMore.

Section SectorRanking.
Context `{JsRuntime}.







End SectorRanking.

Section RangeButtons.
Context `{JsRuntime}.

(** X27.  A click on a range button.  Whatever custom dates were set, the
    chart then shows the preset window: no returned row is older than the
    range counted back from now.  And the breadth series keeps its cache key.
    *)
Theorem handleRangeChange_effects (now : Z) (r : TimeRange) (p : FilterParams)
    (breadthData vnIndexFixedData capData sectorData : list JsVal) :
  breadth_key (handleRangeChange r p).2 = breadth_key p
  /\ (forall out,
        chartData now (handleRangeChange r p).1 (handleRangeChange r p).2
          breadthData vnIndexFixedData capData sectorData = Ok out ->
        Forall (fun d =>
                  Num.ge (to_number (timestamp_of d))
                    (Num.sub (Num.of_Z now) (Num.of_Z (range_days r * 86400000))) = true)
               out).
Proof.
  split; [reflexivity |].
  intros out. unfold chartData, handleRangeChange. cbn [fst snd fromDate toDate orb].
  intros Hchart.
  assert (Hout : out = [] \/ exists rows : list JsVal,
    out = List.filter
            (fun d => Num.ge (record_timestamp d)
                        (Num.sub (Num.of_Z now) (Num.of_Z (range_days r * 86400000))))
            rows).
  { destruct (merge_sources breadthData vnIndexFixedData capData sectorData) as [m|e];
      destruct breadthData, vnIndexFixedData; cbn [bind] in Hchart;
      try discriminate Hchart; try (left; by injection Hchart as <-);
      right; eexists; by injection Hchart as <-. }
  destruct Hout as [-> | [rows ->]]; [constructor |].
  apply Forall_forall. intros d Hd.
  by apply list_elem_of_In, filter_In in Hd as [_ Hd].
Qed.

End RangeButtons.


(* ================================================================== *)
(** * The statements at concrete inputs *)
(* ================================================================== *)

Section Examples.
Import Reference.

(** An entry written at clock 1000 and read exactly [VNINDEX_TTL] later is
    still fresh; a millisecond later it is not. *)
Lemma loadFromCache_ttl_witness :
  (loadFromCache {[ "k" := Json (cache_payload 1000 (JArr [sample_point])) ]}
     14401000 "k" (Some VNINDEX_TTL) = None
   <-> Num.gt (entry_age 14401000 1000) VNINDEX_TTL = true)
  /\ (Num.gt (entry_age 14401000 1000) VNINDEX_TTL = false ->
      loadFromCache {[ "k" := Json (cache_payload 1000 (JArr [sample_point])) ]}
        14401000 "k" (Some VNINDEX_TTL)
      = Some (JArr [sample_point], entry_age 14401000 1000))
  /\ (Num.same (entry_age 14401000 1000) VNINDEX_TTL = true ->
      loadFromCache {[ "k" := Json (cache_payload 1000 (JArr [sample_point])) ]}
        14401000 "k" (Some VNINDEX_TTL)
      = Some (JArr [sample_point], entry_age 14401000 1000))
  /\ loadFromCache {[ "k" := Json (cache_payload 1000 (JArr [sample_point])) ]}
       14401000 "k" None
     = Some (JArr [sample_point], entry_age 14401000 1000).
Proof.
  apply (loadFromCache_ttl
           {[ "k" := Json (cache_payload 1000 (JArr [sample_point])) ]}
           14401000 1000 "k" (JArr [sample_point]) VNINDEX_TTL).
  - apply lookup_singleton_eq.
  - reflexivity.
Defined.

Example ttl_boundary_fresh :
  loadFromCache {[ "k" := Json (cache_payload 1000 (JArr [sample_point])) ]}
    14401000 "k" (Some VNINDEX_TTL)
  = Some (JArr [sample_point], Fin 14400000).
Proof.
  rewrite (loadFromCache_entry _ _ 1000 _ (JArr [sample_point]));
    [reflexivity | apply lookup_singleton_eq | reflexivity].
Qed.

Example ttl_boundary_expired :
  loadFromCache {[ "k" := Json (cache_payload 1000 (JArr [sample_point])) ]}
    14401001 "k" (Some VNINDEX_TTL)
  = None.
Proof.
  rewrite (loadFromCache_entry _ _ 1000 _ (JArr [sample_point]));
    [reflexivity | apply lookup_singleton_eq | reflexivity].
Qed.


(** C1 fails on the pass-through shape: [fetchBreadthData] returns the
    upstream point as it came, with [total = 100 > 0], [count20 = 10] and
    [ma20 = 40], which is not [100 * 10 / 100]. *)
Lemma fetchBreadthData_passes_through :
  settled (fetchBreadthData (latest_only (JArr [upstream_point])) true ∅ 0 0 sample_params)
  = Ok [upstream_point]
  /\ get upstream_point "total" = Ok (jnum 100)
  /\ get upstream_point "count20" = Ok (jnum 10)
  /\ get upstream_point "ma20" = Ok (jnum 40)
  /\ Num.gt (Num.of_Z 100) Num.zero = true
  /\ Num.same (Num.of_Z 40)
       (Num.div (Num.mul hundred (Num.of_Z 10)) (Num.of_Z 100)) = false.
Proof. repeat split; vm_compute; reflexivity. Qed.

(** [processRaw_percentages] on a flat payload that goes through
    [mapBreadthData]: [50 / 200] and [30 / 200] are doubles and give 25 and
    15; [7 / 200] is not, and [(7 / 200) * 100] is 3.5000000000000004. *)
Lemma processRaw_percentages_witness :
  passed_through
    (JArr [JObj [("date", JStr "2024-01-02"); ("total", jnum 200);
                 ("avg_ma20", jnum 50); ("avg_ma50", jnum 30); ("avg_ma200", jnum 7)]])
    [JObj [("date", JStr "2024-01-02"); ("timestamp", jnum 1704153600000);
           ("total", jnum 200);
           ("count20", jnum 50); ("count50", jnum 30); ("count200", jnum 7);
           ("ma20", jnum 25); ("ma50", jnum 15);
           ("ma200", JNum (Fin (7881299347898369 # 2251799813685248)))]]
  \/ Forall breadth_invariant
       [JObj [("date", JStr "2024-01-02"); ("timestamp", jnum 1704153600000);
              ("total", jnum 200);
              ("count20", jnum 50); ("count50", jnum 30); ("count200", jnum 7);
              ("ma20", jnum 25); ("ma50", jnum 15);
              ("ma200", JNum (Fin (7881299347898369 # 2251799813685248)))]].
Proof.
  apply (processRaw_percentages
           (JArr [JObj [("date", JStr "2024-01-02"); ("total", jnum 200);
                        ("avg_ma20", jnum 50); ("avg_ma50", jnum 30);
                        ("avg_ma200", jnum 7)]])).
  vm_compute. reflexivity.
Defined.

(** [Num.mul], [Num.div] and [Num.rsub] against the standard library's
    specification of IEEE 754 arithmetic, on doubles: a quotient and a
    product that round, a product that is exact, one that overflows, one
    that falls into the subnormal numbers, a tie, and a difference. *)
Example rounding_as_IEEE_754 :
  Num.div (Num.of_Z 7) (Num.of_Z 200)
  = of_spec_float (binary64_div (binary64 7 0) (binary64 200 0))
  /\ Num.mul (Num.div (Num.of_Z 7) (Num.of_Z 200)) hundred
     = of_spec_float
         (binary64_mul (binary64_div (binary64 7 0) (binary64 200 0)) (binary64 100 0))
  /\ Num.mul (Fin seconds_and_millis) thousand
     = of_spec_float (binary64_mul (binary64 7130316800515899 (-22)) (binary64 1000 0))
  /\ Num.mul (Num.of_Z 1700000000) thousand
     = of_spec_float (binary64_mul (binary64 1700000000 0) (binary64 1000 0))
  /\ Num.mul (of_spec_float (binary64 (- 10 ^ 308) 0)) thousand
     = of_spec_float (binary64_mul (binary64 (- 10 ^ 308) 0) (binary64 1000 0))
  /\ Num.mul (of_spec_float (binary64 3 (-1070))) (of_spec_float (binary64 3 (-4)))
     = of_spec_float (binary64_mul (binary64 3 (-1070)) (binary64 3 (-4)))
  /\ Num.mul (Num.of_Z 9007199254740993) (Num.of_Z 1)
     = of_spec_float (binary64 9007199254740993 0)
  /\ Num.div (Num.of_Z 1) (Num.of_Z 3)
     = of_spec_float (binary64_div (binary64 1 0) (binary64 3 0))
  /\ Num.rsub (of_spec_float (binary64 1 (-1)))
       (Num.div (Num.of_Z 1) (Num.of_Z 3))
     = of_spec_float
         (binary64_sub (binary64 1 (-1)) (binary64_div (binary64 1 0) (binary64 3 0))).
Proof. repeat split; vm_compute; reflexivity. Qed.

(** The percentage of 7 in 200 is not 3.5: the quotient is rounded to the
    nearest double, 0.035000000000000003, and so is its product with 100. *)
Example calc_rounds :
  calc (Num.of_Z 200) (Num.of_Z 7) = Fin (7881299347898369 # 2251799813685248)
  /\ Num.same (calc (Num.of_Z 200) (Num.of_Z 7)) (Fin (7 # 2)) = false
  /\ Num.div (Num.of_Z 7) (Num.of_Z 200) = Fin (1261007895663739 # 36028797018963968).
Proof. repeat split; vm_compute; reflexivity. Qed.


(** Seconds that are not whole: 1700000000.123 (the double) times 1000 is
    rounded to 1700000000123; and a timestamp of [-1e308] goes to
    [-Infinity]. *)
Example scale_number_ms_rounds :
  scale_number_ms (JNum (Fin (7130316800515899 # 4194304))) = jnum 1700000000123
  /\ Num.eqb (Fin ((7130316800515899 # 4194304) * 1000)) (Num.of_Z 1700000000123) = false
  /\ scale_number_ms (JNum (Fin (- inject_Z (10 ^ 308)))) = JNum NInf.
Proof. repeat split; vm_compute; reflexivity. Qed.

Example wrapper_scenario :
  parseVNIndexData
    (JObj [("data", JArr [JObj [("t", jnum 1700000000); ("c", JNum (Fin (201 # 2)))]])])
  = Ok [mk_point (jnum 1700000000000) (Fin (201 # 2))].
Proof. vm_compute. reflexivity. Qed.

(** C6 fails on values that serialise alike: [NaN] and [Infinity] both print
    as [null], and the key whitelist empties nested objects. *)
Lemma getCacheKey_collisions :
  getCacheKey "BREADTH"
    (filterIdentity
       (Build_FilterParams (Num.of_Z 365) "hose" NaN (Num.of_Z 1000)
          (Num.of_Z 0) (Num.of_Z 100) None None None))
  = getCacheKey "BREADTH"
      (filterIdentity
         (Build_FilterParams (Num.of_Z 365) "hose" PInf (Num.of_Z 1000)
            (Num.of_Z 0) (Num.of_Z 100) None None None))
  /\ Num.same NaN PInf = false
  /\ getCacheKey "K" [("a", JObj [("x", jnum 1)])]
     = getCacheKey "K" [("a", JObj [("x", jnum 2)])].
Proof. repeat split; vm_compute; reflexivity. Qed.

(** [getCacheKey_fingerprint] on the identity of a breadth query, its keys in
    two orders, and with another floor. *)
Lemma getCacheKey_fingerprint_witness :
  (filterIdentity sample_params ≡ₚ rev (filterIdentity sample_params) ->
   getCacheKey "BREADTH" (filterIdentity sample_params)
   = getCacheKey "BREADTH" (rev (filterIdentity sample_params)))
  /\ (forall k v1 v2,
        (forall k', k' ∈ map fst (filterIdentity sample_params)
                    <-> k' ∈ map fst (rev (filterIdentity sample_params))) ->
        Forall scalar (map snd (filterIdentity sample_params)) ->
        Forall scalar (map snd (rev (filterIdentity sample_params))) ->
        lookup_prop k (filterIdentity sample_params) = Some v1 ->
        lookup_prop k (rev (filterIdentity sample_params)) = Some v2 ->
        differ v1 v2 ->
        getCacheKey "BREADTH" (filterIdentity sample_params)
        <> getCacheKey "BREADTH" (rev (filterIdentity sample_params))).
Proof.
  apply (getCacheKey_fingerprint "BREADTH" (filterIdentity sample_params)
           (rev (filterIdentity sample_params))).
  apply (bool_decide_unpack _). vm_compute. exact I.
Defined.

Example getCacheKey_floor_change :
  getCacheKey "BREADTH" (filterIdentity sample_params)
  <> getCacheKey "BREADTH"
       (filterIdentity
          (Build_FilterParams (Num.of_Z 365) "hnx" (Num.of_Z 0) (Num.of_Z 1000)
             (Num.of_Z 0) (Num.of_Z 100) None None None)).
Proof.
  apply (getCacheKey_sensitive "BREADTH" _ _ "floor" (JStr "hose") (JStr "hnx")).
  - done.
  - repeat constructor.
  - repeat constructor.
  - reflexivity.
  - reflexivity.
  - discriminate.
Qed.

(** [fetchBreadthData_latest_wins] on fifty cached days that are ten minutes
    old: only the latest query is sent, and its two points are merged into
    the cached ones. *)
Lemma fetchBreadthData_latest_wins_witness :
  let net := latest_only (JArr [latest_day50; latest_day51]) in
  let refetch := negb true || (length cached_days <? 50)%nat in
  let inserted := merge_inputs refetch true cached_days [] [latest_day50; latest_day51] in
  exists final,
    merge_fetched refetch true cached_days [] [latest_day50; latest_day51] = Ok final
    /\ settled (fetchBreadthData net true stale_store 600000 600500 sample_params) = Ok final
    /\ inserted = (if refetch then [] else cached_days) ++ [latest_day50; latest_day51]
    /\ merged_by_timestamp inserted final
    /\ (refetch = true ->
        merge_fetched refetch true [] [] [latest_day50; latest_day51] = Ok final)
    /\ (refetch = false ->
        merge_fetched refetch true cached_days [] [latest_day50; latest_day51] = Ok final)
    /\ (forall p q, p ∈ [latest_day50; latest_day51] -> q ∈ final ->
          same_timestamp p q -> q ∈ [latest_day50; latest_day51])
    /\ (forall p, p ∈ [latest_day50; latest_day51] ->
          exists q, q ∈ final /\ q ∈ [latest_day50; latest_day51]
            /\ (timestamp_of q = timestamp_of p \/ same_timestamp p q))
    /\ (Forall numeric_timestamp final -> StronglySorted timestamp_le final).
Proof.
  apply (fetchBreadthData_latest_wins
           (latest_only (JArr [latest_day50; latest_day51])) true stale_store
           600000 600500 sample_params cached_days true (entry_age 600000 0)
           [latest_day50; latest_day51] []).
  - vm_compute. reflexivity.
  - vm_compute. reflexivity.
  - vm_compute. reflexivity.
  - vm_compute. reflexivity.
  - vm_compute. repeat constructor.
Defined.

(** The merge above: the first forty-nine cached days as they were, the
    fiftieth as the latest query revised it, and the new day. *)
Example fetchBreadthData_merges_cache :
  settled (fetchBreadthData (latest_only (JArr [latest_day50; latest_day51])) true
             stale_store 600000 600500 sample_params)
  = Ok (take 49 cached_days ++ [latest_day50; latest_day51]).
Proof. vm_compute. reflexivity. Qed.

(** On an empty cache history is fetched, and the latest point replaces the
    history point of the same day. *)
Example fetchBreadthData_merges_history :
  settled (fetchBreadthData both_queries true ∅ 0 0 sample_params)
  = Ok [history_day1; latest_day2].
Proof. vm_compute. reflexivity. Qed.

(** [merge_index_presence] on a breadth day, an index series that ends the
    first day on a close of 0, and a cap series whose one point has no close
    value. *)
Lemma merge_index_presence_witness :
  exists m1 m,
    foldM merge_breadth [] [JObj breadth_day1] = Ok m1
    /\ merge_sources [JObj breadth_day1] [index_day1; index_zero; index_day2]
         [index_null] [] = Ok m
    /\ series_field "vnIndex" [index_day1; index_zero; index_day2] m1 m
    /\ series_field "capVal" [index_null] m1 m
    /\ series_field "sectorVal" [] m1 m
    /\ (forall day r1,
          map_get (JStr day) m1 = Some r1 ->
          exists r, map_get (JStr day) m = Some r
                    /\ forall f, f ∉ index_fields -> prop_of r f = prop_of r1 f)
    /\ (forall now range params out,
          chartData now range params [JObj breadth_day1]
            [index_day1; index_zero; index_day2] [index_null] [] = Ok out ->
          forall row, row ∈ out ->
            exists day r, map_get (JStr day) m = Some r /\ row = JObj r)
    /\ (forall field m0 v,
          timed v ->
          exists ts key close r' m',
            merge_index field m0 v = Ok m'
            /\ get v "timestamp" = Ok ts /\ getDateKey ts = Ok key
            /\ get v "close" = Ok close
            /\ map_get (JStr key) m' = Some r'
            /\ (is_nullish close = false -> prop_of r' field = close)
            /\ (close = JNum Num.zero -> prop_of r' field = JNum Num.zero)
            /\ (is_nullish close = true ->
                r' = default (new_record ts key) (map_get (JStr key) m0))
            /\ (forall f, f <> field ->
                prop_of r' f
                = prop_of (default (new_record ts key) (map_get (JStr key) m0)) f)
            /\ (forall day, day <> key -> map_get (JStr day) m' = map_get (JStr day) m0))
    /\ (forall field m0 points m' day,
          foldM (merge_index field) m0 points = Ok m' ->
          (forall v ts, v ∈ points -> get v "timestamp" = Ok ts ->
                        getDateKey ts <> Ok day) ->
          map_get (JStr day) m' = map_get (JStr day) m0).
Proof.
  apply (merge_index_presence [JObj breadth_day1] [index_day1; index_zero; index_day2]
           [index_null] []).
  cbn [app]. repeat (apply List.Forall_cons); [.. | apply List.Forall_nil];
    (eexists _, _; split; [reflexivity | vm_compute; reflexivity]).
Defined.

(** The map of that merge: the first day has the breadth values and a
    [vnIndex] of 0, the second a [vnIndex] of 1110 and no [capVal]. *)
Example merge_sources_zero_close :
  merge_sources [JObj breadth_day1] [index_day1; index_zero; index_day2] [index_null] []
  = Ok [(JStr "2024-01-01",
         [("date", JStr "2024-01-01"); ("timestamp", jnum 1704067200000);
          ("formattedDate", JStr "01/01"); ("vnIndex", jnum 0);
          ("capVal", JUndefined); ("sectorVal", JUndefined);
          ("ma20", jnum 40); ("ma50", jnum 50); ("ma200", jnum 60)]);
        (JStr "2024-01-02",
         [("date", JStr "2024-01-02"); ("timestamp", jnum 1704153600000);
          ("formattedDate", JStr "02/01"); ("vnIndex", jnum 1110);
          ("capVal", JUndefined); ("sectorVal", JUndefined)])].
Proof. vm_compute. reflexivity. Qed.

(** [fetchBreadthData_stale_refresh] on fifty cached days written ten
    minutes ago, with the network down. *)
Lemma fetchBreadthData_stale_refresh_witness :
  let o := fetchBreadthData no_network true stale_store 600000 600500 sample_params in
  let sorted := stable_sort timestamp_before cached_days in
  let latest := BreadthSeries (breadth_base sample_params) sample_params true in
  settled o = Ok sorted
  /\ sorted ≡ₚ cached_days
  /\ StronglySorted timestamp_le sorted
  /\ (Sorted timestamp_le cached_days -> sorted = cached_days)
  /\ store o !! breadth_key sample_params
     = Some (Json (cache_payload 600500 (JArr sorted)))
  /\ sent o = [(latest, Direct); (latest, Proxy)]
  /\ (forall net' quota_ok next later',
        Num.lt (entry_age next 600500) BREADTH_MIN_FRESH = true ->
        settled (fetchBreadthData net' quota_ok (store o) next later' sample_params)
        = Ok sorted
        /\ sent (fetchBreadthData net' quota_ok (store o) next later' sample_params) = []).
Proof.
  apply (fetchBreadthData_stale_refresh no_network stale_store 600000 600500 0
           sample_params cached_days).
  - apply lookup_singleton_eq.
  - vm_compute. lia.
  - vm_compute. reflexivity.
  - intros req. split; reflexivity.
  - vm_compute. reflexivity.
  - vm_compute. reflexivity.
  - vm_compute. reflexivity.
Defined.

Example stale_refresh_returns_cache :
  settled (fetchBreadthData no_network true stale_store 600000 600500 sample_params)
  = Ok cached_days.
Proof. vm_compute. reflexivity. Qed.

End Examples.

(** ** The further properties at concrete inputs *)

Section MoreExamples.
Import Reference.

(** An entry without a timestamp is fresh under the four-hour TTL. *)
Lemma loadFromCache_unreadable_timestamp_witness :
  loadFromCache undated_store 5 "k" (Some VNINDEX_TTL) = Some (JArr [sample_point], NaN).
Proof.
  apply (loadFromCache_unreadable_timestamp undated_store 5 "k"
           (JObj [("data", JArr [sample_point])]) (JArr [sample_point]) JUndefined
           (Some VNINDEX_TTL)).
  - apply lookup_singleton_eq.
  - reflexivity.
  - reflexivity.
  - reflexivity.
  - reflexivity.
Defined.

(** The default index series, cached at clock 0 and asked for four hours
    later to the millisecond. *)
Lemma fetchVNIndexData_fresh_window_witness :
  let o := fetchVNIndexData no_network true index_store 14400000 14400500 None in
  (Num.gt (entry_age 14400000 0) VNINDEX_TTL = false ->
   settled o = Ok (JArr [sample_point]) /\ store o = index_store /\ sent o = [])
  /\ (Num.same (entry_age 14400000 0) VNINDEX_TTL = true -> sent o = [])
  /\ (Num.gt (entry_age 14400000 0) VNINDEX_TTL = true ->
      (IndexSeries (vnindex_target None), Direct) ∈ sent o).
Proof.
  apply (fetchVNIndexData_fresh_window no_network true index_store 14400000 14400500 0
           None (JArr [sample_point])).
  - apply lookup_singleton_eq.
  - reflexivity.
Defined.

(** A first fetch of a one-row series on an empty store, and the calls that
    follow. *)
Lemma fetchVNIndexData_then_cached_witness :
  let o := fetchVNIndexData (index_only index_rows) true ∅ 0 500 None in
  let saved := JArr (json_copy [index_point]) in
  settled o = Ok (JArr [index_point])
  /\ store o !! vnindex_key None = Some (Json (cache_payload 500 saved))
  /\ (forall net' quota_ok next later',
        Num.gt (entry_age next 500) VNINDEX_TTL = false ->
        let o' := fetchVNIndexData net' quota_ok (store o) next later' None in
        settled o' = Ok saved /\ sent o' = [] /\ store o' = store o).
Proof.
  apply (fetchVNIndexData_then_cached (index_only index_rows) ∅ 0 500 None
           index_rows [index_point]).
  - vm_compute. reflexivity.
  - left. reflexivity.
  - reflexivity.
  - vm_compute. reflexivity.
  - discriminate.
Defined.

(** A body of an unsupported shape, with a five-hour-old entry in the
    cache: the answer is [[]], not the old entry. *)
Lemma fetchVNIndexData_empty_series_witness :
  let o := fetchVNIndexData (index_only (JObj [("message", JStr "maintenance")])) true
             index_store 18000000 18000500 None in
  settled o = Ok (JArr []) /\ store o = index_store.
Proof.
  apply (fetchVNIndexData_empty_series
           (index_only (JObj [("message", JStr "maintenance")])) true
           index_store 18000000 18000500 None (JObj [("message", JStr "maintenance")])).
  - vm_compute. reflexivity.
  - left. reflexivity.
  - reflexivity.
  - vm_compute. reflexivity.
Defined.

(** One breadth day cached at clock 0 and asked for five minutes later to
    the millisecond. *)
Lemma fetchBreadthData_fresh_window_witness :
  let o := fetchBreadthData no_network true day_store 300000 300500 sample_params in
  let latest := BreadthSeries (breadth_base sample_params) sample_params true in
  (Num.lt (entry_age 300000 0) BREADTH_MIN_FRESH = true ->
   settled o = Ok [history_day1] /\ store o = day_store /\ sent o = [])
  /\ (Num.lt (entry_age 300000 0) BREADTH_MIN_FRESH = false -> (latest, Direct) ∈ sent o)
  /\ (Num.same (entry_age 300000 0) BREADTH_MIN_FRESH = true -> (latest, Direct) ∈ sent o).
Proof.
  apply (fetchBreadthData_fresh_window no_network true day_store 300000 300500 0
           sample_params history_day1 []).
  apply lookup_singleton_eq.
Defined.

(** The requests of a first cycle on an empty store. *)
Lemma fetchBreadthData_requests_witness :
  let o := fetchBreadthData both_queries true ∅ 0 0 sample_params in
  let latest := BreadthSeries (breadth_base sample_params) sample_params true in
  let history := BreadthSeries (breadth_base sample_params) sample_params false in
  (latest, Direct) ∈ sent o
  /\ ((history, Direct) ∈ sent o <-> false = false \/ (length ([] : list JsVal) < 50)%nat)
  /\ (forall req, (req, Direct) ∈ sent o -> req = latest \/ req = history)
  /\ (forall req, (req, Proxy) ∈ sent o
                  <-> (req, Direct) ∈ sent o /\ direct both_queries req = None)
  /\ (length (sent o) <= 4)%nat.
Proof.
  apply (fetchBreadthData_requests both_queries true ∅ 0 0 sample_params
           [] false (Num.of_Z 999999999)).
  - vm_compute. reflexivity.
  - reflexivity.
Defined.

(** A first cycle on an empty store, and the calls that follow. *)
Lemma fetchBreadthData_then_cached_witness :
  let o := fetchBreadthData both_queries true ∅ 0 500 sample_params in
  settled o = Ok [history_day1; latest_day2]
  /\ store o !! breadth_key sample_params
     = Some (Json (cache_payload 500 (JArr (json_copy [history_day1; latest_day2]))))
  /\ (forall net' quota_ok next later' params',
        same_filter sample_params params' ->
        Num.lt (entry_age next 500) BREADTH_MIN_FRESH = true ->
        let o' := fetchBreadthData net' quota_ok (store o) next later' params' in
        settled o' = Ok (json_copy [history_day1; latest_day2])
        /\ sent o' = [] /\ store o' = store o).
Proof.
  apply (fetchBreadthData_then_cached both_queries ∅ 0 500 sample_params
           [] false (Num.of_Z 999999999)
           [latest_day2] [history_day1; history_day2] [history_day1; latest_day2]).
  - vm_compute. reflexivity.
  - reflexivity.
  - vm_compute. reflexivity.
  - vm_compute. reflexivity.
  - vm_compute. reflexivity.
  - discriminate.
Defined.

(** Two days in one series and one of them in another: two points. *)
Lemma mapComplexBreadthData_one_per_date_witness :
  exists points,
    mapComplexBreadthData complex_payload = Ok points
    /\ distinct_keys (map date_of points) = true
    /\ (forall key items item d,
          key ∈ series_keys ->
          get complex_payload key = Ok (JArr items) -> item ∈ items ->
          get item "date" = Ok d ->
          key_among d (map date_of points)).
Proof.
  eexists. split; [vm_compute; reflexivity |].
  apply (mapComplexBreadthData_one_per_date complex_payload).
  vm_compute. reflexivity.
Defined.

Lemma breadth_day1_record : breadth_record (JObj breadth_day1).
Proof.
  exists breadth_day1, (Num.of_Z 1704067200000). split; [reflexivity |]. split.
  - apply (bool_decide_unpack _). vm_compute. reflexivity.
  - split; [reflexivity |]. intros key Hkey. vm_compute in Hkey.
    injection Hkey as <-. reflexivity.
Defined.

Lemma index_days_records : Forall index_record [index_day1; index_day2].
Proof.
  apply Forall_cons. split; [by eexists |].
  apply Forall_cons. split; [by eexists | apply Forall_nil_2].
Defined.

(** A breadth day and two index days: two rows, one a day. *)
Lemma chartData_one_row_per_day_witness :
  exists out,
    chartData 1704240000000 R1M sample_params [JObj breadth_day1]
      [index_day1; index_day2] [] [] = Ok out
    /\ NoDup (map date_of out) /\ Forall chart_row out.
Proof.
  eexists. split; [vm_compute; reflexivity |].
  apply (chartData_one_row_per_day 1704240000000 R1M sample_params [JObj breadth_day1]
           [index_day1; index_day2] [] []).
  - apply Forall_cons. split; [apply breadth_day1_record | apply Forall_nil_2].
  - apply index_days_records.
  - apply Forall_nil_2.
  - apply Forall_nil_2.
  - vm_compute. reflexivity.
Defined.

Lemma chartData_sorted_window_witness :
  exists out,
    chartData 1704240000000 R1M sample_params [JObj breadth_day1]
      [index_day1; index_day2] [] [] = Ok out
    /\ StronglySorted timestamp_le out
    /\ Forall (fun d => in_window 1704240000000 R1M sample_params
                          (to_number (timestamp_of d))) out.
Proof.
  eexists. split; [vm_compute; reflexivity |].
  apply (chartData_sorted_window 1704240000000 R1M sample_params [JObj breadth_day1]
           [index_day1; index_day2] [] []).
  - apply Forall_cons. split; [apply breadth_day1_record | apply Forall_nil_2].
  - apply index_days_records.
  - apply Forall_nil_2.
  - apply Forall_nil_2.
  - vm_compute. reflexivity.
Defined.

(** The first breadth point of a day, on an empty map. *)
Lemma merge_breadth_assign_witness :
  exists m',
    merge_breadth [] (JObj breadth_day1) = Ok m'
    /\ exists key r',
         getDateKey (prop_of breadth_day1 "timestamp") = Ok key
         /\ map_get (JStr key) m' = Some r'
         /\ (forall k v, lookup_prop k breadth_day1 = Some v -> prop_of r' k = v)
         /\ (forall k, lookup_prop k breadth_day1 = None ->
               prop_of r' k
               = prop_of (default (new_record (prop_of breadth_day1 "timestamp") key)
                            (map_get (JStr key) [])) k)
         /\ (forall day, day <> key -> map_get (JStr day) m' = map_get (JStr day) []).
Proof.
  eexists. split; [vm_compute; reflexivity |].
  apply (merge_breadth_assign [] _ breadth_day1).
  - apply (bool_decide_unpack _). vm_compute. reflexivity.
  - vm_compute. reflexivity.
Defined.

Lemma two_rows_not_nullish :
  Forall (fun r => is_nullish r = false) [row_before; row_after].
Proof.
  apply Forall_cons. split; [reflexivity |].
  apply Forall_cons. split; [reflexivity | apply Forall_nil_2].
Defined.

(** Two rows between which [ma20] crosses above [ma50]. *)
Lemma crossovers_adjacent_witness :
  exists c1 c2,
    crossovers [row_before; row_after] = Ok (c1, c2)
    /\ (forall evt, evt ∈ c1 <-> crossing_in "ma20" "ma50" [row_before; row_after] evt)
    /\ (forall evt, evt ∈ c2 <-> crossing_in "ma50" "ma200" [row_before; row_after] evt)
    /\ sublist (map event_x c1) (map timestamp_of (tail [row_before; row_after]))
    /\ sublist (map event_x c2) (map timestamp_of (tail [row_before; row_after]))
    /\ (length c1 <= length [row_before; row_after] - 1)%nat
    /\ (length c2 <= length [row_before; row_after] - 1)%nat.
Proof.
  apply (crossovers_adjacent [row_before; row_after]). apply two_rows_not_nullish.
Defined.

Lemma crossovers_steady_witness :
  ((length [row_before; row_after] < 2)%nat -> [bull_marker] = [] /\ @nil JsVal = [])
  /\ (Forall (above "ma20" "ma50") [row_before; row_after]
      \/ Forall (above "ma50" "ma20") [row_before; row_after] -> [bull_marker] = [])
  /\ (Forall (above "ma50" "ma200") [row_before; row_after]
      \/ Forall (above "ma200" "ma50") [row_before; row_after] -> @nil JsVal = []).
Proof.
  apply (crossovers_steady [row_before; row_after] [bull_marker] []).
  - apply two_rows_not_nullish.
  - vm_compute. reflexivity.
Defined.

Lemma flat_record_dated :
  Forall2 dated_item [flat_record; flat_record_millis]
    [inject_Z 1700000000; seconds_and_millis].
Proof.
  constructor; [| constructor; [| constructor]].
  - exists [("date", jnum 1700000000); ("total", jnum 100); ("avg_ma20", jnum 40)],
      (inject_Z 1700000000000).
    split; [reflexivity |]. split; [reflexivity |]. split; [reflexivity |].
    split; [vm_compute; reflexivity |]. split; [reflexivity |]. vm_compute. discriminate.
  - exists [("date", JNum (Fin seconds_and_millis)); ("total", jnum 100); ("ma20", jnum 0)],
      (inject_Z 1700000000123).
    split; [reflexivity |]. split; [reflexivity |]. split; [reflexivity |].
    split; [vm_compute; reflexivity |]. split; [reflexivity |]. vm_compute. discriminate.
Defined.

(** A record dated in whole seconds, and one dated 1700000000.123, whose
    timestamp is the rounded product 1700000000123. *)
Lemma mapBreadthData_supported_witness :
  exists points,
    mapBreadthData [flat_record; flat_record_millis] = Ok points
    /\ length points = length [flat_record; flat_record_millis]
    /\ (forall i item q,
          [flat_record; flat_record_millis] !! i = Some item ->
          [inject_Z 1700000000; seconds_and_millis] !! i = Some q ->
          exists p, points !! i = Some p /\ mapped_item item q p).
Proof.
  apply (mapBreadthData_supported [flat_record; flat_record_millis]
           [inject_Z 1700000000; seconds_and_millis]).
  apply flat_record_dated.
Defined.

Example mapBreadthData_millis :
  exists p, mapBreadthData [flat_record_millis] = Ok [p]
            /\ get p "timestamp" = Ok (jnum 1700000000123)
            /\ get p "date" = Ok (JStr "2023-11-14").
Proof. eexists. split; [vm_compute; reflexivity |]. split; vm_compute; reflexivity. Qed.

(** The markers of the two chart days above. *)
Lemma crossovers_of_chartData_witness :
  exists rows,
    chartData 1704240000000 R1M sample_params [JObj breadth_day1]
      [index_day1; index_day2] [] [] = Ok rows
    /\ exists c1 c2,
         crossovers rows = Ok (c1, c2)
         /\ sublist (map event_x c1) (map timestamp_of rows)
         /\ sublist (map event_x c2) (map timestamp_of rows).
Proof.
  eexists. split; [vm_compute; reflexivity |].
  apply (crossovers_of_chartData 1704240000000 R1M sample_params [JObj breadth_day1]
           [index_day1; index_day2] [] []).
  vm_compute. reflexivity.
Defined.


Example sectorResults_order :
  sectorResults (jnum 1704067200000) fetched_sectors
  = Ok [JObj [("name", JStr "Banks"); ("code", JStr "8300"); ("change", jnum 10)];
        JObj [("name", JStr "Oil"); ("code", JStr "500"); ("change", jnum (-10))]].
Proof. vm_compute. reflexivity. Qed.

End MoreExamples.
